(** * Personal Library Manager (library-manager.py)

    A shallow embedding of the book-collection manager: the session's
    record store, the JSON persistence gateway (json.dump / json.load as
    the script calls them), the query functions and the statistics
    function, followed by the properties established about them.

    Conventions.
    - A Python [str] is a list of Unicode code points ([N]).
    - A Python value that can sit in the store is a [pyval]: what
      [add_book] builds and what [json.load] can return.
    - [st.session_state.library] is a reference into a heap of top-level
      objects, so that in-place list methods (append, pop, sort) and
      [list.copy] keep their aliasing behaviour.
    - An uncaught Python exception is the outcome [Raise].
    - The limits of the interpreter (recursion depth, the digit limit of
      int/str conversions, memory) are not modelled: integers are
      unbounded and values nest without limit. *)

From Stdlib Require Import ZArith NArith List Bool Ascii String Lia.
From Stdlib Require Import Uint63 Floats Sorted Permutation DecimalZ.
From stdpp Require Import gmap list.
Import ListNotations.
Set Warnings "-register-all".

(** ** Strings *)

Abbreviation pystr := (list N) (only parsing).

(** A string literal of the source, as code points. *)
Definition py (s : string) : pystr :=
  List.map N_of_ascii (list_ascii_of_string s).

Definition DQUOTE : N := 34.      (* the double quote character *)
Definition BSLASH : N := 92.      (* the backslash character *)

(** [a in b] on two strings: [a] occurs in [b] as a contiguous block. *)
Fixpoint startswith (b a : pystr) {struct a} : bool :=
  match a, b with
  | [], _ => true
  | _ :: _, [] => false
  | x :: a', y :: b' => (x =? y)%N && startswith b' a'
  end.

Fixpoint str_contains (a b : pystr) : bool :=
  startswith b a ||
  match b with
  | [] => false
  | _ :: b' => str_contains a b'
  end.

(** [a < b] on two strings: lexicographic on code points. *)
Fixpoint str_lt (a b : pystr) : bool :=
  match a, b with
  | _, [] => false
  | [], _ :: _ => true
  | x :: a', y :: b' => (x <? y)%N || ((x =? y)%N && str_lt a' b')
  end.

(** ** Values *)

Inductive pyval : Type :=
| PNone
| PBool (b : bool)
| PInt (z : Z)
| PFloat (f : float)
| PStr (s : pystr)
| PList (l : list pyval)
| PDict (d : list (pystr * pyval)).   (* insertion-ordered, keys distinct *)

Global Instance pyval_inhabited : Inhabited pyval := populate PNone.

(** Induction that reaches inside lists and dicts. *)
Section PyvalInd.
Variable P : pyval -> Prop.
Hypothesis HNone : P PNone.
Hypothesis HBool : forall b, P (PBool b).
Hypothesis HInt : forall z, P (PInt z).
Hypothesis HFloat : forall f, P (PFloat f).
Hypothesis HStr : forall s, P (PStr s).
Hypothesis HList : forall l, Forall P l -> P (PList l).
Hypothesis HDict : forall d, Forall (fun kv => P (snd kv)) d -> P (PDict d).

Fixpoint pyval_nested_ind (v : pyval) : P v :=
  match v with
  | PNone => HNone
  | PBool b => HBool b
  | PInt z => HInt z
  | PFloat f => HFloat f
  | PStr s => HStr s
  | PList l =>
      HList l ((fix go (l : list pyval) : Forall P l :=
                  match l with
                  | [] => @List.Forall_nil _ P
                  | x :: l' => @List.Forall_cons _ P x l' (pyval_nested_ind x) (go l')
                  end) l)
  | PDict d =>
      HDict d ((fix go (d : list (pystr * pyval))
                  : Forall (fun kv => P (snd kv)) d :=
                  match d with
                  | [] => @List.Forall_nil _ _
                  | (k, x) :: d' =>
                      @List.Forall_cons _ (fun kv => P (snd kv)) (k, x) d'
                        (pyval_nested_ind x) (go d')
                  end) d)
  end.
End PyvalInd.

(** Truth value of an object ([if x:], [x and y]). *)
Definition truthy (v : pyval) : bool :=
  match v with
  | PNone => false
  | PBool b => b
  | PInt z => negb (z =? 0)%Z
  | PFloat f => negb (PrimFloat.eqb f 0%float)
  | PStr s => negb (Nat.eqb (length s) 0)
  | PList l => negb (Nat.eqb (length l) 0)
  | PDict d => negb (Nat.eqb (length d) 0)
  end.

(** [d[k]] and [d[k] = v] on an insertion-ordered dict. *)
Fixpoint dict_get (d : list (pystr * pyval)) (k : pystr) : option pyval :=
  match d with
  | [] => None
  | (k', v) :: d' => if decide (k' = k) then Some v else dict_get d' k
  end.

Fixpoint dict_set (d : list (pystr * pyval)) (k : pystr) (v : pyval)
  : list (pystr * pyval) :=
  match d with
  | [] => [(k, v)]
  | (k', v') :: d' =>
      if decide (k' = k) then (k', v) :: d' else (k', v') :: dict_set d' k v
  end.

(** [dict(pairs)]: later pairs overwrite, first position is kept. *)
Definition dict_of_pairs (pairs : list (pystr * pyval)) : list (pystr * pyval) :=
  fold_left (fun d kv => dict_set d (fst kv) (snd kv)) pairs [].

(** ** Decimal integers: [int.__repr__] and [int(str)] *)

Fixpoint uint_chars (u : Decimal.uint) : pystr :=
  match u with
  | Decimal.Nil => []
  | Decimal.D0 u => 48%N :: uint_chars u
  | Decimal.D1 u => 49%N :: uint_chars u
  | Decimal.D2 u => 50%N :: uint_chars u
  | Decimal.D3 u => 51%N :: uint_chars u
  | Decimal.D4 u => 52%N :: uint_chars u
  | Decimal.D5 u => 53%N :: uint_chars u
  | Decimal.D6 u => 54%N :: uint_chars u
  | Decimal.D7 u => 55%N :: uint_chars u
  | Decimal.D8 u => 56%N :: uint_chars u
  | Decimal.D9 u => 57%N :: uint_chars u
  end.

Definition is_digit (c : N) : bool := ((48 <=? c) && (c <=? 57))%N.

Definition digit_cons (c : N) (u : Decimal.uint) : Decimal.uint :=
  match (c - 48)%N with
  | 0 => Decimal.D0 u | 1 => Decimal.D1 u | 2 => Decimal.D2 u
  | 3 => Decimal.D3 u | 4 => Decimal.D4 u | 5 => Decimal.D5 u
  | 6 => Decimal.D6 u | 7 => Decimal.D7 u | 8 => Decimal.D8 u
  | _ => Decimal.D9 u
  end%N.

Definition chars_uint (s : pystr) : Decimal.uint :=
  fold_right digit_cons Decimal.Nil s.

Definition int_repr (z : Z) : pystr :=
  match Z.to_int z with
  | Decimal.Pos u => uint_chars u
  | Decimal.Neg u => 45%N :: uint_chars u
  end.

(** [int(s)] for [s] matching -?[0-9]+ (what the scanner passes). *)
Definition int_of_str (s : pystr) : Z :=
  match s with
  | c :: ds =>
      if (c =? 45)%N then Z.of_int (Decimal.Neg (chars_uint ds))
      else Z.of_int (Decimal.Pos (chars_uint s))
  | [] => 0%Z
  end.

(** ** The interpreter's routines the script relies on

    [str.lower] needs the Unicode case tables, and the conversions
    between floats and their decimal text are the interpreter's; the
    program is verified for whatever they are. *)

Section Program.

Variable lower : pystr -> pystr.            (* str.lower *)
Variable float_repr : float -> pystr.       (* float.__repr__ *)
Variable float_of_str : pystr -> float.     (* float(str) *)

(** ** json.dump (default options: ensure_ascii, separators ", " and ": ") *)

Definition hex_digit (d : N) : N := if (d <? 10)%N then (48 + d)%N else (87 + d)%N.

(** ['{0:04x}'.format(n)] for [n < 0x10000]. *)
Definition format_04x (n : N) : pystr :=
  [hex_digit (n / 4096); hex_digit ((n / 256) mod 16);
   hex_digit ((n / 16) mod 16); hex_digit (n mod 16)]%N.

Definition ESCAPE_DCT (c : N) : option pystr :=
  if (c =? 92)%N then Some [BSLASH; BSLASH]
  else if (c =? 34)%N then Some [BSLASH; DQUOTE]
  else if (c =? 8)%N then Some (py "\b")
  else if (c =? 12)%N then Some (py "\f")
  else if (c =? 10)%N then Some (py "\n")
  else if (c =? 13)%N then Some (py "\r")
  else if (c =? 9)%N then Some (py "\t")
  else if (c <? 32)%N then Some (py "\u" ++ format_04x c)
  else None.

(** The pattern of characters to escape: backslash, double quote and
    everything outside the printable ASCII range space..tilde. *)
Definition ESCAPE_ASCII (c : N) : bool :=
  ((c =? 92) || (c =? 34) || negb ((32 <=? c) && (c <=? 126)))%N.

Definition replace (c : N) : pystr :=
  match ESCAPE_DCT c with
  | Some e => e
  | None =>
      if (c <? 0x10000)%N then py "\u" ++ format_04x c
      else
        let n := (c - 0x10000)%N in
        let s1 := N.lor 0xd800 (N.land (N.shiftr n 10) 0x3ff) in
        let s2 := N.lor 0xdc00 (N.land n 0x3ff) in
        py "\u" ++ format_04x s1 ++ py "\u" ++ format_04x s2
  end.

Definition encode_char (c : N) : pystr :=
  if ESCAPE_ASCII c then replace c else [c].

Definition encode_basestring_ascii (s : pystr) : pystr :=
  DQUOTE :: flat_map encode_char s ++ [DQUOTE].

Definition floatstr (o : float) : pystr :=
  if negb (PrimFloat.eqb o o) then py "NaN"
  else if PrimFloat.eqb o infinity then py "Infinity"
  else if PrimFloat.eqb o neg_infinity then py "-Infinity"
  else float_repr o.

(** [sep.join(chunks)]. *)
Definition join (sep : pystr) (chunks : list pystr) : pystr :=
  match chunks with
  | [] => []
  | c :: cs => c ++ flat_map (fun x => sep ++ x) cs
  end.

Fixpoint json_dumps (o : pyval) : pystr :=
  match o with
  | PNone => py "null"
  | PBool true => py "true"
  | PBool false => py "false"
  | PInt z => int_repr z
  | PFloat f => floatstr f
  | PStr s => encode_basestring_ascii s
  | PList [] => py "[]"
  | PList l => py "[" ++ join (py ", ") (List.map json_dumps l) ++ py "]"
  | PDict [] => py "{}"
  | PDict d =>
      py "{" ++
      join (py ", ")
        (List.map (fun kv => let '(k, v) := kv in
                     encode_basestring_ascii k ++ py ": " ++ json_dumps v) d)
      ++ py "}"
  end.

(** ** json.load (the decoder of CPython's json package, with its default
    hooks, in strict mode)

    The decoder works on the text still to be read: each routine returns
    the value together with the unread rest, where the Python code returns
    the value and the index reached. *)

Inductive parse (A : Type) : Type :=
| Parsed (a : A) (rest : pystr)
| Invalid          (* JSONDecodeError *)
| OutOfFuel.       (* the recursion bound of the model was reached *)
#[global] Arguments Parsed {A} a rest.
#[global] Arguments Invalid {A}.
#[global] Arguments OutOfFuel {A}.

Definition WHITESPACE_STR (c : N) : bool :=
  ((c =? 32) || (c =? 9) || (c =? 10) || (c =? 13))%N.

(** [_w(s, end).end()]: skip the run of whitespace. *)
Fixpoint skip_ws (s : pystr) : pystr :=
  match s with
  | c :: r => if WHITESPACE_STR c then skip_ws r else s
  | [] => []
  end.

Definition hex_value (c : N) : option N :=
  if is_digit c then Some (c - 48)%N
  else if ((97 <=? c) && (c <=? 102))%N then Some (c - 87)%N
  else if ((65 <=? c) && (c <=? 70))%N then Some (c - 55)%N
  else None.

(** The four hexadecimal digits after a backslash-u. *)
Definition decode_uXXXX (h1 h2 h3 h4 : N) : option N :=
  match hex_value h1, hex_value h2, hex_value h3, hex_value h4 with
  | Some a, Some b, Some c, Some d => Some (4096 * a + 256 * b + 16 * c + d)%N
  | _, _, _, _ => None
  end.

(** The table of one-letter escapes. *)
Definition BACKSLASH (esc : N) : option N :=
  if (esc =? 34)%N then Some 34%N            (* quote *)
  else if (esc =? 92)%N then Some 92%N       (* backslash *)
  else if (esc =? 47)%N then Some 47%N       (* slash *)
  else if (esc =? 98)%N then Some 8%N        (* b *)
  else if (esc =? 102)%N then Some 12%N      (* f *)
  else if (esc =? 110)%N then Some 10%N      (* n *)
  else if (esc =? 114)%N then Some 13%N      (* r *)
  else if (esc =? 116)%N then Some 9%N       (* t *)
  else None.

Definition is_high_surrogate (u : N) : bool := ((0xd800 <=? u) && (u <=? 0xdbff))%N.
Definition is_low_surrogate (u : N) : bool := ((0xdc00 <=? u) && (u <=? 0xdfff))%N.

Definition join_surrogates (uni uni2 : N) : N :=
  (0x10000 + N.lor (N.shiftl (uni - 0xd800) 10) (uni2 - 0xdc00))%N.

Definition cons_char (c : N) (r : option (pystr * pystr)) : option (pystr * pystr) :=
  match r with
  | Some (str, rest) => Some (c :: str, rest)
  | None => None
  end.

(** [scanstring(s, end, strict=True)], from just after the opening quote. *)
Fixpoint scanstring (s : pystr) : option (pystr * pystr) :=
  match s with
  | [] => None                                   (* unterminated *)
  | c :: r =>
      if (c =? 34)%N then Some ([], r)
      else if (c =? 92)%N then
        match r with
        | [] => None
        | esc :: r1 =>
            if (esc =? 117)%N then
              match r1 with
              | h1 :: h2 :: h3 :: h4 :: r2 =>
                  match decode_uXXXX h1 h2 h3 h4 with
                  | None => None
                  | Some uni =>
                      if is_high_surrogate uni then
                        match r2 with
                        | b :: u :: k1 :: k2 :: k3 :: k4 :: r3 =>
                            if ((b =? 92) && (u =? 117))%N then
                              match decode_uXXXX k1 k2 k3 k4 with
                              | None => None
                              | Some uni2 =>
                                  if is_low_surrogate uni2
                                  then cons_char (join_surrogates uni uni2) (scanstring r3)
                                  else cons_char uni (scanstring r2)
                              end
                            else cons_char uni (scanstring r2)
                        | _ => cons_char uni (scanstring r2)
                        end
                      else cons_char uni (scanstring r2)
                  end
              | _ => None
              end
            else
              match BACKSLASH esc with
              | Some char => cons_char char (scanstring r1)
              | None => None
              end
        end
      else if (c <? 32)%N then None              (* control character *)
      else cons_char c (scanstring r)
  end.

(** The number pattern: an optional minus sign, then 0 or a digit 1-9
    followed by digits; an optional fraction (a dot and one or more
    digits); an optional exponent (e or E, an optional sign, one or more
    digits). Digits are the ASCII digits. *)
Fixpoint span_digits (s : pystr) : pystr * pystr :=
  match s with
  | c :: r =>
      if is_digit c then let '(ds, r') := span_digits r in (c :: ds, r')
      else ([], s)
  | [] => ([], [])
  end.

Definition match_integer (s : pystr) : option (pystr * pystr) :=
  let '(sign, r) :=
    match s with
    | c :: r => if (c =? 45)%N then ([c], r) else ([], s)
    | [] => ([], s)
    end in
  match r with
  | c :: r' =>
      if (c =? 48)%N then Some (sign ++ [c], r')
      else if is_digit c then
        let '(ds, r'') := span_digits r' in Some (sign ++ c :: ds, r'')
      else None
  | [] => None
  end.

Definition match_frac (s : pystr) : pystr * pystr :=
  match s with
  | c :: r =>
      if (c =? 46)%N then
        match span_digits r with
        | ([], _) => ([], s)
        | (ds, r') => (c :: ds, r')
        end
      else ([], s)
  | [] => ([], s)
  end.

Definition match_exp (s : pystr) : pystr * pystr :=
  match s with
  | c :: r =>
      if ((c =? 101) || (c =? 69))%N then
        let '(sign, r1) :=
          match r with
          | c' :: r1 => if ((c' =? 45) || (c' =? 43))%N then ([c'], r1) else ([], r)
          | [] => ([], r)
          end in
        match span_digits r1 with
        | ([], _) => ([], s)
        | (ds, r2) => (c :: sign ++ ds, r2)
        end
      else ([], s)
  | [] => ([], s)
  end.

Definition match_number (s : pystr) : option (pystr * pystr * pystr * pystr) :=
  match match_integer s with
  | None => None
  | Some (integer, r) =>
      let '(frac, r1) := match_frac r in
      let '(exp, r2) := match_exp r1 in
      Some (integer, frac, exp, r2)
  end.

(** [JSONArray]: the loop over the items, from the first item on. The
    counter [n] bounds the number of iterations; each one reads at least
    one character, so the length of the text is enough. *)
Fixpoint array_loop (scan : pystr -> parse pyval) (n : nat) (s : pystr)
  : parse (list pyval) :=
  match n with
  | O => OutOfFuel
  | S n =>
      match scan s with
      | Parsed value r =>
          match skip_ws r with
          | c :: r1 =>
              if (c =? 93)%N then Parsed [value] r1
              else if (c =? 44)%N then
                match array_loop scan n (skip_ws r1) with
                | Parsed values r2 => Parsed (value :: values) r2
                | Invalid => Invalid
                | OutOfFuel => OutOfFuel
                end
              else Invalid
          | [] => Invalid
          end
      | Invalid => Invalid
      | OutOfFuel => OutOfFuel
      end
  end.

Definition JSONArray (scan : pystr -> parse pyval) (s : pystr) : parse pyval :=
  let s' := skip_ws s in
  let items :=
    match array_loop scan (S (length s')) s' with
    | Parsed values rest => Parsed (PList values) rest
    | Invalid => Invalid
    | OutOfFuel => OutOfFuel
    end in
  match s' with
  | c :: r => if (c =? 93)%N then Parsed (PList []) r else items
  | [] => items
  end.

(** [JSONObject]: the loop over the pairs, from just after the opening
    quote of a key. *)
Fixpoint object_loop (scan : pystr -> parse pyval) (n : nat) (s : pystr)
  : parse (list (pystr * pyval)) :=
  match n with
  | O => OutOfFuel
  | S n =>
      match scanstring s with
      | None => Invalid
      | Some (key, r) =>
          match skip_ws r with
          | c :: r1 =>
              if (c =? 58)%N then
                match scan (skip_ws r1) with
                | Parsed value r2 =>
                    match skip_ws r2 with
                    | c2 :: r3 =>
                        if (c2 =? 125)%N then Parsed [(key, value)] r3
                        else if (c2 =? 44)%N then
                          match skip_ws r3 with
                          | c3 :: r4 =>
                              if (c3 =? 34)%N then
                                match object_loop scan n r4 with
                                | Parsed pairs r5 => Parsed ((key, value) :: pairs) r5
                                | Invalid => Invalid
                                | OutOfFuel => OutOfFuel
                                end
                              else Invalid
                          | [] => Invalid
                          end
                        else Invalid
                    | [] => Invalid
                    end
                | Invalid => Invalid
                | OutOfFuel => OutOfFuel
                end
              else Invalid
          | [] => Invalid
          end
      end
  end.

Definition JSONObject (scan : pystr -> parse pyval) (s : pystr) : parse pyval :=
  match skip_ws s with
  | c :: r =>
      if (c =? 34)%N then
        match object_loop scan (S (length r)) r with
        | Parsed pairs rest => Parsed (PDict (dict_of_pairs pairs)) rest
        | Invalid => Invalid
        | OutOfFuel => OutOfFuel
        end
      else if (c =? 125)%N then Parsed (PDict []) r
      else Invalid
  | [] => Invalid
  end.

(** [scan_once]; [depth] bounds the nesting of arrays and objects. *)
Fixpoint scan_once (depth : nat) (s : pystr) : parse pyval :=
  match depth with
  | O => OutOfFuel
  | S depth =>
      match s with
      | [] => Invalid
      | nextchar :: r =>
          if (nextchar =? 34)%N then
            match scanstring r with
            | Some (str, rest) => Parsed (PStr str) rest
            | None => Invalid
            end
          else if (nextchar =? 123)%N then JSONObject (scan_once depth) r
          else if (nextchar =? 91)%N then JSONArray (scan_once depth) r
          else if startswith s (py "null") then Parsed PNone (drop 4 s)
          else if startswith s (py "true") then Parsed (PBool true) (drop 4 s)
          else if startswith s (py "false") then Parsed (PBool false) (drop 5 s)
          else
            match match_number s with
            | Some (integer, frac, exp, rest) =>
                match frac, exp with
                | [], [] => Parsed (PInt (int_of_str integer)) rest
                | _, _ => Parsed (PFloat (float_of_str (integer ++ frac ++ exp))) rest
                end
            | None =>
                if startswith s (py "NaN") then Parsed (PFloat nan) (drop 3 s)
                else if startswith s (py "Infinity") then Parsed (PFloat infinity) (drop 8 s)
                else if startswith s (py "-Infinity") then Parsed (PFloat neg_infinity) (drop 9 s)
                else Invalid
            end
      end
  end.

(** [json.loads] on the text of the file: no byte-order mark, one value
    between optional whitespace, nothing after it. The nesting depth of a
    text is below its length.

    The interpreter's limits are not part of this decoder: it converts a
    numeral of any length and follows brackets to any depth, where
    CPython raises ValueError (a numeral of more than 4300 digits) or
    RecursionError (nesting beyond the room left on the stack). What is
    stated below about loading a file that the program did not write
    itself is stated for texts [within_limits]. *)
Definition json_loads (s : pystr) : parse pyval :=
  if startswith s [0xfeff%N] then Invalid
  else
    match scan_once (S (length s)) (skip_ws s) with
    | Parsed obj r =>
        match skip_ws r with
        | [] => Parsed obj []
        | _ :: _ => Invalid                      (* extra data *)
        end
    | Invalid => Invalid
    | OutOfFuel => OutOfFuel
    end.

(** ** The interpreter's limits on a text to be loaded

    [int(s)] refuses more than 4300 digits (the default of
    [sys.get_int_max_str_digits()]). The scanner enters one recursive
    call for each array or object inside another; the room for them is
    the recursion limit (1000 by default) less the frames in use, and
    100 levels fit in every default configuration. A text is within the
    limits when no run of digits is longer than 4300 and its brackets,
    outside string literals, nest at most 100 deep. *)

Definition max_str_digits : nat := 4300.
Definition max_nesting : nat := 100.

(** The longest run of consecutive digits; [cur] is the length of the run
    being read, [best] the longest one seen. *)
Fixpoint digit_run (s : pystr) (cur best : nat) : nat :=
  match s with
  | [] => Nat.max cur best
  | c :: r =>
      if is_digit c then digit_run r (S cur) best
      else digit_run r 0 (Nat.max cur best)
  end.

Definition longest_digit_run (s : pystr) : nat := digit_run s 0 0.

(** The deepest nesting of brackets and braces outside string literals;
    [in_string] and [escaped] follow the quotes and backslashes, [cur] is
    the number of brackets open, [best] the largest number seen. *)
Fixpoint nesting (s : pystr) (in_string escaped : bool) (cur best : nat) : nat :=
  match s with
  | [] => best
  | c :: r =>
      if in_string then
        if escaped then nesting r true false cur best
        else if (c =? 92)%N then nesting r true true cur best
        else if (c =? 34)%N then nesting r false false cur best
        else nesting r true false cur best
      else if (c =? 34)%N then nesting r true false cur best
      else if ((c =? 91) || (c =? 123))%N
      then nesting r false false (S cur) (Nat.max (S cur) best)
      else if ((c =? 93) || (c =? 125))%N
      then nesting r false false (Nat.pred cur) best
      else nesting r false false cur best
  end.

Definition bracket_depth (s : pystr) : nat := nesting s false false 0 0.

Definition within_limits (s : pystr) : bool :=
  (longest_digit_run s <=? max_str_digits)%nat
  && (bracket_depth s <=? max_nesting)%nat.

(** ** The session: objects, files and the page being rendered *)

Inductive exn : Type :=
| TypeError | KeyError | AttributeError | IndexError
| JSONDecodeError | OSError.

Inductive file : Type :=
| Text (content : pystr)      (* a readable text file *)
| Unreadable.                 (* exists, but opening or reading it raises *)

Inductive label : Type := AuthorL | YearL | GenreL | ReadL | AddedL.

Inductive sort_option : Type := RecentlyAdded | Title | Author | Year.

(** What the script puts on the page. *)
Inductive element : Type :=
| Success | Warning | Error | Info          (* st.success / warning / error / info *)
| Total (n : nat)                           (* "Total books: n" *)
| Expander (title author : pyval)           (* "title by author" *)
| Field (l : label) (v : pyval).            (* one line inside an expander *)

Record state : Type := State {
  heap : gmap nat pyval;        (* the top-level objects, by reference *)
  library : nat;                (* st.session_state.library *)
  files : gmap (list N) file;   (* the file system, by file name *)
  unwritable : gset (list N);   (* names that cannot be opened for writing *)
  page : list element           (* output of the current run, oldest first *)
}.

Definition set_heap (h : gmap nat pyval) (σ : state) : state :=
  State h (library σ) (files σ) (unwritable σ) (page σ).
Definition set_library (l : nat) (σ : state) : state :=
  State (heap σ) l (files σ) (unwritable σ) (page σ).
Definition set_files (f : gmap (list N) file) (σ : state) : state :=
  State (heap σ) (library σ) f (unwritable σ) (page σ).
Definition set_page (p : list element) (σ : state) : state :=
  State (heap σ) (library σ) (files σ) (unwritable σ) p.

(** The record store: the object the session's [library] refers to. *)
Definition store (σ : state) : option pyval := heap σ !! library σ.

(** Lines 7-8: a new session starts with an empty list. *)
Definition init_state (fs : gmap (list N) file) (ro : gset (list N)) : state :=
  State {[ 0%nat := PList [] ]} 0%nat fs ro [].

(** Outcome of running a piece of the script: normal completion, an
    exception (with the state at the point where it was raised), or an
    input outside what the model covers. *)
Inductive outcome (A : Type) : Type :=
| Ok (a : A) (σ : state)
| Raise (e : exn) (σ : state)
| Unmodelled.
#[global] Arguments Ok {A} a σ.
#[global] Arguments Raise {A} e σ.
#[global] Arguments Unmodelled {A}.

Definition M (A : Type) : Type := state -> outcome A.

Definition ret {A} (a : A) : M A := fun σ => Ok a σ.
Definition raise {A} (e : exn) : M A := fun σ => Raise e σ.
Definition bind {A B} (m : M A) (k : A -> M B) : M B :=
  fun σ =>
    match m σ with
    | Ok a σ' => k a σ'
    | Raise e σ' => Raise e σ'
    | Unmodelled => Unmodelled
    end.

Notation "x <- m ;; k" := (bind m (fun x => k))
  (at level 20, m at level 99, k at level 200, only parsing).
Notation "m ;; k" := (bind m (fun _ => k))
  (at level 100, k at level 200, right associativity, only parsing).

(** [try: body except Exception: handler]. *)
Definition try_except {A} (body : M A) (handler : exn -> M A) : M A :=
  fun σ =>
    match body σ with
    | Raise e σ' => handler e σ'
    | o => o
    end.

Definition emit (e : element) : M unit :=
  fun σ => Ok tt (set_page (page σ ++ [e]) σ).

Definition get_library : M nat := fun σ => Ok (library σ) σ.

(** Reading through a reference; Python has no dangling references. *)
Definition deref (l : nat) : M pyval :=
  fun σ => match heap σ !! l with Some v => Ok v σ | None => Unmodelled end.

Definition assign (l : nat) (v : pyval) : M unit :=
  fun σ => Ok tt (set_heap (<[l := v]> (heap σ)) σ).

(** A new object. *)
Definition alloc (v : pyval) : M nat :=
  fun σ => let l := fresh (dom (heap σ)) in Ok l (set_heap (<[l := v]> (heap σ)) σ).

(** ** Operations of the values *)

(** [o[k]] with a string subscript. *)
Definition getitem (o : pyval) (k : pystr) : M pyval :=
  match o with
  | PDict d => match dict_get d k with Some v => ret v | None => raise KeyError end
  | _ => raise TypeError
  end.

(** [o.lower()]. *)
Definition str_lower (o : pyval) : M pystr :=
  match o with
  | PStr s => ret (lower s)
  | _ => raise AttributeError
  end.

(** The items [for x in o] goes through. *)
Definition iter (o : pyval) : M (list pyval) :=
  match o with
  | PList l => ret l
  | PDict d => ret (List.map (fun kv => PStr (fst kv)) d)
  | PStr s => ret (List.map (fun c => PStr [c]) s)
  | _ => raise TypeError
  end.

(** [len(o)]. *)
Definition len (o : pyval) : M nat :=
  match o with
  | PList l => ret (length l)
  | PDict d => ret (length d)
  | PStr s => ret (length s)
  | _ => raise TypeError
  end.

(** [l.append(x)] on the object at [l]. *)
Definition list_append (l : nat) (x : pyval) : M unit :=
  o <- deref l ;;
  match o with
  | PList items => assign l (PList (items ++ [x]))
  | _ => raise AttributeError
  end.

(** [l.pop(i)]. *)
Definition list_pop (l : nat) (i : nat) : M pyval :=
  o <- deref l ;;
  match o with
  | PList items =>
      match items !! i with
      | Some x => assign l (PList (delete i items)) ;; ret x
      | None => raise IndexError
      end
  | _ => raise AttributeError
  end.

(** [l.copy()]: a new object with the same items. *)
Definition copy (l : nat) : M nat :=
  o <- deref l ;;
  match o with
  | PList items => alloc (PList items)
  | PDict d => alloc (PDict d)
  | _ => raise AttributeError
  end.

Fixpoint map_M {A B} (f : A -> M B) (l : list A) : M (list B) :=
  match l with
  | [] => ret []
  | x :: l' => y <- f x ;; ys <- map_M f l' ;; ret (y :: ys)
  end.

Fixpoint for_each {A} (f : A -> M unit) (l : list A) : M unit :=
  match l with
  | [] => ret tt
  | x :: l' => f x ;; for_each f l'
  end.

(** ** list.sort(key=..., reverse=...)

    The keys are computed first, then the items are put in order with [<]
    on the keys only. The sort is stable, and with [reverse=True] the list
    is reversed before and after, so that items with equal keys stay in
    their original order in both directions. The result is that of the
    stable insertion sort below. *)

Section Sort.
Context {K A : Type} (lt : K -> K -> bool).

Fixpoint insert (x : K * A) (l : list (K * A)) : list (K * A) :=
  match l with
  | [] => [x]
  | y :: l' => if lt (fst y) (fst x) then y :: insert x l' else x :: l
  end.

Fixpoint stable_sort (l : list (K * A)) : list (K * A) :=
  match l with
  | [] => []
  | x :: l' => insert x (stable_sort l')
  end.

Definition sort_by_keys (reverse : bool) (l : list (K * A)) : list (K * A) :=
  if reverse then rev (stable_sort (rev l)) else stable_sort l.

(** The items of [l] ordered by a key computed from each. *)
Definition sorted_by (key : A -> K) (reverse : bool) (l : list A) : list A :=
  List.map snd (sort_by_keys reverse (combine (List.map key l) l)).

(** Keys do not decrease from one pair to the next. *)
Definition nondecreasing (a b : K * A) : Prop := lt (fst b) (fst a) = false.
End Sort.

(** Keys that are all [str] or all [int] are compared as such. Other
  keys (floats, nested lists, mixed types, whose comparisons can raise
  part-way through the sort) are left out of the model. *)
Inductive keys : Type :=
| StrKeys (ks : list pystr)
| IntKeys (ks : list Z)
| OtherKeys.

Fixpoint str_keys (vs : list pyval) : option (list pystr) :=
match vs with
| [] => Some []
| PStr s :: vs' => option_map (cons s) (str_keys vs')
| _ :: _ => None
end.

Fixpoint int_keys (vs : list pyval) : option (list Z) :=
match vs with
| [] => Some []
| PInt z :: vs' => option_map (cons z) (int_keys vs')
| _ :: _ => None
end.

Definition classify_keys (vs : list pyval) : keys :=
match str_keys vs with
| Some ks => StrKeys ks
| None => match int_keys vs with Some ks => IntKeys ks | None => OtherKeys end
end.

Definition list_sort (l : nat) (key : pyval -> M pyval) (reverse : bool) : M unit :=
o <- deref l ;;
match o with
| PList items =>
    ks <- map_M key items ;;
    match classify_keys ks with
    | StrKeys ks =>
        assign l (PList (List.map snd (sort_by_keys str_lt reverse (combine ks items))))
    | IntKeys ks =>
        assign l (PList (List.map snd (sort_by_keys Z.ltb reverse (combine ks items))))
    | OtherKeys => fun _ => Unmodelled
    end
| _ => raise AttributeError
end.

(** ** File handling functions (lines 11-30) *)

(** [open(filename, 'w')]: fails without touching anything, or leaves the
  file empty. The names in [unwritable] are those that cannot be
  written. A save that fails only after the file was opened (a full
  disk, a quota) leaves the file truncated in Python; the model does not
  tell the two failures apart, fails at the opening for both, and
  nothing is stated about the content of a file whose save failed. *)
Definition open_w (filename : pystr) : M unit :=
fun σ =>
  if decide (filename ∈ unwritable σ) then Raise OSError σ
  else Ok tt (set_files (<[filename := Text []]> (files σ)) σ).

(** [json.dump(obj, f)]: the chunks of the encoding go to the file. For a
  name outside [unwritable] the write and the closing go through. *)
Definition json_dump (obj : pyval) (filename : pystr) : M unit :=
fun σ =>
  match files σ !! filename with
  | Some (Text written) =>
      Ok tt (set_files (<[filename := Text (written ++ json_dumps obj)]> (files σ)) σ)
  | _ => Unmodelled
  end.

Definition save_library_to_file (filename : pystr) : M unit :=
try_except
  (open_w filename ;;
   lib <- get_library ;; obj <- deref lib ;;
   json_dump obj filename ;;
   emit Success)
  (fun e => emit Error).

(** [Path(filename).exists()]. *)
Definition exists_ (filename : pystr) : M bool :=
fun σ => Ok (bool_decide (is_Some (files σ !! filename))) σ.

(** [open(filename, 'r')] then [json.load(f)]: the whole text is read and
  decoded; the result is a new object. A file that raises when opened or
  read (a directory, bytes that are not text) is [Unreadable]. The
  ValueError and RecursionError that CPython raises past its limits are
  not among the outcomes: see [within_limits]. *)
Definition json_load (filename : pystr) : M nat :=
fun σ =>
  match files σ !! filename with
  | Some (Text s) =>
      match json_loads s with
      | Parsed obj _ => alloc obj σ
      | Invalid => Raise JSONDecodeError σ
      | OutOfFuel => Unmodelled
      end
  | Some Unreadable => Raise OSError σ
  | None => Raise OSError σ
  end.

Definition load_library_from_file (filename : pystr) : M unit :=
try_except
  (found <- exists_ filename ;;
   if found then
     obj <- json_load filename ;;
     (fun σ => Ok tt (set_library obj σ)) ;;
     emit Success
   else emit Warning)
  (fun e => emit Error).

(** ** Book management functions (lines 33-79) *)

(** [now] is the text of [datetime.now().strftime("%Y-%m-%d %H:%M:%S")]. *)
Definition add_book (title author : pystr) (year : Z) (genre : pystr)
  (read_status : bool) (now : pystr) : M unit :=
let new_book :=
  PDict [(py "title", PStr title);
         (py "author", PStr author);
         (py "year", PInt year);
         (py "genre", PStr genre);
         (py "read_status", PBool read_status);
         (py "added_date", PStr now)] in
lib <- get_library ;;
list_append lib new_book ;;
emit Success.

Fixpoint remove_loop (lib : nat) (title : pystr) (i : nat) (books : list pyval)
: M bool :=
match books with
| [] => ret false
| book :: rest =>
    t <- getitem book (py "title") ;;
    t <- str_lower t ;;
    if decide (t = lower title) then list_pop lib i ;; ret true
    else remove_loop lib title (S i) rest
end.

Definition remove_book (title : pystr) : M unit :=
lib <- get_library ;; o <- deref lib ;; books <- iter o ;;
removed <- remove_loop lib title 0 books ;;
if removed then emit Success else emit Warning.

Fixpoint search_loop (search_term search_by : pystr) (books : list pyval)
: M (list pyval) :=
match books with
| [] => ret []
| book :: rest =>
    v <- getitem book search_by ;;
    hay <- str_lower v ;;
    results <- search_loop search_term search_by rest ;;
    ret (if str_contains (lower search_term) hay then book :: results else results)
end.

Definition search_books (search_term search_by : pystr) : M (list pyval) :=
lib <- get_library ;; o <- deref lib ;; books <- iter o ;;
search_loop search_term search_by books.

(** [sum(1 for book in library if book['read_status'])]. *)
Fixpoint count_read (books : list pyval) : M Z :=
match books with
| [] => ret 0%Z
| book :: rest =>
    r <- getitem book (py "read_status") ;;
    n <- count_read rest ;;
    ret (if truthy r then (1 + n)%Z else n)
end.

(** An [int] as a [float]. For counts below 2^53 (any list that fits in
    memory) the conversion is exact and [a / b] on two ints is the
    binary64 division of the converted operands. *)
Definition float_of_int (z : Z) : float := PrimFloat.of_uint63 (Uint63.of_Z z).

Definition calculate_statistics : M pyval :=
lib <- get_library ;; o <- deref lib ;;
n <- len o ;;
let total_books := Z.of_nat n in
books <- iter o ;;
read_books <- count_read books ;;
ret (PDict
       [(py "total_books", PInt total_books);
        (py "read_books", PInt read_books);
        (py "unread_books", PInt (total_books - read_books));
        (py "read_percentage",
          if (total_books >? 0)%Z
          then PFloat (PrimFloat.mul
                         (PrimFloat.div (float_of_int read_books)
                                        (float_of_int total_books))
                         (float_of_int 100))
          else PInt 0)]).

(** ** The pages (lines 95-213) *)

(** "Add a Book", once the form is submitted (lines 110-114). [year] is
  what [st.number_input] returns: an [int]. *)
Definition add_book_form (title author : pystr) (year : Z) (genre : pystr)
  (read_status : bool) (now : pystr) : M unit :=
if truthy (PStr title) && truthy (PStr author) && truthy (PInt year)
then add_book title author year genre read_status now
else emit Warning.

(** One expander of "View All Books" (lines 165-171). *)
Definition render (book : pyval) : M unit :=
title <- getitem book (py "title") ;;
author <- getitem book (py "author") ;;
emit (Expander title author) ;;
author <- getitem book (py "author") ;;
emit (Field AuthorL author) ;;
year <- getitem book (py "year") ;;
emit (Field YearL year) ;;
genre <- getitem book (py "genre") ;;
emit (Field GenreL genre) ;;
read <- getitem book (py "read_status") ;;
emit (Field ReadL (PStr (if truthy read then py "Yes" else py "No"))) ;;
added <- getitem book (py "added_date") ;;
emit (Field AddedL added).

(** "View All Books" (lines 143-173). *)
Definition view_all_books (sort_by : sort_option) (reverse_sort : bool) : M unit :=
lib <- get_library ;; o <- deref lib ;;
if truthy o then
  n <- len o ;;
  emit (Total n) ;;
  lib <- get_library ;;
  sorted_library <- copy lib ;;
  match sort_by with
  | RecentlyAdded =>
      list_sort sorted_library
        (fun x => getitem x (py "added_date")) (negb reverse_sort)
  | Title =>
      list_sort sorted_library
        (fun x => t <- getitem x (py "title") ;; t <- str_lower t ;; ret (PStr t))
        reverse_sort
  | Author =>
      list_sort sorted_library
        (fun x => t <- getitem x (py "author") ;; t <- str_lower t ;; ret (PStr t))
        reverse_sort
  | Year =>
      list_sort sorted_library (fun x => getitem x (py "year")) reverse_sort
  end ;;
  o <- deref sorted_library ;;
  books <- iter o ;;
  for_each render books
else emit Info.

(** ** Book records

  The record [add_book] builds, as a typed record, and the store made of
  such records. *)

Record book : Type := Book {
title : pystr;
author : pystr;
year : Z;
genre : pystr;
read_status : bool;
added_date : pystr
}.

Definition to_dict (b : book) : pyval :=
PDict [(py "title", PStr (title b));
       (py "author", PStr (author b));
       (py "year", PInt (year b));
       (py "genre", PStr (genre b));
       (py "read_status", PBool (read_status b));
       (py "added_date", PStr (added_date b))].

Definition store_of (bs : list book) : pyval := PList (List.map to_dict bs).

(** What "View All Books" shows for one record. *)
Definition cards (b : book) : list element :=
[Expander (PStr (title b)) (PStr (author b));
 Field AuthorL (PStr (author b));
 Field YearL (PInt (year b));
 Field GenreL (PStr (genre b));
 Field ReadL (PStr (if read_status b then py "Yes" else py "No"));
 Field AddedL (PStr (added_date b))].

(** What "View All Books" shows for the records [out], in this order: the
    total and one expander each, or the "library is empty" notice. *)
Definition listing (out : list book) : list element :=
  match out with
  | [] => [Info]
  | _ :: _ => Total (length out) :: flat_map cards out
  end.

(** The fields a search can be made on. *)
Inductive search_field : Type := ByTitle | ByAuthor | ByGenre.

Definition field_name (f : search_field) : pystr :=
match f with
| ByTitle => py "title"
| ByAuthor => py "author"
| ByGenre => py "genre"
end.

Definition field_value (f : search_field) (b : book) : pystr :=
match f with
| ByTitle => title b
| ByAuthor => author b
| ByGenre => genre b
end.

(** The key each sort option orders the records by: a string or an
  integer. Title and author are compared in lower case. *)
Definition sort_key (o : sort_option) (b : book) : pystr + Z :=
match o with
| RecentlyAdded => inl (added_date b)
| Title => inl (lower (title b))
| Author => inl (lower (author b))
| Year => inr (year b)
end.

Definition key_lt (a b : pystr + Z) : bool :=
match a, b with
| inl x, inl y => str_lt x y
| inr x, inr y => (x <? y)%Z
| _, _ => false
end.

(** [a <= b] on keys: not [b < a]. *)
Definition key_le (a b : pystr + Z) : Prop := key_lt b a = false.

Definition ascending (o : sort_option) (l : list book) : Prop :=
Sorted (fun a b => key_le (sort_key o a) (sort_key o b)) l.

Definition descending (o : sort_option) (l : list book) : Prop :=
Sorted (fun a b => key_le (sort_key o b) (sort_key o a)) l.

(** Records with equal keys are in the same relative order in both lists. *)
Definition same_order_of_ties (o : sort_option) (l1 l2 : list book) : Prop :=
forall k : pystr + Z,
  filter (fun b => sort_key o b = k) l1 = filter (fun b => sort_key o b = k) l2.

(** The order in which the page shows the records of the store. *)
Definition display_order (o : sort_option) (reverse_sort : bool) (bs : list book)
: list book :=
match o with
| RecentlyAdded => sorted_by str_lt added_date (negb reverse_sort) bs
| Title => sorted_by str_lt (fun b => lower (title b)) reverse_sort bs
| Author => sorted_by str_lt (fun b => lower (author b)) reverse_sort bs
| Year => sorted_by Z.ltb year reverse_sort bs
end.


(** ** Values that JSON text represents faithfully

  Code points are below 0x110000 and no high surrogate is directly
  followed by a low surrogate (such a pair is the JSON spelling of one
  character beyond the basic plane); no float; dict keys distinct. *)

Fixpoint no_surrogate_pair (s : pystr) : Prop :=
match s with
| a :: r =>
    match r with
    | b :: _ => is_high_surrogate a && is_low_surrogate b = false
    | [] => True
    end /\ no_surrogate_pair r
| [] => True
end.

Definition valid_str (s : pystr) : Prop :=
Forall (fun c => (c < 0x110000)%N) s /\ no_surrogate_pair s.

Fixpoint json_wf (v : pyval) : Prop :=
match v with
| PNone | PBool _ | PInt _ => True
| PFloat _ => False
| PStr s => valid_str s
| PList l => fold_right (fun x P => json_wf x /\ P) True l
| PDict d =>
    NoDup (List.map fst d) /\
    fold_right (fun kv P => let '(k, x) := kv in valid_str k /\ json_wf x /\ P)
      True d
end.

Definition book_wf (b : book) : Prop :=
valid_str (title b) /\ valid_str (author b) /\
valid_str (genre b) /\ valid_str (added_date b).

(** A record-shaped object for [search_by]: a dict with a string there. *)
Definition has_str_field (search_by : pystr) (v : pyval) : Prop :=
exists d s, v = PDict d /\ dict_get d search_by = Some (PStr s).

(** ** Notions used to reason about the codec *)

(** The text of one pair of an object. *)
Definition pair_text (kv : pystr * pyval) : pystr :=
let '(k, v) := kv in encode_basestring_ascii k ++ [58%N; 32%N] ++ json_dumps v.

(** The text of a value starts with a character that is neither
  whitespace, nor a closing bracket, nor a byte-order mark. *)
Definition head_ok (s : pystr) : Prop :=
match s with
| c :: _ => WHITESPACE_STR c = false /\ c <> 93%N /\ c <> 0xfeff%N
| [] => False
end.

(** Where a number may end in the text json.dump writes: at the end, or
  before a comma or a closing bracket or brace. *)
Definition delimited (rest : pystr) : Prop :=
match rest with
| [] => True
| c :: _ => c = 44%N \/ c = 93%N \/ c = 125%N
end.

(** A numeral that starts with a digit from 1 to 9. *)
Definition nonzero_head (u : Decimal.uint) : Prop :=
match u with
| Decimal.Nil | Decimal.D0 _ => False
| _ => True
end.

(** A scanner reads at least one character of what it is given. *)
Definition consumes (sc : pystr -> parse pyval) : Prop :=
forall s v r, sc s = Parsed v r -> (length r < length s)%nat.

(** ** The "Remove a Book" page (lines 116-124) *)

(** [remove_book(title)] for a [title] that is any object. A string is
  handled as above. Another object fails at [title.lower()], which is
  evaluated when the first item is compared, after
  [book['title'].lower()]; when there is no item the loop body never
  runs and the warning is shown. *)
Definition remove_book_any (title : pyval) : M unit :=
match title with
| PStr t => remove_book t
| _ =>
    lib <- get_library ;; o <- deref lib ;; books <- iter o ;;
    match books with
    | [] => emit Warning
    | book :: _ =>
        t <- getitem book (py "title") ;;
        _ <- str_lower t ;;
        raise AttributeError
    end
end.

(** The page: [selected] is the position of the option chosen in the
  select box (the first one unless the user picks another), [clicked]
  says whether "Remove Book" was pressed in this run. The select box
  returns the chosen element of [book_titles] itself. *)
Definition remove_book_page (selected : nat) (clicked : bool) : M unit :=
lib <- get_library ;; o <- deref lib ;;
if truthy o then
  books <- iter o ;;
  book_titles <- map_M (fun book => getitem book (py "title")) books ;;
  match book_titles !! selected with
  | Some title_to_remove =>
      if clicked then remove_book_any title_to_remove else ret tt
  | None => fun _ => Unmodelled
  end
else emit Info.

(** ** The "Search for Books" page (lines 126-140)

  This page writes lines of its own kind. The model gives what one run
  of the page shows as the list of these lines, in order. *)
Inductive shown : Type :=
| Found (n : nat)                          (* "Found n book(s):" *)
| TitleLine (title author year : pyval)    (* "**title** by author (year)" *)
| GenreLine (genre : pyval) (read : bool)  (* "Genre: genre | Read: " and a mark *)
| Rule                                     (* "---" *)
| NoMatch.                                 (* the warning that nothing matches *)

(** The three lines written for one result (lines 136-138). *)
Definition show_result (book : pyval) : M (list shown) :=
title <- getitem book (py "title") ;;
author <- getitem book (py "author") ;;
year <- getitem book (py "year") ;;
genre <- getitem book (py "genre") ;;
read <- getitem book (py "read_status") ;;
ret [TitleLine title author year; GenreLine genre (truthy read); Rule].

(** [search_by] is the choice of the radio button, [search_term] the
  content of the text input. *)
Definition search_page (search_by search_term : pystr) : M (list shown) :=
if truthy (PStr search_term) then
  results <- search_books search_term search_by ;;
  if truthy (PList results) then
    lines <- map_M show_result results ;;
    ret (Found (length results) :: concat lines)
  else ret [NoMatch]
else ret [].

(** What the page shows for the records found. *)
Definition result_lines (b : book) : list shown :=
[TitleLine (PStr (title b)) (PStr (author b)) (PInt (year b));
 GenreLine (PStr (genre b)) (read_status b);
 Rule].

Definition results_shown (hits : list book) : list shown :=
match hits with
| [] => [NoMatch]
| _ :: _ => Found (length hits) :: flat_map result_lines hits
end.

(** ** Items of a store, one field at a time *)

(** [v[k]] when [v] is a dict that has the key. *)
Definition field (k : pystr) (v : pyval) : option pyval :=
match v with
| PDict d => dict_get d k
| _ => None
end.

(** [v[k]] when it is moreover a string. *)
Definition str_field (k : pystr) (v : pyval) : option pystr :=
match field k v with
| Some (PStr s) => Some s
| _ => None
end.

(** The item counts as read: [if book['read_status']]. *)
Definition counts_as_read (v : pyval) : bool :=
match field (py "read_status") v with
| Some r => truthy r
| None => false
end.

(** The item has a string title that is, or is not, [t] up to case. *)
Definition titled (t : pystr) (v : pyval) : Prop :=
exists s, str_field (py "title") v = Some s /\ lower s = lower t.

Definition titled_otherwise (t : pystr) (v : pyval) : Prop :=
exists s, str_field (py "title") v = Some s /\ lower s <> lower t.

(** ** What a run leaves alone *)

(** The run returned or raised, and the session is as it was. *)
Definition unchanged {A} (σ : state) (o : outcome A) : Prop :=
match o with
| Ok _ σ' | Raise _ σ' => σ' = σ
| Unmodelled => False
end.

(** The run returned or raised, and changed at most the page. *)
Definition page_only {A} (σ : state) (o : outcome A) : Prop :=
match o with
| Ok _ σ' | Raise _ σ' => exists p, σ' = set_page p σ
| Unmodelled => False
end.

(** Whether the run returned or raised, the library is the same object
  with the same content, and the files are as they were. *)
Definition same_store {A} (σ : state) (o : outcome A) : Prop :=
match o with
| Ok _ σ' | Raise _ σ' =>
    library σ' = library σ /\ store σ' = store σ /\
    files σ' = files σ /\ unwritable σ' = unwritable σ
| Unmodelled => True
end.

(** The text of the file, if it is one, is within the limits. *)
Definition file_within_limits (f : option file) : bool :=
match f with
| Some (Text s) => within_limits s
| _ => true
end.

(** ** Text read from a file

  Decoding a file gives code points that are not surrogates. *)
Definition scalar (c : N) : Prop :=
(c < 0xd800)%N \/ (0xdfff < c < 0x110000)%N.

(** No float anywhere in the value. *)
Fixpoint float_free (v : pyval) : bool :=
match v with
| PFloat _ => false
| PList l => forallb float_free l
| PDict d => forallb (fun kv => float_free (snd kv)) d
| _ => true
end.

(** A scanner turns scalar text into values that are faithful unless
  they hold a float, and leaves scalar text. *)
Definition faithful_scanner (sc : pystr -> parse pyval) : Prop :=
forall s v r,
  sc s = Parsed v r -> Forall scalar s ->
  (float_free v = true -> json_wf v) /\ Forall scalar r.

End Program.


(** ** Sample data for the examples

    Lower-casing of the ASCII letters is what [str.lower] does on ASCII
    text. The examples contain no float, so the two float conversions are
    fixed arbitrarily there. *)

Definition ascii_lower (s : pystr) : pystr :=
  List.map (fun c => if ((65 <=? c) && (c <=? 90))%N then (c + 32)%N else c) s.

Definition sample_float_repr (f : float) : pystr := py "0.0".
Definition sample_float_of_str (s : pystr) : float := 0%float.

Definition dune : book :=
  Book (py "Dune") (py "Frank Herbert") 1965 (py "Science Fiction") false
       (py "2024-01-01 10:00:00").

Definition emma : book :=
  Book (py "Emma") (py "Jane Austen") 1815 (py "Romance") true
       (py "2024-01-02 10:00:00").

(** A session whose store holds [bs], with the given files. *)
Definition session (bs : list book) (fs : gmap (list N) file) : state :=
  State {[ 0%nat := store_of bs ]} 0%nat fs ∅ [].

(** A session whose store is any value. *)
Definition session_of (v : pyval) (fs : gmap (list N) file) : state :=
  State {[ 0%nat := v ]} 0%nat fs ∅ [].

(** A store that is not a list of book records. *)
Definition shelf : pyval :=
  PDict [(py "shelf", PList [to_dict dune; PInt 7; PNone; PBool true])].

(** A second record titled Dune, in capitals. *)
Definition dune_again : book :=
  Book (py "DUNE") (py "F. Herbert") 1984 (py "Science Fiction") true
       (py "2024-01-03 10:00:00").

(** * Facts about strings *)

Lemma startswith_spec (a b : list N) :
  startswith b a = true <-> exists post, b = a ++ post.
Proof.
  revert b; induction a as [|x a IH]; intros b.
  - split; [intros _; by exists b | by destruct b].
  - destruct b as [|y b]; simpl.
    + split; [done | intros [post H]; discriminate].
    + rewrite andb_true_iff, N.eqb_eq, IH. split.
      * intros [-> [post ->]]. by exists post.
      * intros [post H]. injection H as -> ->. eauto.
Qed.

Lemma str_contains_spec (a b : list N) :
  str_contains a b = true <-> exists pre post, b = pre ++ a ++ post.
Proof.
  induction b as [|y b IH]; cbn [str_contains].
  - rewrite orb_false_r, startswith_spec. split.
    + intros [post H]. by exists [], post.
    + intros [pre [post H]]. destruct pre; [by exists post | discriminate].
  - rewrite orb_true_iff, startswith_spec, IH. split.
    + intros [[post H] | [pre [post H]]].
      * by exists [], post.
      * exists (y :: pre), post. by rewrite H.
    + intros [pre [post H]]. destruct pre as [|z pre].
      * left. by exists post.
      * right. injection H as _ H. by exists pre, post.
Qed.


Lemma str_lt_irrefl (a : list N) : str_lt a a = false.
Proof.
  induction a as [|x a IH]; simpl; [done|].
  by rewrite N.ltb_irrefl, N.eqb_refl, IH.
Qed.

Lemma str_lt_asym (a b : list N) : str_lt a b = true -> str_lt b a = false.
Proof.
  revert b; induction a as [|x a IH]; intros [|y b]; simpl; try done.
  rewrite orb_true_iff, andb_true_iff, N.ltb_lt, N.eqb_eq.
  intros [Hlt | [-> Hlt]].
  - replace (y <? x)%N with false by (symmetry; apply N.ltb_ge; lia).
    replace (y =? x)%N with false by (symmetry; apply N.eqb_neq; lia). done.
  - by rewrite N.ltb_irrefl, N.eqb_refl, (IH _ Hlt).
Qed.

(** * Facts about the sort *)

Lemma filter_rev {A} (P : A -> Prop) `{forall x, Decision (P x)} (l : list A) :
  filter P (rev l) = rev (filter P l).
Proof.
  induction l as [|x l IH]; simpl; [done|].
  rewrite filter_app, IH, !filter_cons, filter_nil.
  destruct (decide (P x)); simpl; [done | by rewrite app_nil_r].
Qed.

Lemma Sorted_snoc {A} (R : A -> A -> Prop) (l : list A) (x : A) :
  Sorted R l -> (forall y, last l = Some y -> R y x) -> Sorted R (l ++ [x]).
Proof.
  induction 1 as [|a l Hs IH Hhd]; intros Hlast; simpl.
  - repeat constructor.
  - constructor.
    + apply IH. intros y Hy. apply Hlast. destruct l; [done|]. by rewrite last_cons, Hy.
    + destruct l as [|b l]; simpl.
      * constructor. by apply Hlast.
      * constructor. by inversion Hhd.
Qed.

Lemma Sorted_rev {A} (R : A -> A -> Prop) (l : list A) :
  Sorted R l -> Sorted (fun a b => R b a) (rev l).
Proof.
  induction 1 as [|a l Hs IH Hhd]; simpl; [constructor|].
  apply Sorted_snoc; [done|].
  intros y Hy. destruct l as [|b l]; [done|].
  simpl in Hy. rewrite last_snoc in Hy. injection Hy as <-. by inversion Hhd.
Qed.

Section SortFacts.
Context {K A : Type} `{EqDecision K} (lt : K -> K -> bool).
Hypothesis lt_irrefl : forall a, lt a a = false.
Hypothesis lt_asym : forall a b, lt a b = true -> lt b a = false.

Implicit Types (x : K * A) (l : list (K * A)).

Lemma insert_perm x l : Permutation (insert lt x l) (x :: l).
Proof.
  induction l as [|y l IH]; simpl; [done|].
  destruct (lt y.1 x.1); [|done].
  rewrite IH. apply perm_swap.
Qed.

Lemma stable_sort_perm l : Permutation (stable_sort lt l) l.
Proof.
  induction l as [|x l IH]; simpl; [done|].
  by rewrite insert_perm, IH.
Qed.

Lemma sort_by_keys_perm r l : Permutation (sort_by_keys lt r l) l.
Proof.
  destruct r; simpl; [|apply stable_sort_perm].
  rewrite <- Permutation_rev, stable_sort_perm. symmetry. apply Permutation_rev.
Qed.

Lemma insert_HdRel x y l :
  nondecreasing lt y x -> HdRel (nondecreasing lt) y l -> HdRel (nondecreasing lt) y (insert lt x l).
Proof.
  intros Hyx Hl. destruct l as [|z l]; simpl; [by constructor|].
  destruct (lt z.1 x.1); constructor; [by inversion Hl | done].
Qed.

Lemma insert_sorted x l :
  Sorted (nondecreasing lt) l -> Sorted (nondecreasing lt) (insert lt x l).
Proof.
  induction 1 as [|y l Hs IH Hhd]; simpl.
  - repeat constructor.
  - destruct (lt y.1 x.1) eqn:E.
    + constructor; [done|]. apply insert_HdRel; [|done].
      unfold nondecreasing. by apply lt_asym.
    + constructor; [by constructor | by constructor].
Qed.

Lemma stable_sort_sorted l : Sorted (nondecreasing lt) (stable_sort lt l).
Proof.
  induction l as [|x l IH]; simpl; [constructor | by apply insert_sorted].
Qed.

(** Stability: the items of one key keep their order. *)
Lemma insert_filter k x l :
  filter (fun y => y.1 = k) (insert lt x l) = filter (fun y => y.1 = k) (x :: l).
Proof.
  induction l as [|y l IH]; simpl; [done|].
  destruct (lt y.1 x.1) eqn:E; [|done].
  rewrite !filter_cons, IH, !filter_cons.
  destruct (decide (y.1 = k)) as [Hy|Hy], (decide (x.1 = k)) as [Hx|Hx]; try done.
  rewrite Hy, Hx, lt_irrefl in E. done.
Qed.

Lemma stable_sort_filter k l :
  filter (fun y => y.1 = k) (stable_sort lt l) = filter (fun y => y.1 = k) l.
Proof.
  induction l as [|x l IH]; simpl; [done|].
  by rewrite insert_filter, !filter_cons, IH.
Qed.

Lemma sort_by_keys_filter k r l :
  filter (fun y => y.1 = k) (sort_by_keys lt r l) = filter (fun y => y.1 = k) l.
Proof.
  destruct r; simpl; [|apply stable_sort_filter].
  by rewrite filter_rev, stable_sort_filter, filter_rev, rev_involutive.
Qed.
End SortFacts.

Section SortFacts2.
Context {K A B : Type} (lt : K -> K -> bool).

Lemma sort_by_keys_sorted (r : bool) (l : list (K * A)) :
  (forall a b, lt a b = true -> lt b a = false) ->
  Sorted (fun a b : K * A => (if r then lt a.1 b.1 else lt b.1 a.1) = false)
    (sort_by_keys lt r l).
Proof.
  intros Hasym. destruct r; simpl.
  - apply (Sorted_rev (nondecreasing lt)). by apply stable_sort_sorted.
  - by apply stable_sort_sorted.
Qed.

(** The items travel with their keys. *)
Lemma insert_payload (f : A -> B) (x : K * A) (l : list (K * A)) :
  insert lt (x.1, f x.2) (List.map (fun p => (p.1, f p.2)) l)
  = List.map (fun p => (p.1, f p.2)) (insert lt x l).
Proof.
  induction l as [|y l IH]; simpl; [done|].
  destruct (lt y.1 x.1); simpl; [by rewrite IH | done].
Qed.

Lemma stable_sort_payload (f : A -> B) (l : list (K * A)) :
  stable_sort lt (List.map (fun p => (p.1, f p.2)) l)
  = List.map (fun p => (p.1, f p.2)) (stable_sort lt l).
Proof.
  induction l as [|x l IH]; simpl; [done|].
  by rewrite IH, insert_payload.
Qed.

Lemma sort_by_keys_payload (f : A -> B) r (l : list (K * A)) :
  sort_by_keys lt r (List.map (fun p => (p.1, f p.2)) l)
  = List.map (fun p => (p.1, f p.2)) (sort_by_keys lt r l).
Proof.
  destruct r; simpl; [|apply stable_sort_payload].
  by rewrite <- map_rev, stable_sort_payload, map_rev.
Qed.
End SortFacts2.

(** Sorting the items of a list by a key computed from each item. *)
Section SortedBy.
Context {K A : Type} `{EqDecision K} (lt : K -> K -> bool) (key : A -> K).
Hypothesis lt_irrefl : forall a, lt a a = false.
Hypothesis lt_asym : forall a b, lt a b = true -> lt b a = false.

Lemma combine_keys (l : list A) :
  combine (List.map key l) l = List.map (fun a => (key a, a)) l.
Proof. induction l as [|a l IH]; simpl; [done | by rewrite IH]. Qed.

Lemma sorted_by_perm r l : Permutation (sorted_by lt key r l) l.
Proof.
  unfold sorted_by. rewrite sort_by_keys_perm, combine_keys, List.map_map.
  simpl. by rewrite List.map_id.
Qed.

Lemma keyed_sorted r l :
  Forall (fun p : K * A => p.1 = key p.2) (sort_by_keys lt r (combine (List.map key l) l)).
Proof.
  eapply Permutation_Forall; [symmetry; apply sort_by_keys_perm|].
  rewrite combine_keys. apply Forall_forall. intros p Hp.
  apply list_elem_of_In, in_map_iff in Hp. destruct Hp as [a [<- _]]. done.
Qed.

Lemma Sorted_map_snd (R : K -> K -> Prop) (l : list (K * A)) :
  Forall (fun p : K * A => p.1 = key p.2) l ->
  Sorted (fun a b : K * A => R a.1 b.1) l ->
  Sorted (fun a b => R (key a) (key b)) (List.map snd l).
Proof.
  intros Hk Hs. induction Hs as [|p l Hs IH Hhd]; simpl; [constructor|].
  apply Forall_cons in Hk as [Hp Hk]. constructor; [by apply IH|].
  destruct Hhd as [|q l Hpq]; simpl; constructor.
  apply Forall_cons in Hk as [Hq _]. by rewrite <- Hp, <- Hq.
Qed.

Lemma sorted_by_sorted (r : bool) l :
  Sorted (fun a b => (if r then lt (key a) (key b) else lt (key b) (key a)) = false)
    (sorted_by lt key r l).
Proof.
  unfold sorted_by.
  pose proof (keyed_sorted r l) as Hk.
  pose proof (sort_by_keys_sorted lt r (combine (List.map key l) l) lt_asym) as Hs.
  destruct r.
  - by apply (Sorted_map_snd (fun a b => lt a b = false)).
  - by apply (Sorted_map_snd (fun a b => lt b a = false)).
Qed.

Lemma filter_map_snd k (l : list (K * A)) :
  Forall (fun p : K * A => p.1 = key p.2) l ->
  filter (fun a => key a = k) (List.map snd l)
  = List.map snd (filter (fun p => p.1 = k) l).
Proof.
  induction 1 as [|p l Hp Hl IH]; simpl; [done|].
  rewrite !filter_cons, IH.
  destruct (decide (key p.2 = k)) as [Hk|Hk], (decide (p.1 = k)) as [Hk'|Hk'];
    simpl; congruence.
Qed.

Lemma sorted_by_stable k r l :
  filter (fun a => key a = k) (sorted_by lt key r l) = filter (fun a => key a = k) l.
Proof.
  unfold sorted_by.
  rewrite filter_map_snd by apply keyed_sorted.
  rewrite sort_by_keys_filter by done.
  rewrite <- filter_map_snd.
  - by rewrite combine_keys, List.map_map, List.map_id.
  - rewrite combine_keys. apply Forall_forall. intros p Hp.
    apply list_elem_of_In, in_map_iff in Hp. destruct Hp as [a [<- _]]. done.
Qed.
End SortedBy.

(** * The program on a store of book records *)

Ltac munfold :=
  cbv beta iota delta [bind ret raise deref assign alloc emit get_library
                       list_pop list_append copy try_except].

Section Books.
Variable lower : list N -> list N.

Lemma getitem_field (f : search_field) (b : book) (σ : state) :
  getitem (to_dict b) (field_name f) σ = Ok (PStr (field_value f b)) σ.
Proof. by destruct f. Qed.

(** ** remove_book *)

Lemma remove_loop_books (lib : nat) (t : list N) (pre bs : list book) (σ : state) :
  heap σ !! lib = Some (store_of (pre ++ bs)) ->
  (exists l1 b l2,
      bs = l1 ++ b :: l2 /\
      Forall (fun x => lower (title x) <> lower t) l1 /\
      lower (title b) = lower t /\
      remove_loop lower lib t (length pre) (List.map to_dict bs) σ
      = Ok true (set_heap (<[lib := store_of (pre ++ l1 ++ l2)]> (heap σ)) σ))
  \/ (Forall (fun x => lower (title x) <> lower t) bs /\
      remove_loop lower lib t (length pre) (List.map to_dict bs) σ = Ok false σ).
Proof.
  revert pre. induction bs as [|b bs IH]; intros pre Hlib.
  - right. by split.
  - cbn [List.map remove_loop]. munfold. simpl.
    destruct (decide (lower (title b) = lower t)) as [Hb|Hb].
    + left. exists [], b, bs. split_and!; [done..|].
      rewrite Hlib. cbv beta iota delta [store_of].
      assert (List.map to_dict (pre ++ b :: bs) !! length pre = Some (to_dict b)) as ->.
      { rewrite List.map_app. rewrite lookup_app_r by (by rewrite length_map).
        by rewrite length_map, Nat.sub_diag. }
      do 3 f_equal.
      rewrite !List.map_app. cbn [List.map app].
      rewrite <- (length_map to_dict pre) at 1.
      by rewrite delete_middle.
    + specialize (IH (pre ++ [b])). rewrite <- app_assoc in IH. cbn [app] in IH.
      rewrite length_app, Nat.add_1_r in IH.
      destruct (IH Hlib) as [(l1 & b' & l2 & -> & Hl1 & Hb' & Heq) | [Hall Heq]].
      * left. exists (b :: l1), b', l2. split_and!; [done | by constructor | done |].
        rewrite Heq. by rewrite <- (app_assoc pre [b]).
      * right. split; [by constructor | done].
Qed.

(** C5. [remove_book] removes exactly the first record, in store order,
    whose title equals the given one once both are put in lower case;
    the records before and after it stay in place and success is
    reported. When no record matches, the store is left as it was and a
    warning is shown (no exception). *)
Theorem remove_book_first_match (t : list N) (bs : list book) (σ : state) :
  store σ = Some (store_of bs) ->
  (exists l1 b l2,
      bs = l1 ++ b :: l2 /\
      Forall (fun x => lower (title x) <> lower t) l1 /\
      lower (title b) = lower t /\
      remove_book lower t σ
      = Ok tt (set_page (page σ ++ [Success])
                 (set_heap (<[library σ := store_of (l1 ++ l2)]> (heap σ)) σ)))
  \/ (Forall (fun x => lower (title x) <> lower t) bs /\
      remove_book lower t σ = Ok tt (set_page (page σ ++ [Warning]) σ)).
Proof.
  intros Hst. unfold store in Hst.
  destruct (remove_loop_books (library σ) t [] bs σ Hst)
    as [(l1 & b & l2 & -> & Hl1 & Hb & Heq) | [Hall Heq]]; [left | right].
  - exists l1, b, l2. split_and!; [done..|].
    unfold remove_book. munfold. rewrite Hst. munfold. simpl in *. by rewrite Heq.
  - split; [done|].
    unfold remove_book. munfold. rewrite Hst. munfold. simpl in *. by rewrite Heq.
Qed.

(** ** search_books *)


Lemma search_loop_books (term : list N) (f : search_field) (bs : list book) (σ : state) :
  search_loop lower term (field_name f) (List.map to_dict bs) σ
  = Ok (List.map to_dict
          (List.filter (fun b => str_contains (lower term) (lower (field_value f b))) bs)) σ.
Proof.
  induction bs as [|b bs IH]; [done|].
  cbn [List.map search_loop List.filter].
  unfold bind at 1. rewrite getitem_field.
  unfold bind at 1. cbn [str_lower]. unfold ret at 1.
  unfold bind at 1. rewrite IH. unfold ret.
  by destruct (str_contains _ _).
Qed.


(** ** calculate_statistics *)

Lemma count_read_books (bs : list book) (σ : state) :
  count_read (List.map to_dict bs) σ
  = Ok (Z.of_nat (length (List.filter read_status bs))) σ.
Proof.
  induction bs as [|b bs IH]; [done|].
  cbn [List.map count_read List.filter]. munfold. simpl. rewrite IH.
  destruct (read_status b); simpl; [|done]. f_equal. lia.
Qed.

(** C7. On a store of book records, [calculate_statistics] returns the
    number of records, the number of records whose read status is true,
    their difference, and read / total * 100 (in floating point) when
    there is at least one record, the integer 0 otherwise. On the empty
    store all four are 0 and nothing is raised. *)
Theorem calculate_statistics_counts (bs : list book) (σ : state) :
  store σ = Some (store_of bs) ->
  let total := Z.of_nat (length bs) in
  let read := Z.of_nat (length (List.filter read_status bs)) in
  calculate_statistics σ
  = Ok (PDict
          [(py "total_books", PInt total);
           (py "read_books", PInt read);
           (py "unread_books", PInt (total - read));
           (py "read_percentage",
             if (total >? 0)%Z
             then PFloat (PrimFloat.mul
                            (PrimFloat.div (float_of_int read) (float_of_int total))
                            (float_of_int 100))
             else PInt 0)]) σ
  /\ (bs = [] ->
      calculate_statistics σ
      = Ok (PDict
              [(py "total_books", PInt 0);
               (py "read_books", PInt 0);
               (py "unread_books", PInt 0);
               (py "read_percentage", PInt 0)]) σ).
Proof.
  intros Hst total read. unfold store in Hst.
  assert (calculate_statistics σ
          = Ok (PDict
          [(py "total_books", PInt total);
           (py "read_books", PInt read);
           (py "unread_books", PInt (total - read));
           (py "read_percentage",
             if (total >? 0)%Z
             then PFloat (PrimFloat.mul
                            (PrimFloat.div (float_of_int read) (float_of_int total))
                            (float_of_int 100))
             else PInt 0)]) σ) as Hrun.
  { unfold calculate_statistics. munfold. rewrite Hst.
    cbv beta iota delta [store_of len iter]. munfold.
    rewrite count_read_books. by rewrite length_map. }
  split; [done|].
  intros ->. by rewrite Hrun.
Qed.

(** ** add_book *)

Lemma add_book_appends (t a : list N) (y : Z) (g : list N) (r : bool)
    (now : list N) (items : list pyval) (σ : state) :
  store σ = Some (PList items) ->
  add_book t a y g r now σ
  = Ok tt (set_page (page σ ++ [Success])
             (set_heap (<[library σ := PList (items ++ [to_dict (Book t a y g r now)])]>
                          (heap σ)) σ)).
Proof.
  intros Hst. unfold store in Hst. unfold add_book. munfold. by rewrite Hst.
Qed.

(** C4 (as the code has it). A submission of the Add form is turned
    down, with a warning and the store untouched, exactly when the title
    is empty, the author is empty or the year is 0; every other
    submission appends the new record to the store. *)
Theorem add_book_form_accepts_iff (t a : list N) (y : Z) (g : list N) (r : bool)
    (now : list N) (items : list pyval) (σ : state) :
  store σ = Some (PList items) ->
  (t = [] \/ a = [] \/ y = 0%Z ->
   add_book_form t a y g r now σ = Ok tt (set_page (page σ ++ [Warning]) σ))
  /\ (t <> [] -> a <> [] -> y <> 0%Z ->
      add_book_form t a y g r now σ
      = Ok tt (set_page (page σ ++ [Success])
                 (set_heap (<[library σ := PList (items ++ [to_dict (Book t a y g r now)])]>
                              (heap σ)) σ))).
Proof.
  intros Hst. unfold add_book_form. split.
  - intros [-> | [-> | ->]]; simpl.
    + done.
    + by rewrite andb_false_r.
    + by rewrite andb_false_r.
  - intros Ht Ha Hy.
    replace (truthy (PStr t)) with true by (by destruct t).
    replace (truthy (PStr a)) with true by (by destruct a).
    replace (truthy (PInt y)) with true
      by (simpl; symmetry; apply negb_true_iff, Z.eqb_neq; done).
    simpl. by apply add_book_appends.
Qed.

(** ** View All Books *)

Lemma map_M_books (key : pyval -> M pyval) (k : book -> pyval)
    (bs : list book) (σ : state) :
  (forall b σ, key (to_dict b) σ = Ok (k b) σ) ->
  map_M key (List.map to_dict bs) σ = Ok (List.map k bs) σ.
Proof.
  intros Hkey. induction bs as [|b bs IH]; [done|].
  cbn [List.map map_M]. munfold. by rewrite Hkey, IH.
Qed.

Lemma classify_keys_str (ks : list (list N)) :
  classify_keys (List.map PStr ks) = StrKeys ks.
Proof.
  unfold classify_keys.
  assert (str_keys (List.map PStr ks) = Some ks) as ->; [|done].
  induction ks as [|k ks IH]; [done|]. cbn [List.map str_keys]. by rewrite IH.
Qed.

Lemma classify_keys_int (ks : list Z) :
  ks <> [] -> classify_keys (List.map PInt ks) = IntKeys ks.
Proof.
  intros Hne. unfold classify_keys.
  assert (int_keys (List.map PInt ks) = Some ks) as ->.
  { clear Hne. induction ks as [|k ks IH]; [done|].
    cbn [List.map int_keys]. by rewrite IH. }
  by destruct ks.
Qed.

Lemma combine_payload {K A B} (f : A -> B) (ks : list K) (l : list A) :
  combine ks (List.map f l) = List.map (fun p => (p.1, f p.2)) (combine ks l).
Proof.
  revert l. induction ks as [|k ks IH]; intros [|a l]; simpl; [done..|].
  by rewrite IH.
Qed.

Lemma sorted_by_payload {K A B} (lt : K -> K -> bool) (f : A -> B)
    (ks : list K) (r : bool) (l : list A) :
  List.map snd (sort_by_keys lt r (combine ks (List.map f l)))
  = List.map f (List.map snd (sort_by_keys lt r (combine ks l))).
Proof.
  rewrite combine_payload, sort_by_keys_payload, !List.map_map. done.
Qed.

Lemma list_sort_str (l : nat) (key : pyval -> M pyval) (k : book -> list N)
    (r : bool) (bs : list book) (σ : state) :
  heap σ !! l = Some (store_of bs) ->
  (forall b σ, key (to_dict b) σ = Ok (PStr (k b)) σ) ->
  list_sort l key r σ
  = Ok tt (set_heap (<[l := store_of (sorted_by str_lt k r bs)]> (heap σ)) σ).
Proof.
  intros Hl Hkey. unfold list_sort. munfold. rewrite Hl.
  cbv beta iota delta [store_of].
  rewrite (map_M_books key (fun b => PStr (k b))) by done.
  rewrite <- (List.map_map k PStr), classify_keys_str.
  by rewrite sorted_by_payload.
Qed.

Lemma list_sort_int (l : nat) (key : pyval -> M pyval) (k : book -> Z)
    (r : bool) (bs : list book) (σ : state) :
  bs <> [] ->
  heap σ !! l = Some (store_of bs) ->
  (forall b σ, key (to_dict b) σ = Ok (PInt (k b)) σ) ->
  list_sort l key r σ
  = Ok tt (set_heap (<[l := store_of (sorted_by Z.ltb k r bs)]> (heap σ)) σ).
Proof.
  intros Hne Hl Hkey. unfold list_sort. munfold. rewrite Hl.
  cbv beta iota delta [store_of].
  rewrite (map_M_books key (fun b => PInt (k b))) by done.
  rewrite <- (List.map_map k PInt), classify_keys_int by (by destruct bs).
  by rewrite sorted_by_payload.
Qed.

Lemma render_book (b : book) (σ : state) :
  render (to_dict b) σ = Ok tt (set_page (page σ ++ cards b) σ).
Proof.
  unfold render. munfold. simpl. unfold set_page. simpl.
  by rewrite <- !app_assoc.
Qed.

Lemma for_each_render (bs : list book) (σ : state) :
  for_each render (List.map to_dict bs) σ
  = Ok tt (set_page (page σ ++ flat_map cards bs) σ).
Proof.
  revert σ. induction bs as [|b bs IH]; intros σ.
  - simpl. unfold ret, set_page. rewrite app_nil_r. by destruct σ.
  - cbn [List.map for_each flat_map]. munfold. rewrite render_book, IH.
    unfold set_page. simpl. by rewrite <- app_assoc.
Qed.

Lemma view_all_books_books (o : sort_option) (r : bool) (bs : list book) (σ : state) :
  store σ = Some (store_of bs) ->
  bs <> [] ->
  view_all_books lower o r σ
  = Ok tt (set_page
             (page σ ++ Total (length bs) :: flat_map cards (display_order lower o r bs))
             (set_heap (<[fresh (dom (heap σ)) := store_of (display_order lower o r bs)]>
                          (heap σ)) σ)).
Proof.
  intros Hst Hne. unfold store in Hst. unfold view_all_books.
  munfold. rewrite Hst.
  replace (truthy (store_of bs)) with true by (by destruct bs).
  cbv beta iota delta [store_of len]. munfold. simpl heap. simpl library.
  rewrite Hst. cbv beta iota delta [store_of]. munfold.
  destruct o; cbn [display_order];
    [ erewrite list_sort_str | erewrite list_sort_str
    | erewrite list_sort_str | erewrite list_sort_int ];
    try (simpl; by rewrite lookup_insert_eq); try done;
    simpl heap; rewrite lookup_insert_eq, insert_insert_eq;
    cbv beta iota delta [store_of iter]; munfold;
    rewrite for_each_render; simpl; rewrite length_map;
    unfold set_page, set_heap; simpl;
    by rewrite <- app_assoc.
Qed.

Lemma view_all_books_empty (o : sort_option) (r : bool) (σ : state) :
  store σ = Some (store_of []) ->
  view_all_books lower o r σ = Ok tt (set_page (page σ ++ [Info]) σ).
Proof.
  intros Hst. unfold store in Hst. unfold view_all_books. munfold. by rewrite Hst.
Qed.

(** ** The order of the records on the page *)

Lemma display_order_perm (o : sort_option) (r : bool) (bs : list book) :
  Permutation (display_order lower o r bs) bs.
Proof. destruct o; apply sorted_by_perm. Qed.

Lemma display_order_sorted (o : sort_option) (r : bool) (bs : list book) :
  let down := match o with RecentlyAdded => negb r | _ => r end in
  if down then descending lower o (display_order lower o r bs)
  else ascending lower o (display_order lower o r bs).
Proof.
  destruct o; cbn [display_order].
  - pose proof (sorted_by_sorted str_lt added_date str_lt_asym (negb r) bs) as H.
    by destruct (negb r).
  - pose proof (sorted_by_sorted str_lt (fun b => lower (title b)) str_lt_asym r bs) as H.
    by destruct r.
  - pose proof (sorted_by_sorted str_lt (fun b => lower (author b)) str_lt_asym r bs) as H.
    by destruct r.
  - assert (forall a b, (a <? b)%Z = true -> (b <? a)%Z = false) as Hasym by lia.
    pose proof (sorted_by_sorted Z.ltb year Hasym r bs) as H.
    by destruct r.
Qed.

Lemma filter_none {A} (P : A -> Prop) `{forall x, Decision (P x)} (l : list A) :
  (forall x, ~ P x) -> filter P l = [].
Proof.
  intros HP. induction l as [|x l IH]; [done|].
  rewrite filter_cons, IH. by destruct (decide (P x)); [destruct (HP x)|].
Qed.

Lemma display_order_stable (o : sort_option) (r : bool) (bs : list book) :
  same_order_of_ties lower o (display_order lower o r bs) bs.
Proof.
  assert (forall a, (a <? a)%Z = false) as Hirr by lia.
  intros [s|z]; destruct o; cbn [display_order sort_key];
    try (rewrite !filter_none; [done | by intros ? ? ..]).
  - rewrite !(list_filter_iff (fun b => inl (added_date b) = inl s) (fun b => added_date b = s))
      by (intros; split; congruence).
    by apply sorted_by_stable, str_lt_irrefl.
  - rewrite !(list_filter_iff (fun b => inl (lower (title b)) = inl s)
                (fun b => lower (title b) = s))
      by (intros; split; congruence).
    by apply (sorted_by_stable str_lt (fun b => lower (title b))), str_lt_irrefl.
  - rewrite !(list_filter_iff (fun b => inl (lower (author b)) = inl s)
                (fun b => lower (author b) = s))
      by (intros; split; congruence).
    by apply (sorted_by_stable str_lt (fun b => lower (author b))), str_lt_irrefl.
  - rewrite !(list_filter_iff (fun b => inr (year b) = inr z) (fun b => year b = z))
      by (intros; split; congruence).
    by apply sorted_by_stable.
Qed.

Lemma listing_display_order (o : sort_option) (r : bool) (bs : list book) :
  bs <> [] ->
  listing (display_order lower o r bs)
  = Total (length bs) :: flat_map cards (display_order lower o r bs).
Proof.
  intros Hne. pose proof (display_order_perm o r bs) as Hperm.
  destruct (display_order lower o r bs) as [|b out] eqn:E.
  - apply Permutation_nil in Hperm. congruence.
  - unfold listing. by rewrite (Permutation_length Hperm).
Qed.

(** What the page shows for a store of book records. *)
Lemma view_all_books_listing (o : sort_option) (r : bool) (bs : list book) (σ : state) :
  store σ = Some (store_of bs) ->
  exists σ',
    view_all_books lower o r σ = Ok tt σ' /\
    page σ' = page σ ++ listing (display_order lower o r bs).
Proof.
  intros Hst. destruct (decide (bs = [])) as [->|Hne].
  - eexists. split; [by apply view_all_books_empty|].
    by destruct o, r.
  - eexists. split; [by apply view_all_books_books|].
    by rewrite listing_display_order.
Qed.

(** C3 (as the code has it). On a store of book records, "Recently
    Added" shows the records by their [added_date]: newest first
    (descending) when the reverse toggle is off, oldest first (ascending)
    when it is on. *)
Theorem recently_added_newest_first (reverse_sort : bool) (bs : list book) (σ : state) :
  store σ = Some (store_of bs) ->
  exists σ' out,
    view_all_books lower RecentlyAdded reverse_sort σ = Ok tt σ' /\
    page σ' = page σ ++ listing out /\
    Permutation out bs /\
    (reverse_sort = false -> descending lower RecentlyAdded out) /\
    (reverse_sort = true -> ascending lower RecentlyAdded out).
Proof.
  intros Hst.
  destruct (view_all_books_listing RecentlyAdded reverse_sort bs σ Hst) as (σ' & Hrun & Hpage).
  exists σ', (display_order lower RecentlyAdded reverse_sort bs).
  split; [done|]. split; [done|]. split; [apply display_order_perm|].
  pose proof (display_order_sorted RecentlyAdded reverse_sort bs) as Hs.
  split; intros ->; exact Hs.
Qed.

(** C8. "View All Books" sorts a new list: the sorted sequence is a new
    object, at a reference that was free before, and the session's
    [library] still refers to the same object with the same records in
    the same order, whatever the sort option and the toggle. *)
Theorem view_all_books_keeps_store (o : sort_option) (reverse_sort : bool)
    (bs : list book) (σ : state) :
  store σ = Some (store_of bs) ->
  exists σ',
    view_all_books lower o reverse_sort σ = Ok tt σ' /\
    library σ' = library σ /\
    store σ' = Some (store_of bs) /\
    files σ' = files σ /\
    (bs <> [] ->
     exists l out,
       heap σ !! l = None /\
       heap σ' = <[l := store_of out]> (heap σ) /\
       page σ' = page σ ++ listing out).
Proof.
  intros Hst. destruct (decide (bs = [])) as [->|Hne].
  - eexists. split; [by apply view_all_books_empty|]. by split_and!.
  - eexists. split; [by apply view_all_books_books|].
    assert (heap σ !! fresh (dom (heap σ)) = None) as Hfresh
      by apply not_elem_of_dom, is_fresh.
    split_and!; try done.
    + unfold store in *. simpl. rewrite lookup_insert_ne; [done|].
      intros Heq. rewrite Heq in Hfresh. congruence.
    + intros _. eexists _, _. split_and!; [done..|].
      by rewrite listing_display_order.
Qed.

(** C9. On a store of book records, the page shows the same records,
    ordered by the key of the sort option: title and author are compared
    in lower case, added date and year as they are (strings by code
    point, integers by value). Records with equal keys keep the order
    they have in the store, in both directions. *)
Theorem view_all_books_sorted_stable (o : sort_option) (reverse_sort : bool)
    (bs : list book) (σ : state) :
  store σ = Some (store_of bs) ->
  exists σ' out,
    view_all_books lower o reverse_sort σ = Ok tt σ' /\
    page σ' = page σ ++ listing out /\
    Permutation out bs /\
    (ascending lower o out \/ descending lower o out) /\
    (o <> RecentlyAdded ->
     if reverse_sort then descending lower o out else ascending lower o out) /\
    same_order_of_ties lower o out bs.
Proof.
  intros Hst.
  destruct (view_all_books_listing o reverse_sort bs σ Hst) as (σ' & Hrun & Hpage).
  exists σ', (display_order lower o reverse_sort bs).
  split; [done|]. split; [done|]. split; [apply display_order_perm|].
  pose proof (display_order_sorted o reverse_sort bs) as Hs.
  split_and!.
  - cbv zeta in Hs. destruct (match o with RecentlyAdded => _ | _ => _ end); auto.
  - intros Ho. by destruct o.
  - apply display_order_stable.
Qed.
End Books.

(** * The JSON text of a value reads back as the value *)

(** ** Integers *)

Lemma chars_uint_chars (u : Decimal.uint) : chars_uint (uint_chars u) = u.
Proof. induction u; simpl; unfold chars_uint in *; simpl; by f_equal. Qed.

Lemma uint_chars_digits (u : Decimal.uint) : Forall (fun c => is_digit c = true) (uint_chars u).
Proof. induction u; simpl; by constructor. Qed.

Lemma nzhead_head (u : Decimal.uint) :
  Decimal.nzhead u = Decimal.Nil \/ nonzero_head (Decimal.nzhead u).
Proof. induction u; simpl; auto. Qed.

Lemma to_uint_head (p : positive) : nonzero_head (Pos.to_uint p).
Proof.
  pose proof (DecimalPos.Unsigned.to_of (Pos.to_uint p)) as H.
  rewrite DecimalPos.Unsigned.of_to in H. simpl in H.
  pose proof (DecimalPos.Unsigned.to_uint_nonzero p) as Hnz.
  rewrite H in *. unfold Decimal.unorm in *.
  destruct (nzhead_head (Pos.to_uint p)) as [Hnil | Hhd].
  - by rewrite Hnil in Hnz.
  - by destruct (Decimal.nzhead (Pos.to_uint p)).
Qed.

Lemma int_of_str_repr (z : Z) : int_of_str (int_repr z) = z.
Proof.
  rewrite <- (DecimalZ.of_to z) at 2. unfold int_repr, int_of_str.
  destruct (Z.to_int z) as [u|u].
  - destruct u; simpl; try done;
      by rewrite ?(chars_uint_chars u); unfold chars_uint; simpl; rewrite ?(chars_uint_chars u).
  - simpl. by rewrite chars_uint_chars.
Qed.

Lemma span_digits_app (ds rest : list N) :
  Forall (fun c => is_digit c = true) ds ->
  delimited rest ->
  span_digits (ds ++ rest) = (ds, rest).
Proof.
  intros Hds Hrest. induction Hds as [|c ds Hc Hds IH]; simpl.
  - destruct rest as [|c rest]; [done|]. simpl.
    by destruct Hrest as [-> | [-> | ->]].
  - by rewrite Hc, IH.
Qed.

Lemma match_frac_delimited (rest : list N) :
  delimited rest -> match_frac rest = ([], rest).
Proof.
  destruct rest as [|c rest]; [done|]. by intros [-> | [-> | ->]].
Qed.

Lemma match_exp_delimited (rest : list N) :
  delimited rest -> match_exp rest = ([], rest).
Proof.
  destruct rest as [|c rest]; [done|]. by intros [-> | [-> | ->]].
Qed.

Lemma match_integer_uint (u : Decimal.uint) (rest : list N) :
  nonzero_head u ->
  delimited rest ->
  match_integer (uint_chars u ++ rest) = Some (uint_chars u, rest) /\
  match_integer (45%N :: uint_chars u ++ rest) = Some (45%N :: uint_chars u, rest).
Proof.
  intros Hu Hrest.
  destruct u; try done; unfold match_integer; simpl;
    by rewrite span_digits_app by (done || apply uint_chars_digits).
Qed.

Lemma match_number_int (z : Z) (rest : list N) :
  delimited rest ->
  match_number (int_repr z ++ rest) = Some (int_repr z, [], [], rest).
Proof.
  intros Hrest. unfold match_number, int_repr.
  destruct z as [|p|p]; simpl Z.to_int; cbv beta iota.
  - simpl. by rewrite match_frac_delimited, match_exp_delimited.
  - destruct (match_integer_uint (Pos.to_uint p) rest (to_uint_head p) Hrest) as [-> _].
    by rewrite match_frac_delimited, match_exp_delimited.
  - rewrite <- app_comm_cons.
    destruct (match_integer_uint (Pos.to_uint p) rest (to_uint_head p) Hrest) as [_ ->].
    by rewrite match_frac_delimited, match_exp_delimited.
Qed.

(** The first character of a numeral: a minus sign or a digit. *)
Lemma int_repr_head (z : Z) :
  exists c cs, int_repr z = c :: cs /\ (c = 45%N \/ is_digit c = true).
Proof.
  unfold int_repr. destruct z as [|p|p]; simpl.
  - eexists _, _. split; [done|]. by right.
  - pose proof (to_uint_head p) as H.
    destruct (Pos.to_uint p); try done; simpl; eexists _, _; (split; [done|]); by right.
  - eexists _, _. split; [done|]. by left.
Qed.

(** ** Strings *)

(** [lia] with division and remainder by constants. *)
Ltac lia_div := zify; Z.to_euclidean_division_equations; lia.

Lemma hex_value_digit (d : N) : (d < 16)%N -> hex_value (hex_digit d) = Some d.
Proof.
  intros Hd.
  assert (d = 0 \/ d = 1 \/ d = 2 \/ d = 3 \/ d = 4 \/ d = 5 \/ d = 6 \/ d = 7 \/
          d = 8 \/ d = 9 \/ d = 10 \/ d = 11 \/ d = 12 \/ d = 13 \/ d = 14 \/ d = 15)%N
    as H by lia.
  repeat (destruct H as [-> | H]; [done|]). by subst d.
Qed.

Lemma decode_format_04x (n : N) :
  (n < 0x10000)%N ->
  match format_04x n with
  | [h1; h2; h3; h4] => decode_uXXXX h1 h2 h3 h4 = Some n
  | _ => False
  end.
Proof.
  intros Hn. unfold format_04x, decode_uXXXX.
  rewrite !hex_value_digit by lia_div. f_equal. lia_div.
Qed.

Lemma lor_disjoint (a b k : N) :
  (b < 2 ^ k)%N -> N.lor (a * 2 ^ k) b = (a * 2 ^ k + b)%N.
Proof.
  intros Hb.
  assert (N.land (a * 2 ^ k) b = 0%N) as Hland.
  { apply N.bits_inj. intros m. rewrite N.land_spec, N.bits_0.
    destruct (N.ltb_spec m k) as [Hm|Hm].
    - by rewrite N.mul_pow2_bits_low.
    - rewrite andb_false_iff. right.
      destruct (N.eq_dec b 0%N) as [->|Hb0]; [apply N.bits_0|].
      apply N.bits_above_log2.
      apply N.lt_le_trans with k; [|done].
      apply N.log2_lt_pow2; lia. }
  by rewrite <- N.lxor_lor, <- N.add_nocarry_lxor.
Qed.

(** The two halves written for a code point beyond the basic plane. *)
Lemma surrogate_halves (c : N) :
  (0x10000 <= c < 0x110000)%N ->
  let n := (c - 0x10000)%N in
  let s1 := N.lor 0xd800 (N.land (N.shiftr n 10) 0x3ff) in
  let s2 := N.lor 0xdc00 (N.land n 0x3ff) in
  is_high_surrogate s1 = true /\ is_low_surrogate s2 = true /\
  (s1 < 0x10000)%N /\ (s2 < 0x10000)%N /\
  join_surrogates s1 s2 = c.
Proof.
  intros Hc n s1 s2.
  assert (N.land (N.shiftr n 10) 0x3ff = n / 1024)%N as Hhi.
  { change 0x3ff%N with (N.ones 10). rewrite N.land_ones, N.shiftr_div_pow2.
    change (2 ^ 10)%N with 1024%N. subst n. apply N.mod_small. lia_div. }
  assert (N.land n 0x3ff = n mod 1024)%N as Hlo.
  { change 0x3ff%N with (N.ones 10). by rewrite N.land_ones. }
  assert (s1 = 0xd800 + n / 1024)%N as Hs1.
  { subst s1. rewrite Hhi. change 0xd800%N with (54 * 2 ^ 10)%N.
    apply lor_disjoint. change (2 ^ 10)%N with 1024%N. subst n. lia_div. }
  assert (s2 = 0xdc00 + n mod 1024)%N as Hs2.
  { subst s2. rewrite Hlo. change 0xdc00%N with (55 * 2 ^ 10)%N.
    apply lor_disjoint. change (2 ^ 10)%N with 1024%N. lia_div. }
  unfold is_high_surrogate, is_low_surrogate, join_surrogates.
  rewrite Hs1, Hs2. subst n.
  split_and!; try (apply andb_true_iff; split; apply N.leb_le); try lia_div.
  replace (0xd800 + (c - 0x10000) / 1024 - 0xd800)%N with ((c - 0x10000) / 1024)%N by lia_div.
  replace (0xdc00 + (c - 0x10000) mod 1024 - 0xdc00)%N with ((c - 0x10000) mod 1024)%N by lia_div.
  rewrite N.shiftl_mul_pow2, lor_disjoint by (change (2 ^ 10)%N with 1024%N; lia_div).
  change (2 ^ 10)%N with 1024%N. lia_div.
Qed.

Lemma encode_char_cases (c : N) :
  (c < 0x110000)%N ->
  (encode_char c = [c] /\ (32 <= c)%N /\ c <> 34%N /\ c <> 92%N)
  \/ (exists e, encode_char c = [92%N; e] /\ e <> 117%N /\ BACKSLASH e = Some c)
  \/ (encode_char c = 92%N :: 117%N :: format_04x c /\ (c < 0x10000)%N)
  \/ ((0x10000 <= c)%N /\
      encode_char c
      = 92%N :: 117%N ::
        format_04x (N.lor 0xd800 (N.land (N.shiftr (c - 0x10000) 10) 0x3ff)) ++
        92%N :: 117%N :: format_04x (N.lor 0xdc00 (N.land (c - 0x10000) 0x3ff))).
Proof.
  intros Hc. unfold encode_char, ESCAPE_ASCII, replace, ESCAPE_DCT.
  destruct (N.eqb_spec c 92) as [->|H92].
  { right; left. by exists 92%N. }
  destruct (N.eqb_spec c 34) as [->|H34].
  { right; left. by exists 34%N. }
  destruct (N.leb_spec 32 c) as [H32|H32]; cycle 1.
  { cbn [andb negb orb].
    destruct (N.eqb_spec c 8) as [->|H8]; [right; left; by exists 98%N|].
    destruct (N.eqb_spec c 12) as [->|H12]; [right; left; by exists 102%N|].
    destruct (N.eqb_spec c 10) as [->|H10]; [right; left; by exists 110%N|].
    destruct (N.eqb_spec c 13) as [->|H13]; [right; left; by exists 114%N|].
    destruct (N.eqb_spec c 9) as [->|H9]; [right; left; by exists 116%N|].
    replace (c <? 32)%N with true by (symmetry; apply N.ltb_lt; lia).
    right; right; left. split; [done | lia]. }
  destruct (N.leb_spec c 126) as [H126|H126]; cbn [andb negb orb].
  { by left. }
  replace (c =? 8)%N with false by (symmetry; apply N.eqb_neq; lia).
  replace (c =? 12)%N with false by (symmetry; apply N.eqb_neq; lia).
  replace (c =? 10)%N with false by (symmetry; apply N.eqb_neq; lia).
  replace (c =? 13)%N with false by (symmetry; apply N.eqb_neq; lia).
  replace (c =? 9)%N with false by (symmetry; apply N.eqb_neq; lia).
  replace (c <? 32)%N with false by (symmetry; apply N.ltb_ge; lia).
  destruct (N.ltb_spec c 0x10000) as [Hbmp|Hbmp].
  - right; right; left. by split.
  - right; right; right. by split.
Qed.

Lemma decode_format (n : N) :
  (n < 0x10000)%N ->
  decode_uXXXX (hex_digit (n / 4096)) (hex_digit ((n / 256) mod 16))
    (hex_digit ((n / 16) mod 16)) (hex_digit (n mod 16)) = Some n.
Proof. intros Hn. by apply (decode_format_04x n). Qed.

(** What [scanstring] does after a backslash-u escape. *)
Lemma scanstring_u (h1 h2 h3 h4 uni : N) (r2 : list N) :
  decode_uXXXX h1 h2 h3 h4 = Some uni ->
  scanstring (92%N :: 117%N :: h1 :: h2 :: h3 :: h4 :: r2)
  = if is_high_surrogate uni then
      match r2 with
      | b :: u :: k1 :: k2 :: k3 :: k4 :: r3 =>
          if ((b =? 92) && (u =? 117))%N then
            match decode_uXXXX k1 k2 k3 k4 with
            | None => None
            | Some uni2 =>
                if is_low_surrogate uni2
                then cons_char (join_surrogates uni uni2) (scanstring r3)
                else cons_char uni (scanstring r2)
            end
          else cons_char uni (scanstring r2)
      | _ => cons_char uni (scanstring r2)
      end
    else cons_char uni (scanstring r2).
Proof.
  intros H. cbn [scanstring].
  change (92 =? 34)%N with false. change (92 =? 92)%N with true.
  change (117 =? 117)%N with true. cbv beta iota. by rewrite H.
Qed.

(** After a high surrogate, the next escape is looked at; when it is not
    a low surrogate the high one stands alone. *)
Lemma scanstring_u_alone (h1 h2 h3 h4 uni : N) (r2 : list N) :
  decode_uXXXX h1 h2 h3 h4 = Some uni ->
  (is_high_surrogate uni = true ->
   forall k1 k2 k3 k4 r3,
     r2 = 92%N :: 117%N :: k1 :: k2 :: k3 :: k4 :: r3 ->
     exists uni2, decode_uXXXX k1 k2 k3 k4 = Some uni2 /\ is_low_surrogate uni2 = false) ->
  scanstring (92%N :: 117%N :: h1 :: h2 :: h3 :: h4 :: r2) = cons_char uni (scanstring r2).
Proof.
  intros H Hnext. rewrite (scanstring_u _ _ _ _ uni) by done.
  destruct (is_high_surrogate uni); [|done].
  destruct r2 as [|b [|u [|k1 [|k2 [|k3 [|k4 r3]]]]]]; try done.
  destruct ((b =? 92) && (u =? 117))%N eqn:E; [|done].
  apply andb_true_iff in E as [Hb Hu].
  apply N.eqb_eq in Hb as ->. apply N.eqb_eq in Hu as ->.
  destruct (Hnext eq_refl _ _ _ _ _ eq_refl) as [uni2 [-> ->]]. done.
Qed.

(** What the escape at the head of an encoded character decodes to. *)
Lemma encode_char_escape (c : N) (t : list N) (k1 k2 k3 k4 : N) (r3 : list N) :
  (c < 0x110000)%N ->
  encode_char c ++ t = 92%N :: 117%N :: k1 :: k2 :: k3 :: k4 :: r3 ->
  exists uni2, decode_uXXXX k1 k2 k3 k4 = Some uni2 /\
               (uni2 = c \/ is_high_surrogate uni2 = true).
Proof.
  intros Hc Heq.
  destruct (encode_char_cases c Hc)
    as [[E [_ [_ Hne]]] | [[e [E [He _]]] | [[E Hbmp] | [Hsup E]]]]; rewrite E in Heq.
  - simpl in Heq. congruence.
  - simpl in Heq. congruence.
  - unfold format_04x in Heq. simpl in Heq.
    injection Heq as <- <- <- <- _. exists c. split; [by apply decode_format | by left].
  - destruct (surrogate_halves c ltac:(lia)) as (Hhi & _ & Hs1 & _).
    unfold format_04x in Heq. simpl in Heq.
    injection Heq as <- <- <- <- _. eexists. split; [by apply decode_format | by right].
Qed.

Lemma scanstring_encode_char (c : N) (t : list N) :
  (c < 0x110000)%N ->
  (is_high_surrogate c = true ->
   forall k1 k2 k3 k4 r3,
     t = 92%N :: 117%N :: k1 :: k2 :: k3 :: k4 :: r3 ->
     exists uni2, decode_uXXXX k1 k2 k3 k4 = Some uni2 /\ is_low_surrogate uni2 = false) ->
  scanstring (encode_char c ++ t) = cons_char c (scanstring t).
Proof.
  intros Hc Hnext.
  destruct (encode_char_cases c Hc)
    as [[E [H32 [H34 H92]]] | [[e [E [He Hesc]]] | [[E Hbmp] | [Hsup E]]]]; rewrite E.
  - cbn [app scanstring].
    replace (c =? 34)%N with false by (symmetry; by apply N.eqb_neq).
    replace (c =? 92)%N with false by (symmetry; by apply N.eqb_neq).
    by replace (c <? 32)%N with false by (symmetry; apply N.ltb_ge; lia).
  - cbn [app scanstring].
    change (92 =? 34)%N with false. change (92 =? 92)%N with true. cbv beta iota.
    replace (e =? 117)%N with false by (symmetry; by apply N.eqb_neq).
    by rewrite Hesc.
  - unfold format_04x. cbn [app].
    apply scanstring_u_alone; [by apply decode_format | done].
  - destruct (surrogate_halves c ltac:(lia)) as (Hhi & Hlo & Hs1 & Hs2 & Hjoin).
    cbv zeta in Hhi, Hlo, Hs1, Hs2, Hjoin.
    unfold format_04x. cbn [app].
    rewrite (scanstring_u _ _ _ _ _ _ (decode_format _ Hs1)), Hhi.
    change (92 =? 92)%N with true. change (117 =? 117)%N with true. cbv beta iota.
    cbn [andb]. by rewrite (decode_format _ Hs2), Hlo, Hjoin.
Qed.

Lemma scanstring_encoded (s rest : list N) :
  valid_str s ->
  scanstring (flat_map encode_char s ++ 34%N :: rest) = Some (s, rest).
Proof.
  intros [Hcp Hpair]. induction s as [|c s IH]; [done|].
  apply Forall_cons in Hcp as [Hc Hcp]. destruct Hpair as [Hcs Hpair].
  cbn [flat_map]. rewrite <- app_assoc, scanstring_encode_char; [by rewrite IH| done |].
  intros Hhigh k1 k2 k3 k4 r3 Heq.
  destruct s as [|c' s]; [done|].
  apply Forall_cons in Hcp as [Hc' _].
  cbn [flat_map] in Heq. rewrite <- app_assoc in Heq.
  destruct (encode_char_escape _ _ _ _ _ _ _ Hc' Heq) as [uni2 [Hdec [-> | Hhi2]]].
  - exists c'. split; [done|]. rewrite Hhigh in Hcs. done.
  - exists uni2. split; [done|]. unfold is_high_surrogate, is_low_surrogate in *.
    apply andb_true_iff in Hhi2 as [_ Hle]. apply N.leb_le in Hle.
    apply andb_false_iff. left. apply N.leb_gt. lia.
Qed.

(** ** Values *)

Lemma join_cons (sep c : list N) (cs : list (list N)) :
  join sep (c :: cs) = c ++ flat_map (fun x => sep ++ x) cs.
Proof. done. Qed.

Lemma join_length (sep : list N) (chunks : list (list N)) :
  Forall (fun c => c <> []) chunks -> (length chunks <= length (join sep chunks))%nat.
Proof.
  intros H. destruct H as [|c cs Hc Hcs]; [done|].
  rewrite join_cons, length_app. simpl.
  assert (length cs <= length (flat_map (fun x => sep ++ x) cs))%nat.
  { induction Hcs as [|x xs Hx Hxs IH]; [done|].
    simpl. rewrite !length_app. destruct x; [done|]. simpl. lia. }
  destruct c; [done|]. simpl. lia.
Qed.

Lemma dict_set_fresh (d : list (list N * pyval)) (k : list N) (v : pyval) :
  k ∉ List.map fst d -> dict_set d k v = d ++ [(k, v)].
Proof.
  induction d as [|[k' v'] d IH]; intros Hk; [done|].
  simpl in *. apply not_elem_of_cons in Hk as [Hne Hk].
  destruct (decide (k' = k)); [congruence|]. by rewrite IH.
Qed.

Lemma dict_of_pairs_nodup (d : list (list N * pyval)) :
  NoDup (List.map fst d) -> dict_of_pairs d = d.
Proof.
  unfold dict_of_pairs.
  assert (forall acc, NoDup (List.map fst (acc ++ d)) ->
            fold_left (fun a kv => dict_set a kv.1 kv.2) d acc = acc ++ d) as H.
  { induction d as [|[k v] d IH]; intros acc Hnd; simpl.
    - by rewrite app_nil_r.
    - rewrite dict_set_fresh.
      + rewrite IH; rewrite <- app_assoc; done.
      + rewrite List.map_app in Hnd. simpl in Hnd.
        apply NoDup_app in Hnd as (_ & Hdisj & _).
        intros Hin. apply (Hdisj k Hin). by left. }
  intros Hnd. by apply (H []).
Qed.

(** A scanner started on a minus sign or a digit reads a number. *)
Lemma scan_once_number (float_of_str : list N -> float) (d : nat) (c : N) (cs : list N) :
  c = 45%N \/ is_digit c = true ->
  scan_once float_of_str (S d) (c :: cs)
  = match match_number (c :: cs) with
    | Some (integer, frac, exp, rest) =>
        match frac, exp with
        | [], [] => Parsed (PInt (int_of_str integer)) rest
        | _, _ => Parsed (PFloat (float_of_str (integer ++ frac ++ exp))) rest
        end
    | None =>
        if startswith (c :: cs) (py "-Infinity")
        then Parsed (PFloat neg_infinity) (drop 9 (c :: cs))
        else Invalid
    end.
Proof.
  intros [-> | Hc]; [done|].
  unfold is_digit in Hc. apply andb_true_iff in Hc as [H1 H2].
  apply N.leb_le in H1. apply N.leb_le in H2.
  assert (c = 48 \/ c = 49 \/ c = 50 \/ c = 51 \/ c = 52 \/ c = 53 \/ c = 54 \/
          c = 55 \/ c = 56 \/ c = 57)%N as H by lia.
  repeat (destruct H as [-> | H]; [done|]). by subst c.
Qed.

Section Roundtrip.
Variable float_repr : float -> list N.
Variable float_of_str : list N -> float.

Local Abbreviation dumps := (json_dumps float_repr).
Local Abbreviation scan := (scan_once float_of_str).

Lemma dumps_head (v : pyval) : json_wf v -> head_ok (dumps v).
Proof.
  destruct v as [|[]|z|f|s|[|x l]|[|kv d]]; try done.
  intros _. simpl. destruct (int_repr_head z) as (c & cs & -> & [-> | Hc]); [done|].
  unfold is_digit in Hc. apply andb_true_iff in Hc as [H1 H2].
  apply N.leb_le in H1. apply N.leb_le in H2. unfold head_ok, WHITESPACE_STR.
  split; [|lia].
  repeat (apply orb_false_iff; split); apply N.eqb_neq; lia.
Qed.

Lemma head_ok_nonnil (s : list N) : head_ok s -> s <> [].
Proof. by destruct s. Qed.

Lemma skip_ws_head (s rest : list N) : head_ok s -> skip_ws (s ++ rest) = s ++ rest.
Proof. destruct s as [|c s]; [done|]. intros [Hws _]. simpl. by rewrite Hws. Qed.

Lemma skip_ws_comma (t : list N) : skip_ws (44%N :: t) = 44%N :: t.
Proof. done. Qed.

Lemma skip_ws_space (t : list N) : skip_ws (32%N :: t) = skip_ws t.
Proof. done. Qed.

(** The loop of [JSONArray] on the text of the items. *)
Lemma array_loop_items (sc : list N -> parse pyval) (x : pyval) (l : list pyval)
    (rest : list N) (n : nat) :
  Forall (fun y => head_ok (dumps y) /\
                   forall rest', delimited rest' -> sc (dumps y ++ rest') = Parsed y rest')
         (x :: l) ->
  (length (x :: l) <= n)%nat ->
  array_loop sc n (join [44%N; 32%N] (List.map dumps (x :: l)) ++ 93%N :: rest)
  = Parsed (x :: l) rest.
Proof.
  revert x n. induction l as [|y l IH]; intros x n Hall Hn.
  - apply Forall_cons in Hall as [[_ Hx] _].
    destruct n as [|n]; [simpl in Hn; lia|].
    cbn [List.map join flat_map array_loop]. rewrite app_nil_r.
    rewrite Hx by (simpl; auto). done.
  - apply Forall_cons in Hall as [[_ Hx] Hall].
    destruct n as [|n]; [simpl in Hn; lia|].
    specialize (IH y n Hall ltac:(simpl in *; lia)).
    cbn [List.map] in *. rewrite join_cons in *. cbn [flat_map] in *.
    rewrite <- !app_assoc in *. cbn [app] in *.
    cbn [array_loop]. rewrite Hx by (simpl; auto).
    rewrite skip_ws_comma. cbv beta iota.
    change (44 =? 93)%N with false. change (44 =? 44)%N with true. cbv beta iota.
    apply Forall_cons in Hall as [[Hy _] _].
    rewrite skip_ws_space, (skip_ws_head _ _ Hy).
    by rewrite IH.
Qed.

Lemma chunk_le_join (sep : list N) (chunks : list (list N)) :
  Forall (fun c => (length c <= length (join sep chunks))%nat) chunks.
Proof.
  destruct chunks as [|c cs]; [done|].
  rewrite join_cons. constructor; [rewrite length_app; lia|].
  apply Forall_forall. intros c' Hc'. rewrite length_app.
  assert (length c' <= length (flat_map (fun x => sep ++ x) cs))%nat; [|lia].
  induction cs as [|y cs IH]; [by apply elem_of_nil in Hc'|].
  simpl. rewrite !length_app.
  apply elem_of_cons in Hc' as [-> | Hc']; [lia|]. specialize (IH Hc'). lia.
Qed.

Lemma JSONArray_items (sc : list N -> parse pyval) (x : pyval) (l : list pyval)
    (rest : list N) :
  Forall (fun y => head_ok (dumps y) /\
                   forall rest', delimited rest' -> sc (dumps y ++ rest') = Parsed y rest')
         (x :: l) ->
  JSONArray sc (join [44%N; 32%N] (List.map dumps (x :: l)) ++ 93%N :: rest)
  = Parsed (PList (x :: l)) rest.
Proof.
  intros Hall.
  pose proof Hall as Hx. apply Forall_cons in Hx as [[Hx _] _].
  assert (Forall (fun c : list N => c <> []) (List.map dumps (x :: l))) as Hne.
  { apply Forall_forall. intros c Hc. apply list_elem_of_In, in_map_iff in Hc.
    destruct Hc as (y & <- & Hy). apply list_elem_of_In in Hy.
    rewrite Forall_forall in Hall. apply head_ok_nonnil, Hall, Hy. }
  pose proof (join_length [44%N; 32%N] _ Hne) as Hlen. rewrite length_map in Hlen.
  unfold JSONArray.
  assert (skip_ws (join [44%N; 32%N] (List.map dumps (x :: l)) ++ 93%N :: rest)
          = join [44%N; 32%N] (List.map dumps (x :: l)) ++ 93%N :: rest) as ->.
  { cbn [List.map]. rewrite join_cons, <- app_assoc. by apply skip_ws_head. }
  cbv zeta. rewrite array_loop_items; [|done|rewrite length_app; lia].
  cbn [List.map]. rewrite join_cons, <- app_assoc.
  destruct (dumps x) as [|c cs]; [done|]. destruct Hx as [_ [Hc _]].
  cbn [app]. by replace (c =? 93)%N with false by (symmetry; by apply N.eqb_neq).
Qed.

Lemma skip_ws_colon (t : list N) : skip_ws (58%N :: t) = 58%N :: t.
Proof. done. Qed.
Lemma skip_ws_quote (t : list N) : skip_ws (34%N :: t) = 34%N :: t.
Proof. done. Qed.
Lemma skip_ws_brace (t : list N) : skip_ws (125%N :: t) = 125%N :: t.
Proof. done. Qed.

(** The loop of [JSONObject] on the text of the pairs, after the opening
    quote of the first key. *)
Lemma object_loop_pairs (sc : list N -> parse pyval) (k : list N) (v : pyval)
    (d : list (list N * pyval)) (rest : list N) (n : nat) :
  Forall (fun kv => valid_str kv.1 /\ head_ok (dumps kv.2) /\
                    forall rest', delimited rest' ->
                                  sc (dumps kv.2 ++ rest') = Parsed kv.2 rest')
         ((k, v) :: d) ->
  (length ((k, v) :: d) <= n)%nat ->
  object_loop sc n
    (flat_map encode_char k ++ 34%N :: 58%N :: 32%N :: dumps v ++
     flat_map (fun x => [44%N; 32%N] ++ x) (List.map (pair_text float_repr) d) ++ 125%N :: rest)
  = Parsed ((k, v) :: d) rest.
Proof.
  revert k v n. induction d as [|[k' v'] d IH]; intros k v n Hall Hn.
  - apply Forall_cons in Hall as [(Hk & Hv & Hsc) _]. simpl in Hk, Hv, Hsc.
    destruct n as [|n]; [simpl in Hn; lia|].
    cbn [List.map flat_map app object_loop].
    rewrite scanstring_encoded by done.
    rewrite skip_ws_colon. cbv beta iota. change (58 =? 58)%N with true. cbv beta iota.
    rewrite skip_ws_space, (skip_ws_head _ _ Hv), Hsc by (simpl; auto).
    by rewrite skip_ws_brace.
  - apply Forall_cons in Hall as [(Hk & Hv & Hsc) Hall]. simpl in Hk, Hv, Hsc.
    destruct n as [|n]; [simpl in Hn; lia|].
    specialize (IH k' v' n Hall ltac:(simpl in *; lia)).
    cbn [List.map flat_map pair_text] in *. unfold encode_basestring_ascii.
    unfold DQUOTE. rewrite <- !app_assoc. cbn [app].
    cbn [object_loop].
    rewrite scanstring_encoded by done.
    rewrite skip_ws_colon. cbv beta iota. change (58 =? 58)%N with true. cbv beta iota.
    rewrite skip_ws_space, (skip_ws_head _ _ Hv), Hsc by (simpl; auto).
    rewrite skip_ws_comma. cbv beta iota.
    change (44 =? 125)%N with false. change (44 =? 44)%N with true. cbv beta iota.
    rewrite skip_ws_space, skip_ws_quote. cbv beta iota.
    change (34 =? 34)%N with true. cbv beta iota.
    rewrite <- !app_assoc. cbn [app] in *. by rewrite IH.
Qed.

Lemma pair_text_quote (kv : list N * pyval) :
  (pair_text float_repr) kv = 34%N :: flat_map encode_char kv.1 ++ 34%N :: 58%N :: 32%N :: dumps kv.2.
Proof.
  destruct kv as [k v]. unfold pair_text, encode_basestring_ascii, DQUOTE.
  cbn [app fst snd]. by rewrite <- app_assoc.
Qed.

Lemma JSONObject_pairs (sc : list N -> parse pyval) (kv : list N * pyval)
    (d : list (list N * pyval)) (rest : list N) :
  Forall (fun kv => valid_str kv.1 /\ head_ok (dumps kv.2) /\
                    forall rest', delimited rest' ->
                                  sc (dumps kv.2 ++ rest') = Parsed kv.2 rest')
         (kv :: d) ->
  NoDup (List.map fst (kv :: d)) ->
  JSONObject sc (join [44%N; 32%N] (List.map (pair_text float_repr) (kv :: d)) ++ 125%N :: rest)
  = Parsed (PDict (kv :: d)) rest.
Proof.
  intros Hall Hnd. destruct kv as [k v].
  assert (Forall (fun c : list N => c <> []) (List.map (pair_text float_repr) ((k, v) :: d))) as Hne.
  { apply Forall_forall. intros c Hc. apply list_elem_of_In, in_map_iff in Hc.
    destruct Hc as (y & <- & _). by rewrite pair_text_quote. }
  pose proof (join_length [44%N; 32%N] _ Hne) as Hlen. rewrite length_map in Hlen.
  assert (join [44%N; 32%N] (List.map (pair_text float_repr) ((k, v) :: d))
          = 34%N :: flat_map encode_char k ++ 34%N :: 58%N :: 32%N :: dumps v ++
            flat_map (fun x => [44%N; 32%N] ++ x) (List.map (pair_text float_repr) d)) as Hjoin.
  { cbn [List.map]. rewrite join_cons, pair_text_quote. cbn [fst snd app].
    rewrite <- !app_assoc. cbn [app]. done. }
  rewrite Hjoin in *. clear Hjoin Hne.
  cbn [app]. rewrite <- !app_assoc. cbn [app]. rewrite <- !app_assoc.
  unfold JSONObject. rewrite skip_ws_quote.
  change (34 =? 34)%N with true. cbv beta iota.
  rewrite object_loop_pairs; [|done|].
  - by rewrite dict_of_pairs_nodup.
  - cbn [length] in Hlen. rewrite !length_app in *. cbn [length] in *.
    rewrite !length_app in *. cbn [length app] in *. lia.
Qed.

(** The scanner reads the text of a value back as the value. *)
Lemma scan_once_dumps (v : pyval) :
  json_wf v ->
  forall (d : nat) (rest : list N),
    (length (dumps v) <= d)%nat ->
    delimited rest ->
    scan (S d) (dumps v ++ rest) = Parsed v rest.
Proof.
  induction v as [|b|z|f|s|l IH|dct IH] using pyval_nested_ind;
    intros Hwf d rest Hlen Hrest.
  - reflexivity.
  - destruct b; reflexivity.
  - cbn [json_dumps].
    pose proof (match_number_int z rest Hrest) as Hnum.
    pose proof (int_of_str_repr z) as Hint.
    destruct (int_repr_head z) as (c & cs & E & Hc). rewrite E in *.
    cbn [app] in *. rewrite scan_once_number by done.
    by rewrite Hnum, Hint.
  - done.
  - cbn [json_dumps]. unfold encode_basestring_ascii, DQUOTE.
    cbn [app scan_once]. change (34 =? 34)%N with true. cbv beta iota.
    rewrite <- app_assoc. cbn [app]. by rewrite scanstring_encoded.
  - destruct l as [|x l]; [done|].
    assert (json_dumps float_repr (PList (x :: l))
            = 91%N :: join [44%N; 32%N] (List.map dumps (x :: l)) ++ [93%N]) as E by done.
    rewrite E in *. cbn [app scan_once].
    change (91 =? 34)%N with false. change (91 =? 123)%N with false.
    change (91 =? 91)%N with true. cbv beta iota.
    rewrite <- app_assoc. cbn [app].
    apply JSONArray_items.
    pose proof (chunk_le_join [44%N; 32%N] (List.map dumps (x :: l))) as Hchunks.
    rewrite Forall_forall in IH. rewrite Forall_forall in Hchunks.
    apply Forall_forall. intros y Hy.
    assert (json_wf y) as Hy_wf.
    { clear -Hwf Hy. induction (x :: l) as [|a l' IHl]; [by apply elem_of_nil in Hy|].
      destruct Hwf as [Ha Hl']. apply elem_of_cons in Hy as [-> | Hy]; auto. }
    split; [by apply dumps_head|].
    intros rest' Hrest'.
    assert (length (dumps y) <= length (join [44%N; 32%N] (List.map dumps (x :: l))))%nat
      as Hle.
    { apply Hchunks. apply list_elem_of_In, in_map. by apply list_elem_of_In. }
    cbn [length] in Hlen. rewrite length_app in Hlen. cbn [length] in Hlen.
    destruct d as [|d]; [lia|].
    apply IH; [done..|lia|done].
  - destruct dct as [|kv dct]; [done|].
    assert (json_dumps float_repr (PDict (kv :: dct))
            = 123%N :: join [44%N; 32%N] (List.map (pair_text float_repr) (kv :: dct)) ++ [125%N]) as E.
    { done. }
    rewrite E in *. cbn [app scan_once].
    change (123 =? 34)%N with false. change (123 =? 123)%N with true. cbv beta iota.
    rewrite <- app_assoc. cbn [app].
    destruct Hwf as [Hnd Hwf].
    apply JSONObject_pairs; [|done].
    pose proof (chunk_le_join [44%N; 32%N] (List.map (pair_text float_repr) (kv :: dct))) as Hchunks.
    rewrite Forall_forall in IH. rewrite Forall_forall in Hchunks.
    apply Forall_forall. intros y Hy.
    assert (valid_str y.1 /\ json_wf y.2) as [Hk Hy_wf].
    { clear -Hwf Hy. induction (kv :: dct) as [|a l' IHl]; [by apply elem_of_nil in Hy|].
      destruct a as [k' v']. destruct Hwf as (Hk' & Hv' & Hl').
      apply elem_of_cons in Hy as [-> | Hy]; auto. }
    split; [done|]. split; [by apply dumps_head|].
    intros rest' Hrest'.
    assert (length (dumps y.2) <= length (join [44%N; 32%N] (List.map (pair_text float_repr) (kv :: dct))))%nat
      as Hle.
    { etrans; [|apply Hchunks, list_elem_of_In, in_map, list_elem_of_In, Hy].
      rewrite pair_text_quote. simpl. rewrite length_app. simpl. lia. }
    cbn [length] in Hlen. rewrite length_app in Hlen. cbn [length] in Hlen.
    destruct d as [|d]; [lia|].
    apply IH; [done..|lia|done].
Qed.

(** [json.loads] of the text [json.dump] writes gives the value back. *)
Lemma json_loads_dumps (v : pyval) :
  json_wf v -> json_loads float_of_str (dumps v) = Parsed v [].
Proof.
  intros Hwf. unfold json_loads.
  pose proof (dumps_head v Hwf) as Hhd.
  assert (startswith (dumps v) [0xfeff%N] = false) as ->.
  { destruct (dumps v) as [|c cs]; [done|]. destruct Hhd as (_ & _ & Hbom).
    cbn [startswith]. destruct (N.eqb_spec 0xfeff c) as [E|]; [congruence | done]. }
  rewrite <- (app_nil_r (dumps v)) at 2.
  rewrite (skip_ws_head _ _ Hhd).
  rewrite scan_once_dumps; done.
Qed.
End Roundtrip.

(** * The bounds of the decoder are never reached *)

Lemma skip_ws_length (s : list N) : (length (skip_ws s) <= length s)%nat.
Proof.
  induction s as [|c s IH]; simpl; [done|]. destruct (WHITESPACE_STR c); simpl; lia.
Qed.

Lemma span_digits_length (s : list N) : (length (span_digits s).2 <= length s)%nat.
Proof.
  induction s as [|c s IH]; simpl; [done|].
  destruct (is_digit c); [|simpl; lia].
  destruct (span_digits s) as [ds r]. simpl in *. lia.
Qed.

Lemma match_integer_length (s i r : list N) :
  match_integer s = Some (i, r) -> (length r < length s)%nat.
Proof.
  unfold match_integer. intros H.
  destruct s as [|c s]; [done|].
  destruct (c =? 45)%N.
  - destruct s as [|c' s]; [done|].
    destruct (c' =? 48)%N; [simplify_eq/=; lia|].
    destruct (is_digit c'); [|done].
    pose proof (span_digits_length s) as Hs.
    destruct (span_digits s) as [ds r']. simplify_eq/=. lia.
  - destruct (c =? 48)%N; [simplify_eq/=; lia|].
    destruct (is_digit c); [|done].
    pose proof (span_digits_length s) as Hs.
    destruct (span_digits s) as [ds r']. simplify_eq/=. lia.
Qed.

Lemma match_frac_length (s : list N) : (length (match_frac s).2 <= length s)%nat.
Proof.
  unfold match_frac. destruct s as [|c s]; [done|].
  destruct (c =? 46)%N; [|done].
  pose proof (span_digits_length s) as Hs.
  destruct (span_digits s) as [[|d ds] r']; simpl in *; lia.
Qed.

Lemma match_exp_length (s : list N) : (length (match_exp s).2 <= length s)%nat.
Proof.
  unfold match_exp. destruct s as [|c s]; [done|].
  destruct ((c =? 101) || (c =? 69))%N; [|done].
  destruct s as [|c' s].
  - simpl. lia.
  - destruct ((c' =? 45) || (c' =? 43))%N.
    + pose proof (span_digits_length s) as Hs.
      destruct (span_digits s) as [[|d ds] r']; simpl in *; lia.
    + pose proof (span_digits_length (c' :: s)) as Hs.
      destruct (span_digits (c' :: s)) as [[|d ds] r']; simpl in *; lia.
Qed.

Lemma match_number_length (s i f e r : list N) :
  match_number s = Some (i, f, e, r) -> (length r < length s)%nat.
Proof.
  unfold match_number. intros H.
  destruct (match_integer s) as [[i' r0]|] eqn:Hi; [|done].
  apply match_integer_length in Hi.
  pose proof (match_frac_length r0) as Hf. destruct (match_frac r0) as [f' r1].
  pose proof (match_exp_length r1) as He. destruct (match_exp r1) as [e' r2].
  simplify_eq/=. lia.
Qed.

Lemma cons_char_Some (c : N) (o : option (list N * list N)) (str r : list N) :
  cons_char c o = Some (str, r) -> exists str', o = Some (str', r).
Proof. destruct o as [[str' r']|]; [|done]. intros H. simplify_eq/=. eauto. Qed.

Lemma scanstring_length (s str r : list N) :
  scanstring s = Some (str, r) -> (length r < length s)%nat.
Proof.
  revert s str r.
  assert (forall n s str r, (length s <= n)%nat ->
            scanstring s = Some (str, r) -> (length r < length s)%nat) as Haux;
    [|by intros s str r; apply (Haux (length s))].
  induction n as [|n IH]; intros s str r Hle H.
  - destruct s; [done | cbn [length] in Hle; lia].
  - destruct s as [|c s]; [done|]. cbn [scanstring] in H. cbn [length] in Hle.
    assert (forall c' t, (length t <= length s)%nat ->
              cons_char c' (scanstring t) = Some (str, r) ->
              (length r < length (c :: s))%nat) as Hrec.
    { intros c' t Ht Hc. apply cons_char_Some in Hc as [str' Hc].
      apply IH in Hc; cbn [length] in *; lia. }
    destruct (c =? 34)%N; [injection H as _ <-; cbn [length]; lia|].
    destruct (c =? 92)%N.
    + destruct s as [|esc r1]; [done|].
      destruct (esc =? 117)%N.
      * destruct r1 as [|h1 [|h2 [|h3 [|h4 r2]]]]; try done.
        destruct (decode_uXXXX h1 h2 h3 h4) as [uni|]; [|done].
        destruct (is_high_surrogate uni);
          [|apply Hrec in H; [done | cbn [length]; lia]].
        destruct r2 as [|b [|u [|k1 [|k2 [|k3 [|k4 r3]]]]]];
          try (apply Hrec in H; [done | cbn [length]; lia]).
        destruct ((b =? 92) && (u =? 117))%N;
          [|apply Hrec in H; [done | cbn [length]; lia]].
        destruct (decode_uXXXX k1 k2 k3 k4) as [uni2|]; [|done].
        destruct (is_low_surrogate uni2);
          apply Hrec in H; done || (cbn [length]; lia).
      * destruct (BACKSLASH esc); [|done].
        apply Hrec in H; [done | cbn [length]; lia].
    + destruct (c <? 32)%N; [done|]. apply Hrec in H; [done | lia].
Qed.

Section Fuel.
Variable float_of_str : list N -> float.

Lemma array_loop_length (sc : list N -> parse pyval) (n : nat) (s : list N)
    (vs : list pyval) (r : list N) :
  consumes sc -> array_loop sc n s = Parsed vs r -> (length r < length s)%nat.
Proof.
  intros Hsc. revert s vs r. induction n as [|n IH]; intros s vs r H; [done|].
  cbn [array_loop] in H.
  destruct (sc s) as [v r0| |] eqn:Hv; try done. apply Hsc in Hv.
  pose proof (skip_ws_length r0) as Hws.
  destruct (skip_ws r0) as [|c r1]; [done|]. simpl in Hws.
  destruct (c =? 93)%N; [simplify_eq/=; lia|].
  destruct (c =? 44)%N; [|done].
  destruct (array_loop sc n (skip_ws r1)) as [vs' r2| |] eqn:Hloop; try done.
  apply IH in Hloop. pose proof (skip_ws_length r1). simplify_eq/=. lia.
Qed.

Lemma JSONArray_length (sc : list N -> parse pyval) : consumes sc -> consumes (JSONArray sc).
Proof.
  intros Hsc s v r H. unfold JSONArray in H. cbv zeta in H.
  pose proof (skip_ws_length s) as Hws.
  assert (forall v r, match array_loop sc (S (length (skip_ws s))) (skip_ws s) with
                      | Parsed values rest => Parsed (PList values) rest
                      | Invalid => Invalid
                      | OutOfFuel => OutOfFuel
                      end = Parsed v r -> (length r < length s)%nat) as Hitems.
  { intros v' r' H'.
    destruct (array_loop sc _ _) as [vs r0| |] eqn:Hloop; try done.
    apply array_loop_length in Hloop; [|done]. simplify_eq/=. lia. }
  destruct (skip_ws s) as [|c r0] eqn:E; [by apply Hitems in H|].
  destruct (c =? 93)%N; [|by apply Hitems in H].
  simpl in Hws. simplify_eq/=. lia.
Qed.

Lemma object_loop_length (sc : list N -> parse pyval) (n : nat) (s : list N)
    (pairs : list (list N * pyval)) (r : list N) :
  consumes sc -> object_loop sc n s = Parsed pairs r -> (length r < length s)%nat.
Proof.
  intros Hsc. revert s pairs r. induction n as [|n IH]; intros s pairs r H; [done|].
  cbn [object_loop] in H.
  destruct (scanstring s) as [[key r0]|] eqn:Hkey; [|done].
  apply scanstring_length in Hkey.
  pose proof (skip_ws_length r0) as Hws0.
  destruct (skip_ws r0) as [|c r1]; [done|]. simpl in Hws0.
  destruct (c =? 58)%N; [|done].
  pose proof (skip_ws_length r1) as Hws1.
  destruct (sc (skip_ws r1)) as [v r2| |] eqn:Hv; try done. apply Hsc in Hv.
  pose proof (skip_ws_length r2) as Hws2.
  destruct (skip_ws r2) as [|c2 r3]; [done|]. simpl in Hws2.
  destruct (c2 =? 125)%N; [simplify_eq/=; lia|].
  destruct (c2 =? 44)%N; [|done].
  pose proof (skip_ws_length r3) as Hws3.
  destruct (skip_ws r3) as [|c3 r4]; [done|]. simpl in Hws3.
  destruct (c3 =? 34)%N; [|done].
  destruct (object_loop sc n r4) as [pairs' r5| |] eqn:Hloop; try done.
  apply IH in Hloop. simplify_eq/=. lia.
Qed.

Lemma JSONObject_length (sc : list N -> parse pyval) : consumes sc -> consumes (JSONObject sc).
Proof.
  intros Hsc s v r H. unfold JSONObject in H.
  pose proof (skip_ws_length s) as Hws.
  destruct (skip_ws s) as [|c r0]; [done|]. simpl in Hws.
  destruct (c =? 34)%N.
  - destruct (object_loop sc _ r0) as [pairs r1| |] eqn:Hloop; try done.
    apply object_loop_length in Hloop; [|done]. simplify_eq/=. lia.
  - destruct (c =? 125)%N; [|done]. simplify_eq/=. lia.
Qed.

Lemma scan_once_length (d : nat) : consumes (scan_once float_of_str d).
Proof.
  induction d as [|d IH]; intros s v r H; [done|].
  destruct s as [|c s]; [done|]. cbn [scan_once] in H.
  destruct (c =? 34)%N.
  { destruct (scanstring s) as [[str r0]|] eqn:Hs; [|done].
    apply scanstring_length in Hs. simplify_eq/=. lia. }
  destruct (c =? 123)%N.
  { apply JSONObject_length in H; [simpl; lia | done]. }
  destruct (c =? 91)%N.
  { apply JSONArray_length in H; [simpl; lia | done]. }
  destruct (startswith _ (py "null")); [injection H as _ <-; rewrite length_drop; cbn [length]; lia|].
  destruct (startswith _ (py "true")); [injection H as _ <-; rewrite length_drop; cbn [length]; lia|].
  destruct (startswith _ (py "false")); [injection H as _ <-; rewrite length_drop; cbn [length]; lia|].
  destruct (match_number (c :: s)) as [[[[i f] e] r0]|] eqn:Hnum.
  { apply match_number_length in Hnum.
    destruct f, e; simplify_eq/=; lia. }
  destruct (startswith _ (py "NaN")); [injection H as _ <-; rewrite length_drop; cbn [length]; lia|].
  destruct (startswith _ (py "Infinity")); [injection H as _ <-; rewrite length_drop; cbn [length]; lia|].
  destruct (startswith _ (py "-Infinity")); [injection H as _ <-; rewrite length_drop; cbn [length]; lia|].
  done.
Qed.

(** With these counters the loops and the recursion never run out. *)
Lemma array_loop_fuel (sc : list N -> parse pyval) (n : nat) (s : list N) :
  consumes sc ->
  (forall s', length s' <= length s -> sc s' <> OutOfFuel)%nat ->
  (length s < n)%nat ->
  array_loop sc n s <> OutOfFuel.
Proof.
  intros Hsc. revert s. induction n as [|n IH]; intros s Hfuel Hn; [lia|].
  cbn [array_loop].
  destruct (sc s) as [v r0| |] eqn:Hv; [|done|by apply Hfuel in Hv].
  apply Hsc in Hv. pose proof (skip_ws_length r0) as Hws.
  destruct (skip_ws r0) as [|c r1]; [done|]. simpl in Hws.
  destruct (c =? 93)%N; [done|]. destruct (c =? 44)%N; [|done].
  pose proof (skip_ws_length r1) as Hws1.
  specialize (IH (skip_ws r1)).
  destruct (array_loop sc n (skip_ws r1)); try done.
  apply IH; [|lia]. intros s' Hs'. apply Hfuel. lia.
Qed.

Lemma object_loop_fuel (sc : list N -> parse pyval) (n : nat) (s : list N) :
  consumes sc ->
  (forall s', length s' <= length s -> sc s' <> OutOfFuel)%nat ->
  (length s < n)%nat ->
  object_loop sc n s <> OutOfFuel.
Proof.
  intros Hsc. revert s. induction n as [|n IH]; intros s Hfuel Hn; [lia|].
  cbn [object_loop].
  destruct (scanstring s) as [[key r0]|] eqn:Hkey; [|done].
  apply scanstring_length in Hkey.
  pose proof (skip_ws_length r0) as Hws0.
  destruct (skip_ws r0) as [|c r1]; [done|]. simpl in Hws0.
  destruct (c =? 58)%N; [|done].
  pose proof (skip_ws_length r1) as Hws1.
  destruct (sc (skip_ws r1)) as [v r2| |] eqn:Hv; [|done|].
  2:{ apply Hfuel in Hv; [done | lia]. }
  apply Hsc in Hv.
  pose proof (skip_ws_length r2) as Hws2.
  destruct (skip_ws r2) as [|c2 r3]; [done|]. simpl in Hws2.
  destruct (c2 =? 125)%N; [done|].
  destruct (c2 =? 44)%N; [|done].
  pose proof (skip_ws_length r3) as Hws3.
  destruct (skip_ws r3) as [|c3 r4]; [done|]. simpl in Hws3.
  destruct (c3 =? 34)%N; [|done].
  specialize (IH r4).
  destruct (object_loop sc n r4); try done.
  apply IH; [|lia]. intros s' Hs'. apply Hfuel. lia.
Qed.

Lemma scan_once_fuel (d : nat) (s : list N) :
  (length s < d)%nat -> scan_once float_of_str d s <> OutOfFuel.
Proof.
  revert s. induction d as [|d IH]; intros s Hd; [lia|].
  destruct s as [|c s]; [done|]. cbn [scan_once]. simpl in Hd.
  destruct (c =? 34)%N; [by destruct (scanstring s) as [[]|]|].
  destruct (c =? 123)%N.
  { unfold JSONObject. pose proof (skip_ws_length s) as Hws.
    destruct (skip_ws s) as [|c' r0]; [done|]. simpl in Hws.
    destruct (c' =? 34)%N; [|by destruct (c' =? 125)%N].
    assert (object_loop (scan_once float_of_str d) (S (length r0)) r0 <> OutOfFuel)
      as Hne.
    { apply object_loop_fuel; [apply scan_once_length | | lia].
      intros s' Hs'. apply IH. lia. }
    by destruct (object_loop _ _ r0). }
  destruct (c =? 91)%N.
  { unfold JSONArray. cbv zeta. pose proof (skip_ws_length s) as Hws.
    assert (array_loop (scan_once float_of_str d) (S (length (skip_ws s))) (skip_ws s)
            <> OutOfFuel) as Hne.
    { apply array_loop_fuel; [apply scan_once_length | | lia].
      intros s' Hs'. apply IH. lia. }
    destruct (skip_ws s) as [|c' r0].
    - by destruct (array_loop _ _ _).
    - destruct (c' =? 93)%N; [done|]. by destruct (array_loop _ _ _). }
  repeat (case_match; try done).
Qed.

(** [json.loads] always answers: a value or a decoding error. *)
Lemma json_loads_total (s : list N) : json_loads float_of_str s <> OutOfFuel.
Proof.
  unfold json_loads. destruct (startswith s [0xfeff%N]); [done|].
  pose proof (scan_once_fuel (S (length s)) (skip_ws s)) as H.
  pose proof (skip_ws_length s).
  destruct (scan_once _ _ _) as [v r| |]; [by destruct (skip_ws r) | done |].
  apply H. lia.
Qed.

(** What it returns has nothing left to read. *)
Lemma json_loads_rest (s : list N) (v : pyval) (r : list N) :
  json_loads float_of_str s = Parsed v r -> r = [].
Proof.
  unfold json_loads. intros H. repeat (case_match; try done); by simplify_eq.
Qed.
End Fuel.

(** * Saving and loading *)

Section Persistence.
Variable lower : list N -> list N.
Variable float_repr : float -> list N.
Variable float_of_str : list N -> float.

Lemma save_writes (filename : list N) (v : pyval) (σ : state) :
  store σ = Some v ->
  filename ∉ unwritable σ ->
  save_library_to_file float_repr filename σ
  = Ok tt (set_page (page σ ++ [Success])
             (set_files (<[filename := Text (json_dumps float_repr v)]> (files σ)) σ)).
Proof.
  intros Hst Hw. unfold store in Hst.
  unfold save_library_to_file, open_w, json_dump. munfold.
  destruct (decide (filename ∈ unwritable σ)); [done|].
  simpl. rewrite Hst. simpl. rewrite lookup_insert_eq. simpl.
  by rewrite insert_insert_eq.
Qed.

Lemma save_refused (filename : list N) (σ : state) :
  filename ∈ unwritable σ ->
  save_library_to_file float_repr filename σ = Ok tt (set_page (page σ ++ [Error]) σ).
Proof.
  intros Hw. unfold save_library_to_file, open_w. munfold.
  by destruct (decide (filename ∈ unwritable σ)).
Qed.

Lemma load_parsed (filename s : list N) (v : pyval) (r : list N) (σ : state) :
  files σ !! filename = Some (Text s) ->
  json_loads float_of_str s = Parsed v r ->
  load_library_from_file float_of_str filename σ
  = Ok tt (set_page (page σ ++ [Success])
             (set_library (fresh (dom (heap σ)))
                (set_heap (<[fresh (dom (heap σ)) := v]> (heap σ)) σ))).
Proof.
  intros Hf Hv. unfold load_library_from_file, exists_, json_load. munfold.
  rewrite Hf. rewrite bool_decide_eq_true_2 by done. simpl. rewrite Hf. by rewrite Hv.
Qed.

Lemma load_invalid (filename s : list N) (σ : state) :
  files σ !! filename = Some (Text s) ->
  json_loads float_of_str s = Invalid ->
  load_library_from_file float_of_str filename σ
  = Ok tt (set_page (page σ ++ [Error]) σ).
Proof.
  intros Hf Hv. unfold load_library_from_file, exists_, json_load. munfold.
  rewrite Hf. rewrite bool_decide_eq_true_2 by done. simpl. rewrite Hf. by rewrite Hv.
Qed.

Lemma load_missing (filename : list N) (σ : state) :
  files σ !! filename = None ->
  load_library_from_file float_of_str filename σ
  = Ok tt (set_page (page σ ++ [Warning]) σ).
Proof.
  intros Hf. unfold load_library_from_file, exists_, json_load. munfold.
  rewrite Hf. rewrite bool_decide_eq_false_2; [done|]. by intros [? ?].
Qed.

Lemma load_unreadable (filename : list N) (σ : state) :
  files σ !! filename = Some Unreadable ->
  load_library_from_file float_of_str filename σ
  = Ok tt (set_page (page σ ++ [Error]) σ).
Proof.
  intros Hf. unfold load_library_from_file, exists_, json_load. munfold.
  rewrite Hf. rewrite bool_decide_eq_true_2 by done. simpl. by rewrite Hf.
Qed.

(** Saving any faithful value and loading the file gives it back. *)
Lemma save_load_value (filename : list N) (v : pyval) (σ : state) :
  store σ = Some v ->
  json_wf v ->
  filename ∉ unwritable σ ->
  exists σ1 σ2,
    save_library_to_file float_repr filename σ = Ok tt σ1 /\
    load_library_from_file float_of_str filename σ1 = Ok tt σ2 /\
    store σ2 = Some v /\
    page σ2 = page σ ++ [Success; Success].
Proof.
  intros Hst Hwf Hw. eexists _, _.
  split; [by apply save_writes|].
  split.
  - eapply load_parsed; [apply lookup_insert_eq|].
    by apply json_loads_dumps.
  - unfold store. simpl. rewrite lookup_insert_eq. split; [done|].
    by rewrite <- app_assoc.
Qed.

Lemma valid_str_keys :
  Forall valid_str [py "title"; py "author"; py "year"; py "genre";
                    py "read_status"; py "added_date"].
Proof.
  repeat (apply List.Forall_cons; [split; [repeat constructor | by vm_compute]|]).
  constructor.
Qed.

Lemma store_of_wf (bs : list book) : Forall book_wf bs -> json_wf (store_of bs).
Proof.
  induction 1 as [|b bs (Ht & Ha & Hg & Hd) Hbs IH]; [done|].
  split; [|done]. split.
  - cbn [List.map fst to_dict].
    by apply (bool_decide_unpack
                (NoDup [py "title"; py "author"; py "year"; py "genre";
                        py "read_status"; py "added_date"])).
  - pose proof valid_str_keys as Hkeys.
    repeat (apply Forall_cons in Hkeys as [? Hkeys]).
    cbn [fold_right to_dict json_wf]. by split_and!.
Qed.

(** C1. When the store is a list of book records with faithful strings
    and the file can be written, saving the library and then loading the
    same file (nothing else in between) succeeds twice and leaves a
    store with the same records, field for field, in the same order. *)
Theorem save_load_round_trip (filename : list N) (bs : list book) (σ : state) :
  store σ = Some (store_of bs) ->
  Forall book_wf bs ->
  filename ∉ unwritable σ ->
  exists σ1 σ2,
    save_library_to_file float_repr filename σ = Ok tt σ1 /\
    load_library_from_file float_of_str filename σ1 = Ok tt σ2 /\
    store σ2 = Some (store_of bs) /\
    page σ2 = page σ ++ [Success; Success].
Proof.
  intros Hst Hwf Hw. apply save_load_value; [done | by apply store_of_wf | done].
Qed.

(** C2 (as the code has it). For an existing readable file whose text is
    within the interpreter's limits (no run of more than 4300 digits,
    brackets nested at most 100 deep): when the decoder rejects the
    text, an error is shown and the session is left exactly as it was;
    when the decoder accepts it, whatever the shape of the value, the
    load succeeds and the store becomes the decoded value. One of the
    two always happens. (The decoder is CPython's: besides JSON it takes
    the literals NaN, Infinity and -Infinity.) *)
Theorem load_all_or_nothing (filename s : list N) (σ : state) :
  files σ !! filename = Some (Text s) ->
  within_limits s = true ->
  (json_loads float_of_str s = Invalid /\
   load_library_from_file float_of_str filename σ
   = Ok tt (set_page (page σ ++ [Error]) σ))
  \/ (exists v σ',
        json_loads float_of_str s = Parsed v [] /\
        load_library_from_file float_of_str filename σ = Ok tt σ' /\
        store σ' = Some v /\
        page σ' = page σ ++ [Success] /\
        files σ' = files σ).
Proof.
  intros Hf _. destruct (json_loads float_of_str s) as [v r| |] eqn:Hv.
  - right. pose proof (json_loads_rest _ _ _ _ Hv) as ->.
    exists v. eexists. split; [done|]. split; [by eapply load_parsed|].
    unfold store. simpl. by rewrite lookup_insert_eq.
  - left. split; [done|]. by eapply load_invalid.
  - by apply json_loads_total in Hv.
Qed.

(** ** Searching a store that was loaded *)

Lemma search_loop_outcome (term search_by : list N) (items : list pyval) (σ : state) :
  (Forall (has_str_field search_by) items /\
   exists results, search_loop lower term search_by items σ = Ok results σ)
  \/ (~ Forall (has_str_field search_by) items /\
      exists e, search_loop lower term search_by items σ = Raise e σ).
Proof.
  induction items as [|x items IH].
  - left. split; [constructor | by eexists].
  - assert (forall e, getitem x search_by σ = Raise e σ ->
              ~ has_str_field search_by x ->
              ~ Forall (has_str_field search_by) (x :: items) /\
              exists e, search_loop lower term search_by (x :: items) σ = Raise e σ)
      as Hfault.
    { intros e He Hx. split; [by intros [? _]%Forall_cons|].
      exists e. cbn [search_loop]. munfold. by rewrite He. }
    destruct x as [|b|z|f|s|l|d];
      try (right; apply (Hfault TypeError); [done | by intros (? & ? & ? & ?)]).
    destruct (dict_get d search_by) as [v|] eqn:Hget; cycle 1.
    { right. apply (Hfault KeyError); [by simpl; rewrite Hget|].
      intros (d' & s' & [= <-] & Hs). congruence. }
    assert (forall e, str_lower lower v σ = Raise e σ ->
              (forall s, v <> PStr s) ->
              ~ Forall (has_str_field search_by) (PDict d :: items) /\
              exists e, search_loop lower term search_by (PDict d :: items) σ = Raise e σ)
      as Hattr.
    { intros e He Hv. split.
      - intros [(d' & s' & [= <-] & Hs) _]%Forall_cons. rewrite Hs in Hget.
        injection Hget as <-. by apply (Hv s').
      - exists e. cbn [search_loop]. munfold. simpl. rewrite Hget. munfold.
        by rewrite He. }
    destruct v as [|b|z|f|s|l|d'];
      try (right; by apply (Hattr AttributeError)).
    destruct IH as [[Hall [rs Hrs]] | [Hnall [e He]]].
    + left. split; [constructor; [by exists d, s | done]|].
      eexists. cbn [search_loop]. munfold. simpl. rewrite Hget. munfold.
      cbn [str_lower]. munfold. by rewrite Hrs.
    + right. split; [by intros [_ ?]%Forall_cons|].
      exists e. cbn [search_loop]. munfold. simpl. rewrite Hget. munfold.
      cbn [str_lower]. munfold. by rewrite He.
Qed.

(** C10. On a store that is a list, [search_books] returns a result
    exactly when every item is a dict holding a string under the
    searched key; otherwise it raises. Such stores can be loaded: after
    loading the file whose text is [[{}]], any search raises KeyError. *)
Theorem search_books_needs_str_fields (term search_by : list N)
    (items : list pyval) (σ : state) :
  store σ = Some (PList items) ->
  ((exists results, search_books lower term search_by σ = Ok results σ)
   <-> Forall (has_str_field search_by) items)
  /\ (~ Forall (has_str_field search_by) items ->
      exists e, search_books lower term search_by σ = Raise e σ)
  /\ (forall filename σ0,
        files σ0 !! filename = Some (Text (py "[{}]")) ->
        exists σ',
          load_library_from_file float_of_str filename σ0 = Ok tt σ' /\
          search_books lower term search_by σ' = Raise KeyError σ').
Proof.
  intros Hst. unfold store in Hst.
  assert (search_books lower term search_by σ
          = search_loop lower term search_by items σ) as Hrun.
  { unfold search_books. munfold. by rewrite Hst. }
  rewrite Hrun.
  destruct (search_loop_outcome term search_by items σ)
    as [[Hall [rs Hrs]] | [Hnall [e He]]].
  - split_and!; [split; [done | by eexists] | done |].
    intros filename σ0 Hf. eexists. split; [by eapply load_parsed|].
    unfold search_books. munfold. simpl. rewrite lookup_insert_eq. reflexivity.
  - split_and!.
    + split; [|done]. intros [rs Hrs]. congruence.
    + intros _. by exists e.
    + intros filename σ0 Hf. eexists. split; [by eapply load_parsed|].
      unfold search_books. munfold. simpl. rewrite lookup_insert_eq. reflexivity.
Qed.
End Persistence.

(** * Further properties: errors, composition, what stays unchanged *)

Section Files.
Variable lower : list N -> list N.
Variable float_repr : float -> list N.
Variable float_of_str : list N -> float.

(** X1. Saving and then loading gives back any store that JSON text
    represents faithfully, whatever its shape (nested lists and dicts,
    integers, booleans, None, strings), not only a list of book records:
    both steps report success, the store after the load is the value
    that was saved, and the file holds its encoding. *)
Theorem save_load_any_value (filename : list N) (v : pyval) (σ : state) :
  store σ = Some v ->
  json_wf v ->
  filename ∉ unwritable σ ->
  exists σ1 σ2,
    save_library_to_file float_repr filename σ = Ok tt σ1 /\
    load_library_from_file float_of_str filename σ1 = Ok tt σ2 /\
    store σ2 = Some v /\
    files σ2 = <[filename := Text (json_dumps float_repr v)]> (files σ) /\
    page σ2 = page σ ++ [Success; Success].
Proof.
  intros Hst Hwf Hw. eexists _, _.
  split; [by apply save_writes|].
  split.
  - eapply load_parsed; [apply lookup_insert_eq|].
    by apply json_loads_dumps.
  - unfold store. simpl. rewrite lookup_insert_eq. split; [done|]. split; [done|].
    by rewrite <- app_assoc.
Qed.

(** X2. [load_library_from_file] on a file whose text, if it has one,
    is within the interpreter's limits. No exception escapes and no file
    changes. One of three things happens: it reports success and the
    store is the value decoded from the whole text of the file; the file
    is missing, a warning is shown and nothing else changes; the file
    cannot be read or the decoder rejects its text, an error is shown
    and nothing else changes. *)
Theorem load_never_raises (filename : list N) (σ : state) :
  file_within_limits (files σ !! filename) = true ->
  exists σ',
    load_library_from_file float_of_str filename σ = Ok tt σ' /\
    files σ' = files σ /\
    unwritable σ' = unwritable σ /\
    ((exists s v,
        files σ !! filename = Some (Text s) /\
        json_loads float_of_str s = Parsed v [] /\
        store σ' = Some v /\
        page σ' = page σ ++ [Success])
     \/ (files σ !! filename = None /\
         σ' = set_page (page σ ++ [Warning]) σ)
     \/ ((files σ !! filename = Some Unreadable \/
          exists s, files σ !! filename = Some (Text s) /\
                    json_loads float_of_str s = Invalid) /\
         σ' = set_page (page σ ++ [Error]) σ)).
Proof.
  intros _. destruct (files σ !! filename) as [[s|]|] eqn:Hf.
  - destruct (json_loads float_of_str s) as [v r| |] eqn:Hv.
    + pose proof (json_loads_rest _ _ _ _ Hv) as ->.
      eexists. split; [by eapply load_parsed|]. split_and!; [done..|].
      left. exists s, v. split_and!; [done..| |done].
      unfold store. simpl. by rewrite lookup_insert_eq.
    + eexists. split; [by eapply load_invalid|]. split_and!; [done..|].
      right; right. split; [|done]. right. by exists s.
    + by apply json_loads_total in Hv.
  - eexists. split; [by eapply load_unreadable|]. split_and!; [done..|].
    right; right. split; [by left | done].
  - eexists. split; [by eapply load_missing|]. split_and!; [done..|].
    right; left. done.
Qed.

(** X3. [save_library_to_file] lets no exception escape and leaves the
    store and every other file alone. When the file cannot be written an
    error is shown; otherwise success is reported and the file holds
    exactly the encoding of the store, whatever it held before. Nothing
    is said of the content of a file whose save failed. *)
Theorem save_replaces_file (filename : list N) (v : pyval) (σ : state) :
  store σ = Some v ->
  exists σ',
    save_library_to_file float_repr filename σ = Ok tt σ' /\
    heap σ' = heap σ /\ library σ' = library σ /\
    (forall other, other <> filename -> files σ' !! other = files σ !! other) /\
    ((filename ∈ unwritable σ /\ page σ' = page σ ++ [Error])
     \/ ((filename ∉ unwritable σ) /\
         files σ' !! filename = Some (Text (json_dumps float_repr v)) /\
         page σ' = page σ ++ [Success])).
Proof.
  intros Hst. destruct (decide (filename ∈ unwritable σ)) as [Hw|Hw].
  - eexists. split; [by apply save_refused|]. split_and!; [done..|]. by left.
  - eexists. split; [by apply save_writes|]. split_and!; [done..| |].
    + intros other Hne. simpl. by rewrite lookup_insert_ne.
    + right. split_and!; [done| |done]. simpl. by rewrite lookup_insert_eq.
Qed.

End Files.

Section AfterAdding.
Variable lower : list N -> list N.
Variable float_repr : float -> list N.
Variable float_of_str : list N -> float.

Lemma str_contains_refl (s : list N) : str_contains s s = true.
Proof. apply str_contains_spec. exists [], []. by rewrite app_nil_r. Qed.

Lemma remove_book_run (t : list N) (items : list pyval) (σ : state) :
  store σ = Some (PList items) ->
  remove_book lower t σ
  = match remove_loop lower (library σ) t 0 items σ with
    | Ok removed σ' =>
        Ok tt (set_page (page σ' ++ [if removed then Success else Warning]) σ')
    | Raise e σ' => Raise e σ'
    | Unmodelled => Unmodelled
    end.
Proof.
  intros Hst. unfold store in Hst. unfold remove_book. munfold. rewrite Hst.
  cbv beta iota delta [iter]. munfold.
  by destruct (remove_loop _ _ _ _ _ _) as [[] ?| |].
Qed.

(** The session right after [add_book] on a store of records. *)
Lemma add_book_books (t a : list N) (y : Z) (g : list N) (r : bool)
    (now : list N) (bs : list book) (σ : state) :
  store σ = Some (store_of bs) ->
  exists σ1,
    add_book t a y g r now σ = Ok tt σ1 /\
    store σ1 = Some (store_of (bs ++ [Book t a y g r now])) /\
    library σ1 = library σ /\ files σ1 = files σ /\
    unwritable σ1 = unwritable σ /\
    page σ1 = page σ ++ [Success].
Proof.
  intros Hst. eexists. split; [by apply add_book_appends|].
  unfold store, store_of. simpl. rewrite lookup_insert_eq.
  by rewrite List.map_app.
Qed.

(** X4. Loading a file whose text is within the interpreter's limits and
    whose value is not an array succeeds, and from then on [add_book]
    raises AttributeError (the store has no [append]) and leaves the
    session as the load left it. *)
Theorem add_book_needs_list (t a : list N) (y : Z) (g : list N) (r : bool)
    (now filename s : list N) (v : pyval) (σ : state) :
  files σ !! filename = Some (Text s) ->
  within_limits s = true ->
  json_loads float_of_str s = Parsed v [] ->
  (forall items, v <> PList items) ->
  exists σ',
    load_library_from_file float_of_str filename σ = Ok tt σ' /\
    store σ' = Some v /\
    add_book t a y g r now σ' = Raise AttributeError σ'.
Proof.
  intros Hf _ Hv Hnl. eexists. split; [by eapply load_parsed|].
  unfold store, add_book. munfold. simpl. rewrite lookup_insert_eq.
  split; [done|]. destruct v; try done. by destruct (Hnl l).
Qed.

(** X5. Adding a book and then removing by the same title both
    succeed. When no record of the store had that title (up to letter
    case) the store is back to what it was; when one had, it is the
    first such earlier record that is removed, and the record just added
    stays, at the end. *)
Theorem add_then_remove (t a : list N) (y : Z) (g : list N) (r : bool)
    (now : list N) (bs : list book) (σ : state) :
  store σ = Some (store_of bs) ->
  exists σ1 σ2,
    add_book t a y g r now σ = Ok tt σ1 /\
    remove_book lower t σ1 = Ok tt σ2 /\
    library σ2 = library σ /\
    page σ2 = page σ ++ [Success; Success] /\
    ((Forall (fun x => lower (title x) <> lower t) bs /\
      store σ2 = Some (store_of bs))
     \/ (exists l1 b l2,
           bs = l1 ++ b :: l2 /\
           Forall (fun x => lower (title x) <> lower t) l1 /\
           lower (title b) = lower t /\
           store σ2 = Some (store_of (l1 ++ l2 ++ [Book t a y g r now])))).
Proof.
  intros Hst.
  destruct (add_book_books t a y g r now bs σ Hst)
    as (σ1 & Hadd & Hst1 & Hlib & _ & _ & Hpage).
  exists σ1. rewrite (remove_book_run t _ σ1 Hst1).
  unfold store in Hst1.
  destruct (remove_loop_books lower (library σ1) t [] _ σ1 Hst1)
    as [(l1 & b & l2 & Hbs & Hl1 & Hb & Hrun) | [Hall Hrun]].
  - simpl in Hrun. rewrite Hrun. eexists. split; [exact Hadd|].
    split; [reflexivity|]. split; [done|].
    split; [simpl; by rewrite Hpage, <- app_assoc|].
    unfold store. simpl. rewrite lookup_insert_eq.
    destruct l2 as [|z l2 _] using rev_ind.
    + left. apply app_inj_tail in Hbs as [<- <-].
      split; [done|]. by rewrite app_nil_r.
    + right.
      replace (l1 ++ b :: l2 ++ [z]) with ((l1 ++ b :: l2) ++ [z]) in *
        by (by rewrite <- app_assoc).
      apply app_inj_tail in Hbs as [Hbs <-].
      exists l1, b, l2. split_and!; [done..|]. done.
  - apply Forall_app in Hall as [_ Hnew]. apply Forall_inv in Hnew. done.
Qed.

(** X6. After [add_book], a search returns what it returned before,
    followed by the new record when the new record matches; a search for
    the new record's own field value always returns the new record, last. *)
Theorem add_then_search (t a : list N) (y : Z) (g : list N) (r : bool)
    (now term : list N) (f : search_field) (bs : list book) (σ : state) :
  store σ = Some (store_of bs) ->
  let new := Book t a y g r now in
  let hit := fun b => str_contains (lower term) (lower (field_value f b)) in
  exists σ1,
    add_book t a y g r now σ = Ok tt σ1 /\
    search_books lower term (field_name f) σ1
    = Ok (List.map to_dict (List.filter hit bs ++ if hit new then [new] else [])) σ1 /\
    search_books lower (field_value f new) (field_name f) σ1
    = Ok (List.map to_dict
            (List.filter
               (fun b => str_contains (lower (field_value f new)) (lower (field_value f b)))
               bs ++ [new])) σ1.
Proof.
  intros Hst new hit.
  destruct (add_book_books t a y g r now bs σ Hst)
    as (σ1 & Hadd & Hst1 & _).
  exists σ1. split; [done|].
  assert (forall term', search_books lower term' (field_name f) σ1
          = Ok (List.map to_dict
                  (List.filter
                     (fun b => str_contains (lower term') (lower (field_value f b)))
                     (bs ++ [new]))) σ1) as Hrun.
  { intros term'. unfold store in Hst1. unfold search_books. munfold.
    rewrite Hst1. cbv beta iota delta [iter store_of]. munfold.
    apply search_loop_books. }
  rewrite !Hrun, !List.filter_app. simpl List.filter.
  by rewrite str_contains_refl.
Qed.

(** X7. Adding a book raises [total_books] by one, and raises
    [read_books] by one when the book is marked as read, [unread_books]
    by one when it is not. *)
Theorem statistics_after_add (t a : list N) (y : Z) (g : list N) (r : bool)
    (now : list N) (bs : list book) (σ : state) :
  store σ = Some (store_of bs) ->
  let total := Z.of_nat (length bs) in
  let read := Z.of_nat (length (List.filter read_status bs)) in
  exists σ1 stats stats1,
    calculate_statistics σ = Ok (PDict stats) σ /\
    add_book t a y g r now σ = Ok tt σ1 /\
    calculate_statistics σ1 = Ok (PDict stats1) σ1 /\
    dict_get stats (py "total_books") = Some (PInt total) /\
    dict_get stats1 (py "total_books") = Some (PInt (total + 1)) /\
    dict_get stats (py "read_books") = Some (PInt read) /\
    dict_get stats1 (py "read_books") = Some (PInt (if r then read + 1 else read)) /\
    dict_get stats (py "unread_books") = Some (PInt (total - read)) /\
    dict_get stats1 (py "unread_books")
    = Some (PInt (if r then total - read else total - read + 1)).
Proof.
  intros Hst total read.
  destruct (add_book_books t a y g r now bs σ Hst)
    as (σ1 & Hadd & Hst1 & _).
  assert (forall bs' σ', store σ' = Some (store_of bs') ->
            calculate_statistics σ'
            = Ok (PDict
                 [(py "total_books", PInt (Z.of_nat (length bs')));
                  (py "read_books", PInt (Z.of_nat (length (List.filter read_status bs'))));
                  (py "unread_books",
                    PInt (Z.of_nat (length bs')
                          - Z.of_nat (length (List.filter read_status bs'))));
                  (py "read_percentage",
                    if (Z.of_nat (length bs') >? 0)%Z
                    then PFloat (PrimFloat.mul
                            (PrimFloat.div
                               (float_of_int (Z.of_nat (length (List.filter read_status bs'))))
                               (float_of_int (Z.of_nat (length bs'))))
                            (float_of_int 100))
                    else PInt 0)]) σ') as Hrun.
  { intros bs' σ' Hst'. unfold store in Hst'. unfold calculate_statistics. munfold.
    rewrite Hst'. cbv beta iota delta [len iter store_of]. munfold.
    rewrite count_read_books. by rewrite length_map. }
  eexists σ1, _, _. split; [by apply Hrun|]. split; [done|].
  split; [by apply Hrun|].
  rewrite List.filter_app, !length_app. simpl List.filter.
  split_and!; try reflexivity.
  - cbn. do 2 f_equal. lia.
  - cbn. do 2 f_equal. destruct r; simpl; lia.
  - cbn. do 2 f_equal. destruct r; simpl; lia.
Qed.

End AfterAdding.

Section LoadedStores.
Variable lower : list N -> list N.
Variable float_repr : float -> list N.
Variable float_of_str : list N -> float.

(** ** Runs that read only *)

Lemma unchanged_bind {A B} (m : M A) (k : A -> M B) (σ : state) :
  unchanged σ (m σ) ->
  (forall a, unchanged σ (k a σ)) ->
  unchanged σ (bind m k σ).
Proof.
  unfold bind. destruct (m σ) as [a σ'|e σ'|]; simpl; [|done..].
  intros -> Hk. apply Hk.
Qed.

Lemma getitem_unchanged (o : pyval) (k : list N) (σ : state) :
  unchanged σ (getitem o k σ).
Proof. destruct o; try done. simpl. by destruct (dict_get d k). Qed.

Lemma str_lower_unchanged (o : pyval) (σ : state) :
  unchanged σ (str_lower lower o σ).
Proof. by destruct o. Qed.

Lemma iter_unchanged (o : pyval) (σ : state) : unchanged σ (iter o σ).
Proof. by destruct o. Qed.

Lemma len_unchanged (o : pyval) (σ : state) : unchanged σ (len o σ).
Proof. by destruct o. Qed.

Lemma map_M_unchanged {A B} (f : A -> M B) (l : list A) (σ : state) :
  (forall x, unchanged σ (f x σ)) ->
  unchanged σ (map_M f l σ).
Proof.
  intros Hf. induction l as [|x l IH]; [done|].
  cbn [map_M]. apply unchanged_bind; [done|]. intros y.
  apply unchanged_bind; [done|]. by intros ys.
Qed.

Lemma search_loop_unchanged (term search_by : list N) (items : list pyval)
    (σ : state) :
  unchanged σ (search_loop lower term search_by items σ).
Proof.
  induction items as [|x items IH]; [done|].
  cbn [search_loop].
  apply unchanged_bind; [apply getitem_unchanged|]. intros v.
  apply unchanged_bind; [apply str_lower_unchanged|]. intros hay.
  apply unchanged_bind; [done|]. by intros rs.
Qed.

Lemma count_read_unchanged (items : list pyval) (σ : state) :
  unchanged σ (count_read items σ).
Proof.
  induction items as [|x items IH]; [done|].
  cbn [count_read].
  apply unchanged_bind; [apply getitem_unchanged|]. intros v.
  apply unchanged_bind; [done|]. by intros n.
Qed.

(** X8. [search_books] and [calculate_statistics] only read: whatever
    the store holds, they return or raise with the session (store, files
    and page) exactly as it was. *)
Theorem queries_read_only (term search_by : list N) (v : pyval) (σ : state) :
  store σ = Some v ->
  unchanged σ (search_books lower term search_by σ) /\
  unchanged σ (calculate_statistics σ).
Proof.
  intros Hst. unfold store in Hst. split.
  - assert (search_books lower term search_by σ
            = bind (iter v) (search_loop lower term search_by) σ) as ->.
    { unfold search_books. unfold bind at 1 2. unfold get_library, deref.
      by rewrite Hst. }
    apply unchanged_bind; [apply iter_unchanged|]. intros books.
    apply search_loop_unchanged.
  - unfold calculate_statistics. unfold bind at 1 2. unfold get_library, deref.
    rewrite Hst.
    apply unchanged_bind; [apply len_unchanged|]. intros n.
    apply unchanged_bind; [apply iter_unchanged|]. intros books.
    apply unchanged_bind; [apply count_read_unchanged|]. by intros z.
Qed.

(** ** Statistics of a store that was loaded *)

Lemma count_read_items (items : list pyval) (σ : state) :
  (Forall (fun x => is_Some (field (py "read_status") x)) items /\
   count_read items σ
   = Ok (Z.of_nat (length (List.filter counts_as_read items))) σ)
  \/ (~ Forall (fun x => is_Some (field (py "read_status") x)) items /\
      exists e, (e = KeyError \/ e = TypeError) /\ count_read items σ = Raise e σ).
Proof.
  induction items as [|x items IH].
  - left. by split.
  - destruct (field (py "read_status") x) as [r|] eqn:Hx.
    + assert (getitem x (py "read_status") σ = Ok r σ) as Hget.
      { destruct x; try done. simpl in *. by rewrite Hx. }
      destruct IH as [[Hall Hrun] | [Hnall (e & He & Hrun)]].
      * left. split; [constructor; [by rewrite Hx | done]|].
        cbn [count_read List.filter]. unfold bind at 1. rewrite Hget.
        unfold bind at 1. rewrite Hrun. unfold ret, counts_as_read. rewrite Hx.
        destruct (truthy r); [|done]. simpl length. do 2 f_equal. lia.
      * right. split; [by intros [_ ?]%Forall_cons|].
        exists e. split; [done|].
        cbn [count_read]. unfold bind at 1. rewrite Hget.
        unfold bind at 1. by rewrite Hrun.
    + right. split.
      { intros [[? Hsome] _]%Forall_cons. congruence. }
      assert (exists e, (e = KeyError \/ e = TypeError)
                        /\ getitem x (py "read_status") σ = Raise e σ)
        as (e & He & Hget).
      { destruct x; try (exists TypeError; split; [by right | done]).
        exists KeyError. split; [by left|]. simpl in *. by rewrite Hx. }
      exists e. split; [done|]. cbn [count_read]. unfold bind at 1. by rewrite Hget.
Qed.

(** X9. On a store that is a list of any items, [calculate_statistics]
    returns exactly when every item is a dict with a [read_status] key;
    the total is the number of items and an item counts as read when the
    value under [read_status] is truthy, whatever its type. Otherwise it
    raises KeyError or TypeError, with the session unchanged. *)
Theorem statistics_needs_read_status (items : list pyval) (σ : state) :
  store σ = Some (PList items) ->
  let total := Z.of_nat (length items) in
  let read := Z.of_nat (length (List.filter counts_as_read items)) in
  (Forall (fun x => is_Some (field (py "read_status") x)) items /\
   calculate_statistics σ
   = Ok (PDict
           [(py "total_books", PInt total);
            (py "read_books", PInt read);
            (py "unread_books", PInt (total - read));
            (py "read_percentage",
              if (total >? 0)%Z
              then PFloat (PrimFloat.mul
                             (PrimFloat.div (float_of_int read) (float_of_int total))
                             (float_of_int 100))
              else PInt 0)]) σ)
  \/ (~ Forall (fun x => is_Some (field (py "read_status") x)) items /\
      exists e, (e = KeyError \/ e = TypeError) /\
                calculate_statistics σ = Raise e σ).
Proof.
  intros Hst total read. unfold store in Hst.
  assert (calculate_statistics σ
          = bind (count_read items)
              (fun read_books =>
                 ret (PDict
                   [(py "total_books", PInt total);
                    (py "read_books", PInt read_books);
                    (py "unread_books", PInt (total - read_books));
                    (py "read_percentage",
                      if (total >? 0)%Z
                      then PFloat (PrimFloat.mul
                             (PrimFloat.div (float_of_int read_books)
                                            (float_of_int total))
                             (float_of_int 100))
                      else PInt 0)])) σ) as ->.
  { unfold calculate_statistics. unfold bind at 1 2. unfold get_library, deref.
    by rewrite Hst. }
  destruct (count_read_items items σ) as [[Hall Hrun] | [Hnall (e & He & Hrun)]].
  - left. split; [done|]. unfold bind. by rewrite Hrun.
  - right. split; [done|]. exists e. split; [done|]. unfold bind. by rewrite Hrun.
Qed.

(** ** remove_book on a store that was loaded *)

Lemma remove_loop_items (lib : nat) (t : list N) (pre items : list pyval)
    (σ : state) :
  heap σ !! lib = Some (PList (pre ++ items)) ->
  (exists l1 x l2,
      items = l1 ++ x :: l2 /\
      Forall (titled_otherwise lower t) l1 /\ titled lower t x /\
      remove_loop lower lib t (length pre) items σ
      = Ok true (set_heap (<[lib := PList (pre ++ l1 ++ l2)]> (heap σ)) σ))
  \/ (Forall (titled_otherwise lower t) items /\
      remove_loop lower lib t (length pre) items σ = Ok false σ)
  \/ (exists l1 x l2,
        items = l1 ++ x :: l2 /\
        Forall (titled_otherwise lower t) l1 /\
        str_field (py "title") x = None /\
        exists e, remove_loop lower lib t (length pre) items σ = Raise e σ).
Proof.
  revert pre. induction items as [|x items IH]; intros pre Hlib.
  - right; left. by split.
  - destruct (str_field (py "title") x) as [s|] eqn:Hx.
    + assert (getitem x (py "title") σ = Ok (PStr s) σ) as Hget.
      { unfold str_field, field in Hx. destruct x; try done. simpl.
        destruct (dict_get d (py "title")) as [[]|]; by simplify_eq. }
      assert (remove_loop lower lib t (length pre) (x :: items) σ
              = if decide (lower s = lower t)
                then bind (list_pop lib (length pre)) (fun _ => ret true) σ
                else remove_loop lower lib t (S (length pre)) items σ) as ->.
      { cbn [remove_loop]. unfold bind at 1. rewrite Hget.
        unfold bind at 1. cbn [str_lower]. unfold ret at 1.
        by destruct (decide (lower s = lower t)). }
      destruct (decide (lower s = lower t)) as [Heq|Hne].
      * left. exists [], x, items. split_and!; [done | done | by exists s |].
        unfold list_pop. munfold. rewrite Hlib.
        rewrite list_lookup_middle by done.
        rewrite delete_middle. done.
      * specialize (IH (pre ++ [x])).
        rewrite <- app_assoc in IH. specialize (IH Hlib).
        rewrite length_app, Nat.add_1_r in IH.
        assert (titled_otherwise lower t x) as Hx' by (by exists s).
        destruct IH as [(l1 & y & l2 & -> & Hl1 & Hy & Hrun)
                       | [[Hall Hrun] | (l1 & y & l2 & -> & Hl1 & Hy & e & Hrun)]].
        -- left. exists (x :: l1), y, l2. split_and!; [done | by constructor | done |].
           rewrite Hrun. by rewrite <- app_assoc.
        -- right; left. split; [by constructor | done].
        -- right; right. exists (x :: l1), y, l2.
           split_and!; [done | by constructor | done |]. by exists e.
    + right; right. exists [], x, items. split_and!; [done..|].
      cbn [remove_loop]. unfold bind at 1.
      unfold str_field, field in Hx.
      destruct x as [|b|z|f|s|l|d];
        try (by exists TypeError).
      cbn [getitem]. destruct (dict_get d (py "title")) as [v|];
        [|by exists KeyError].
      exists AttributeError. unfold ret at 1, bind at 1. by destruct v.
Qed.

(** X10. On a store that is a list of any items, [remove_book] goes
    through the items in order as long as they are dicts with a string
    title different from the one asked for (up to letter case). If it
    reaches an item with that title, this item alone is removed and
    success is reported, whatever comes after it; if it reaches the end,
    a warning is shown and nothing is removed; if it reaches an item
    without a string title first, it raises with the session unchanged. *)
Theorem remove_book_outcome (t : list N) (items : list pyval) (σ : state) :
  store σ = Some (PList items) ->
  (exists l1 x l2,
      items = l1 ++ x :: l2 /\
      Forall (titled_otherwise lower t) l1 /\ titled lower t x /\
      remove_book lower t σ
      = Ok tt (set_page (page σ ++ [Success])
                 (set_heap (<[library σ := PList (l1 ++ l2)]> (heap σ)) σ)))
  \/ (Forall (titled_otherwise lower t) items /\
      remove_book lower t σ = Ok tt (set_page (page σ ++ [Warning]) σ))
  \/ (exists l1 x l2,
        items = l1 ++ x :: l2 /\
        Forall (titled_otherwise lower t) l1 /\
        str_field (py "title") x = None /\
        exists e, remove_book lower t σ = Raise e σ).
Proof.
  intros Hst. rewrite (remove_book_run lower t items σ Hst). unfold store in Hst.
  destruct (remove_loop_items (library σ) t [] items σ Hst)
    as [(l1 & x & l2 & Hit & Hl1 & Hx & Hrun)
       | [[Hall Hrun] | (l1 & x & l2 & Hit & Hl1 & Hx & e & Hrun)]];
    simpl in Hrun; rewrite Hrun.
  - left. by exists l1, x, l2.
  - right; left. done.
  - right; right. exists l1, x, l2. split_and!; [done..|]. by exists e.
Qed.

End LoadedStores.

Section ViewFrame.
Variable lower : list N -> list N.

Lemma page_only_bind {A B} (m : M A) (k : A -> M B) (σ : state) :
  page_only σ (m σ) ->
  (forall a p, page_only (set_page p σ) (k a (set_page p σ))) ->
  page_only σ (bind m k σ).
Proof.
  unfold bind. destruct (m σ) as [a σ'|e σ'|]; simpl; [|done..].
  intros [p ->] Hk. specialize (Hk a p).
  destruct (k a (set_page p σ)) as [b σ''|e σ''|]; simpl in *; [| |done].
  - destruct Hk as [p' ->]. by exists p'.
  - destruct Hk as [p' ->]. by exists p'.
Qed.

Lemma unchanged_page_only {A} (σ : state) (o : outcome A) :
  unchanged σ o -> page_only σ o.
Proof.
  destruct o as [a σ'|e σ'|]; simpl; [| |done]; intros ->; exists (page σ);
    by destruct σ.
Qed.

Lemma emit_page_only (e : element) (σ : state) : page_only σ (emit e σ).
Proof. by eexists. Qed.

Lemma render_page_only (b : pyval) (σ : state) : page_only σ (render b σ).
Proof.
  unfold render.
  repeat (apply page_only_bind;
          [first [apply emit_page_only
                 | apply unchanged_page_only, getitem_unchanged]
          | intros ? ?]).
  apply emit_page_only.
Qed.

Lemma for_each_render_page_only (books : list pyval) (σ : state) :
  page_only σ (for_each render books σ).
Proof.
  revert σ. induction books as [|b books IH]; intros σ.
  - exists (page σ). by destruct σ.
  - cbn [for_each]. apply page_only_bind; [apply render_page_only|].
    intros _ p. apply IH.
Qed.

(** What [list.sort] does to the session: the list object is replaced in
    place, or an exception leaves everything as it was. *)
Lemma list_sort_in_place (l : nat) (key : pyval -> M pyval) (r : bool)
    (o : pyval) (σ : state) :
  heap σ !! l = Some o ->
  (forall x σ, unchanged σ (key x σ)) ->
  match list_sort l key r σ with
  | Ok _ σ' => exists items, σ' = set_heap (<[l := PList items]> (heap σ)) σ
  | Raise _ σ' => σ' = σ
  | Unmodelled => True
  end.
Proof.
  intros Hl Hkey. unfold list_sort. unfold bind at 1. unfold deref. rewrite Hl.
  destruct o; try done.
  unfold bind.
  pose proof (map_M_unchanged key l0 σ (fun x => Hkey x σ)) as Hks.
  destruct (map_M key l0 σ) as [ks σ'|e σ'|]; simpl in Hks; [subst σ'|done..].
  destruct (classify_keys ks); [by eexists..|done].
Qed.

Lemma same_store_from {A} (σ σ1 : state) (o : outcome A) :
  library σ1 = library σ -> store σ1 = store σ ->
  files σ1 = files σ -> unwritable σ1 = unwritable σ ->
  same_store σ1 o -> same_store σ o.
Proof.
  intros Hl Hs Hf Hu. destruct o as [a σ'|e σ'|]; simpl; [| |done];
    intros (-> & -> & -> & ->); done.
Qed.

(** Sorting the copy and showing it leaves the library alone. *)
Lemma sort_and_show (l : nat) (key : pyval -> M pyval) (r : bool)
    (o : pyval) (σ : state) :
  heap σ !! l = Some o ->
  l <> library σ ->
  (forall x σ, unchanged σ (key x σ)) ->
  same_store σ
    (bind (list_sort l key r)
       (fun _ => bind (deref l)
          (fun o0 => bind (iter o0) (fun books => for_each render books))) σ).
Proof.
  intros Hl Hne Hkey. unfold bind at 1.
  pose proof (list_sort_in_place l key r o σ Hl Hkey) as Hsort.
  destruct (list_sort l key r σ) as [[] σ'|e σ'|]; [|by subst σ'|done].
  destruct Hsort as [items ->].
  unfold bind at 1, deref. simpl heap. rewrite lookup_insert_eq.
  unfold bind, iter, ret.
  set (σ2 := set_heap _ σ).
  pose proof (for_each_render_page_only items σ2) as Hshow.
  assert (library σ2 = library σ /\ store σ2 = store σ /\
          files σ2 = files σ /\ unwritable σ2 = unwritable σ) as Hσ2.
  { unfold store. simpl. by rewrite lookup_insert_ne. }
  destruct (for_each render items σ2) as [[] σ3|e σ3|]; simpl in *; [| |done];
    destruct Hshow as [p ->]; apply Hσ2.
Qed.

(** X11. Showing "View All Books" never changes the library, whatever
    the store holds and whether the page completes or raises: the
    session refers to the same object with the same content, and the
    files are as before. (Runs whose sort keys are neither all strings
    nor all integers are outside the model.) *)
Theorem view_all_books_leaves_store (o : sort_option) (reverse_sort : bool)
    (v : pyval) (σ : state) :
  store σ = Some v ->
  same_store σ (view_all_books lower o reverse_sort σ).
Proof.
  intros Hst. unfold store in Hst.
  unfold view_all_books. unfold bind at 1 2. unfold get_library at 1, deref at 1.
  rewrite Hst. destruct (truthy v) eqn:Htr; [|done].
  unfold bind at 1.
  pose proof (len_unchanged v σ) as Hlen.
  destruct (len v σ) as [n σ'|e σ'|]; simpl in Hlen; [subst σ'| by subst σ' |done].
  unfold bind at 1. unfold emit at 1.
  set (σ1 := set_page _ σ).
  unfold bind at 1 2. unfold get_library at 1. unfold copy, bind at 1. unfold deref at 1.
  change (heap σ1 !! library σ1) with (heap σ !! library σ). rewrite Hst.
  assert (fresh (dom (heap σ)) <> library σ) as Hfresh.
  { intros Heq. apply (is_fresh (dom (heap σ))). rewrite Heq.
    apply elem_of_dom. by eexists. }
  assert (forall w,
            same_store σ
              (bind
                 match o with
                 | RecentlyAdded =>
                     list_sort (fresh (dom (heap σ)))
                       (fun x => getitem x (py "added_date")) (negb reverse_sort)
                 | Title =>
                     list_sort (fresh (dom (heap σ)))
                       (fun x => bind (getitem x (py "title"))
                          (fun t => bind (str_lower lower t) (fun t => ret (PStr t))))
                       reverse_sort
                 | Author =>
                     list_sort (fresh (dom (heap σ)))
                       (fun x => bind (getitem x (py "author"))
                          (fun t => bind (str_lower lower t) (fun t => ret (PStr t))))
                       reverse_sort
                 | Year =>
                     list_sort (fresh (dom (heap σ)))
                       (fun x => getitem x (py "year")) reverse_sort
                 end
                 (fun _ => bind (deref (fresh (dom (heap σ))))
                    (fun o0 => bind (iter o0) (fun books => for_each render books)))
                 (set_heap (<[fresh (dom (heap σ)) := w]> (heap σ)) σ1)))
    as Htail.
  { intros w.
    apply (same_store_from σ (set_heap (<[fresh (dom (heap σ)) := w]> (heap σ)) σ1));
      [done | by unfold store; simpl; rewrite lookup_insert_ne | done | done |].
    destruct o; apply (sort_and_show _ _ _ w);
      try (simpl; apply lookup_insert_eq); try done;
      intros x σ'; try apply getitem_unchanged;
      (apply unchanged_bind; [apply getitem_unchanged|]; intros t;
       apply unchanged_bind; [apply str_lower_unchanged|]; by intros t'). }
  destruct v; try done; apply Htail.
Qed.
End ViewFrame.

Section RemovePage.
Variable lower : list N -> list N.

(** X12. The "Remove a Book" page on a store of book records. With an
    empty store it shows the notice and removes nothing. Otherwise,
    without a click nothing changes; with a click the removal always
    succeeds, and the record removed is the first one whose title equals
    the selected title up to letter case, which is the selected record
    or one before it. *)
Theorem remove_book_page_removes (selected : nat) (bs : list book) (σ : state) :
  store σ = Some (store_of bs) ->
  (bs = [] ->
   forall clicked,
     remove_book_page lower selected clicked σ
     = Ok tt (set_page (page σ ++ [Info]) σ))
  /\ (forall sel, bs !! selected = Some sel ->
      remove_book_page lower selected false σ = Ok tt σ /\
      exists l1 b l2,
        bs = l1 ++ b :: l2 /\
        Forall (fun x => lower (title x) <> lower (title sel)) l1 /\
        lower (title b) = lower (title sel) /\
        (length l1 <= selected)%nat /\
        remove_book_page lower selected true σ
        = Ok tt (set_page (page σ ++ [Success])
                   (set_heap (<[library σ := store_of (l1 ++ l2)]> (heap σ)) σ))).
Proof.
  intros Hst. split.
  - intros -> clicked. unfold store in Hst. unfold remove_book_page. munfold.
    by rewrite Hst.
  - intros sel Hsel.
    assert (forall clicked,
              remove_book_page lower selected clicked σ
              = if clicked then remove_book lower (title sel) σ else Ok tt σ) as Hpage.
    { intros clicked. pose proof Hst as Hst'. unfold store in Hst'.
      unfold remove_book_page. unfold bind at 1 2. unfold get_library, deref.
      rewrite Hst'.
      replace (truthy (store_of bs)) with true by (by destruct bs).
      unfold bind at 1. cbv beta iota delta [iter store_of]. unfold ret at 1.
      unfold bind at 1.
      rewrite (map_M_books _ (fun b => PStr (title b))) by done.
      rewrite list_lookup_fmap, Hsel. simpl. by destruct clicked. }
    split; [apply Hpage|]. rewrite Hpage.
    rewrite (remove_book_run lower _ _ σ Hst). unfold store in Hst.
    destruct (remove_loop_books lower (library σ) (title sel) [] bs σ Hst)
      as [(l1 & b & l2 & -> & Hl1 & Hb & Hrun) | [Hall Hrun]].
    + exists l1, b, l2. split_and!; [done..| |by simpl in Hrun; rewrite Hrun].
      destruct (decide (length l1 <= selected)%nat) as [|Hlt]; [done|].
      rewrite lookup_app_l in Hsel by lia.
      rewrite Forall_lookup in Hl1. by destruct (Hl1 _ _ Hsel).
    + rewrite Forall_lookup in Hall. by destruct (Hall _ _ Hsel).
Qed.

End RemovePage.

Section SearchPage.
Variable lower : list N -> list N.

Lemma show_result_book (b : book) (σ : state) :
  show_result (to_dict b) σ = Ok (result_lines b) σ.
Proof. reflexivity. Qed.

Lemma map_M_show_results (hits : list book) (σ : state) :
  map_M show_result (List.map to_dict hits) σ = Ok (List.map result_lines hits) σ.
Proof.
  induction hits as [|b hits IH]; [done|].
  cbn [List.map map_M]. unfold bind at 1. rewrite show_result_book.
  unfold bind at 1. by rewrite IH.
Qed.

(** X16. The "Search for Books" page on a store of book records. With
    an empty search term nothing is searched and nothing is shown, in
    any session; otherwise the page shows the warning when no record
    matches, and else the number of matching records followed by three
    lines for each of them, in the order of the store. The session is
    left as it was. *)
Theorem search_page_shows (term : list N) (f : search_field) (bs : list book)
    (σ : state) :
  store σ = Some (store_of bs) ->
  let hits :=
    List.filter (fun b => str_contains (lower term) (lower (field_value f b))) bs in
  search_page lower (field_name f) term σ
  = Ok (match term with [] => [] | _ :: _ => results_shown hits end) σ
  /\ forall search_by σ', search_page lower search_by [] σ' = Ok [] σ'.
Proof.
  intros Hst hits. split; [|done].
  destruct term as [|c term]; [done|].
  unfold search_page. cbn [truthy length Nat.eqb negb].
  assert (search_books lower (c :: term) (field_name f) σ
          = Ok (List.map to_dict hits) σ) as Hrun.
  { unfold store in Hst. unfold search_books. munfold. rewrite Hst.
    cbv beta iota delta [iter store_of]. munfold. apply search_loop_books. }
  unfold bind at 1. rewrite Hrun.
  destruct hits as [|b hits']; [done|].
  rewrite !length_map. cbn [length Nat.eqb negb].
  unfold bind. rewrite map_M_show_results. unfold ret, results_shown.
  by rewrite flat_map_concat_map.
Qed.
End SearchPage.

(** ** The reverse toggle when no two records share the key *)

Lemma str_lt_trans (a b c : list N) :
  str_lt a b = true -> str_lt b c = true -> str_lt a c = true.
Proof.
  revert b c. induction a as [|x a IH]; intros [|y b] [|z c]; simpl; try done.
  rewrite !orb_true_iff, !andb_true_iff, !N.ltb_lt, !N.eqb_eq.
  intros [Hxy | [-> Hab]] [Hyz | [-> Hbc]]; [left; lia | by left | by left |].
  right. split; [done|]. by eapply IH.
Qed.

Lemma str_lt_total (a b : list N) :
  str_lt a b = false -> str_lt b a = false -> a = b.
Proof.
  revert b. induction a as [|x a IH]; intros [|y b]; simpl; try done.
  rewrite !orb_false_iff, !andb_false_iff, !N.ltb_ge, !N.eqb_neq.
  intros [Hxy [Hne | Hab]] [Hyx [Hne' | Hba]]; try lia.
  assert (x = y) as -> by lia. f_equal. by apply IH.
Qed.

Section Mirror.
Context {K A : Type} `{EqDecision K} (lt : K -> K -> bool) (key : A -> K).
Hypothesis lt_irrefl : forall a, lt a a = false.
Hypothesis lt_trans : forall a b c, lt a b = true -> lt b c = true -> lt a c = true.
Hypothesis lt_total : forall a b, lt a b = false -> lt b a = false -> a = b.

Lemma lt_asym_of_trans (a b : K) : lt a b = true -> lt b a = false.
Proof.
  intros Hab. destruct (lt b a) eqn:Hba; [|done].
  pose proof (lt_trans _ _ _ Hab Hba) as Haa. by rewrite lt_irrefl in Haa.
Qed.

(** With distinct keys, not decreasing is increasing. *)
Lemma Sorted_strict (l : list A) :
  NoDup (List.map key l) ->
  Sorted (fun a b => lt (key b) (key a) = false) l ->
  Sorted (fun a b => lt (key a) (key b) = true) l.
Proof.
  induction l as [|a l IH]; [constructor|].
  intros Hnd Hs. apply NoDup_cons in Hnd as [Hnotin Hnd].
  apply Sorted_inv in Hs as [Hs Hhd].
  constructor; [by apply IH|].
  destruct l as [|b l]; constructor.
  apply HdRel_inv in Hhd.
  destruct (lt (key a) (key b)) eqn:Hab; [done|].
  destruct Hnotin. rewrite (lt_total _ _ Hab Hhd). simpl. by left.
Qed.

(** A list has one increasing arrangement. *)
Lemma increasing_unique (l1 l2 : list A) :
  Sorted (fun a b => lt (key a) (key b) = true) l1 ->
  Sorted (fun a b => lt (key a) (key b) = true) l2 ->
  Permutation l1 l2 ->
  l1 = l2.
Proof.
  intros H1 H2.
  apply Sorted_StronglySorted in H1; [|intros a b c; apply lt_trans].
  apply Sorted_StronglySorted in H2; [|intros a b c; apply lt_trans].
  revert l2 H2. induction H1 as [|a l1 H1 IH Ha]; intros l2 H2 Hperm.
  - by apply Permutation_nil in Hperm.
  - destruct H2 as [|b l2 H2 Hb].
    + symmetry in Hperm. by apply Permutation_nil in Hperm.
    + assert (a = b) as ->.
      { assert (In a (b :: l2)) as [<-|Hin]
          by (eapply Permutation_in; [exact Hperm | by left]); [done|].
        assert (In b (a :: l1)) as [<-|Hin']
          by (eapply Permutation_in; [symmetry; exact Hperm | by left]); [done|].
        rewrite List.Forall_forall in Ha, Hb.
        pose proof (lt_asym_of_trans _ _ (Ha _ Hin')) as Hba.
        by rewrite (Hb _ Hin) in Hba. }
      f_equal. apply IH; [done|]. by apply Permutation_cons_inv in Hperm.
Qed.

Lemma sorted_by_reverse_distinct (l : list A) :
  NoDup (List.map key l) ->
  sorted_by lt key true l = rev (sorted_by lt key false l).
Proof.
  intros Hnd.
  rewrite <- (rev_involutive (sorted_by lt key true l)). f_equal.
  assert (forall r, NoDup (List.map key (sorted_by lt key r l))) as Hnd'.
  { intros r. pose proof (sorted_by_perm lt key r l) as Hp.
    apply (Permutation_map key) in Hp. by rewrite Hp. }
  apply increasing_unique.
  - apply Sorted_strict.
    + pose proof (Permutation_rev (sorted_by lt key true l)) as Hp.
      apply (Permutation_map key) in Hp. rewrite <- Hp. apply Hnd'.
    + apply (Sorted_rev (fun a b => lt (key a) (key b) = false)).
      apply (sorted_by_sorted lt key lt_asym_of_trans true).
  - apply Sorted_strict; [done|].
    apply (sorted_by_sorted lt key lt_asym_of_trans false).
  - rewrite <- Permutation_rev.
    etransitivity; [apply sorted_by_perm | symmetry; apply sorted_by_perm].
Qed.
End Mirror.

Section Toggle.
Variable lower : list N -> list N.

Lemma display_order_toggle (o : sort_option) (bs : list book) :
  NoDup (List.map (sort_key lower o) bs) ->
  display_order lower o true bs = rev (display_order lower o false bs).
Proof.
  intros Hnd.
  assert (forall (f : book -> list N),
            (forall b, sort_key lower o b = inl (f b)) ->
            sorted_by str_lt f true bs = rev (sorted_by str_lt f false bs)) as Hstr.
  { intros f Hf. apply sorted_by_reverse_distinct;
      [apply str_lt_irrefl | apply str_lt_trans | apply str_lt_total |].
    apply (NoDup_fmap_1 (@inl (list N) Z)).
    change (NoDup (List.map (@inl (list N) Z) (List.map f bs))).
    rewrite List.map_map. erewrite List.map_ext; [exact Hnd|].
    intros b. by rewrite Hf. }
  destruct o; simpl.
  - rewrite (Hstr added_date) by done. by rewrite rev_involutive.
  - by apply Hstr.
  - by apply Hstr.
  - apply sorted_by_reverse_distinct;
      [apply Z.ltb_irrefl | intros a b c; rewrite !Z.ltb_lt; lia
      | intros a b; rewrite !Z.ltb_ge; lia |].
    apply (NoDup_fmap_1 (@inr (list N) Z)).
    change (NoDup (List.map (@inr (list N) Z) (List.map year bs))).
    by rewrite List.map_map.
Qed.

(** X13. When no two records have the same sort key, the "Reverse
    order" checkbox turns the list shown by "View All Books" into its
    exact mirror image, for each of the four sort options. *)
Theorem reverse_toggle_mirrors (o : sort_option) (bs : list book) (σ : state) :
  store σ = Some (store_of bs) ->
  NoDup (List.map (sort_key lower o) bs) ->
  exists σ1 σ2,
    view_all_books lower o false σ = Ok tt σ1 /\
    view_all_books lower o true σ = Ok tt σ2 /\
    page σ1 = page σ ++ listing (display_order lower o false bs) /\
    page σ2 = page σ ++ listing (rev (display_order lower o false bs)).
Proof.
  intros Hst Hnd.
  destruct (view_all_books_listing lower o false bs σ Hst) as (σ1 & Hrun1 & Hp1).
  destruct (view_all_books_listing lower o true bs σ Hst) as (σ2 & Hrun2 & Hp2).
  exists σ1, σ2. split_and!; [done..|].
  by rewrite Hp2, display_order_toggle.
Qed.
End Toggle.

(** ** A record with the largest key under a descending sort *)

Section Newest.
Context {K A : Type} `{EqDecision K} (lt : K -> K -> bool) (key : A -> K).

Lemma insert_last (x : K * A) (l : list (K * A)) :
  Forall (fun y => lt y.1 x.1 = true) l -> insert lt x l = l ++ [x].
Proof.
  induction 1 as [|y l Hy Hl IH]; [done|].
  cbn [insert]. rewrite Hy. by rewrite IH.
Qed.

Lemma sorted_by_largest_last (l : list A) (x : A) :
  Forall (fun a => lt (key a) (key x) = true) l ->
  sorted_by lt key true (l ++ [x]) = x :: sorted_by lt key true l.
Proof.
  intros Hl. unfold sorted_by, sort_by_keys.
  rewrite !combine_keys, List.map_app, rev_app_distr. cbn [List.map rev app stable_sort].
  rewrite insert_last.
  - by rewrite rev_app_distr.
  - eapply Permutation_Forall; [symmetry; by apply stable_sort_perm|].
    apply Forall_rev. by apply Forall_fmap.
Qed.
End Newest.

Section NewestFirst.
Variable lower : list N -> list N.

(** X15. A book added with a timestamp later than those of all records
    in the store is the first one shown by "View All Books" in its
    default setting (Recently Added, reverse order off); the other
    records follow as they were shown before. *)
Theorem newest_book_shown_first (t a : list N) (y : Z) (g : list N) (r : bool)
    (now : list N) (bs : list book) (σ : state) :
  store σ = Some (store_of bs) ->
  Forall (fun b => str_lt (added_date b) now = true) bs ->
  exists σ1 σ2,
    add_book t a y g r now σ = Ok tt σ1 /\
    view_all_books lower RecentlyAdded false σ1 = Ok tt σ2 /\
    page σ2
    = page σ1
      ++ listing (Book t a y g r now :: display_order lower RecentlyAdded false bs).
Proof.
  intros Hst Hold.
  destruct (add_book_books t a y g r now bs σ Hst) as (σ1 & Hadd & Hst1 & _).
  destruct (view_all_books_listing lower RecentlyAdded false _ σ1 Hst1)
    as (σ2 & Hview & Hpage).
  exists σ1, σ2. split_and!; [done..|].
  rewrite Hpage. cbn [display_order negb].
  by rewrite sorted_by_largest_last.
Qed.
End NewestFirst.

(** ** What the decoder returns is faithful *)

Lemma skip_ws_Forall (P : N -> Prop) (s : list N) :
  Forall P s -> Forall P (skip_ws s).
Proof.
  induction 1 as [|c s Hc Hs IH]; simpl; [constructor|].
  destruct (WHITESPACE_STR c); [done | by constructor].
Qed.

Lemma span_digits_Forall (P : N -> Prop) (s : list N) :
  Forall P s -> Forall P (span_digits s).2.
Proof.
  induction 1 as [|c s Hc Hs IH]; simpl; [constructor|].
  destruct (is_digit c); [|by constructor].
  by destruct (span_digits s).
Qed.

Lemma match_integer_Forall (P : N -> Prop) (s i r : list N) :
  Forall P s -> match_integer s = Some (i, r) -> Forall P r.
Proof.
  unfold match_integer. intros Hs H.
  assert (forall sign t, Forall P t ->
            match t with
            | c :: r' =>
                if (c =? 48)%N then Some (sign ++ [c], r')
                else if is_digit c then
                  let '(ds, r'') := span_digits r' in Some (sign ++ c :: ds, r'')
                else None
            | [] => None
            end = Some (i, r) -> Forall P r) as Haux.
  { intros sign t Ht Hm. destruct Ht as [|c t Hc Ht]; [done|].
    destruct (c =? 48)%N; [by simplify_eq|].
    destruct (is_digit c); [|done].
    pose proof (span_digits_Forall P t Ht) as Hsp.
    destruct (span_digits t). by simplify_eq/=. }
  destruct Hs as [|c s Hc Hs]; [done|].
  destruct (c =? 45)%N.
  - by apply (Haux [c] s).
  - apply (Haux [] (c :: s)); [by constructor | done].
Qed.

Lemma match_frac_Forall (P : N -> Prop) (s : list N) :
  Forall P s -> Forall P (match_frac s).2.
Proof.
  unfold match_frac. intros Hs. destruct Hs as [|c s Hc Hs]; [constructor|].
  destruct (c =? 46)%N; [|by constructor].
  pose proof (span_digits_Forall P s Hs) as Hsp.
  destruct (span_digits s) as [[|d ds] r]; [by constructor | done].
Qed.

Lemma match_exp_Forall (P : N -> Prop) (s : list N) :
  Forall P s -> Forall P (match_exp s).2.
Proof.
  unfold match_exp. intros Hs. destruct s as [|c s]; [constructor|].
  destruct ((c =? 101) || (c =? 69))%N; [|done].
  pose proof Hs as Hcs. apply Forall_cons in Hs as [Hc Hs].
  assert (forall sign r1, Forall P r1 ->
            Forall P (match span_digits r1 with
                      | ([], _) => ([], c :: s)
                      | (ds, r2) => (c :: sign ++ ds, r2)
                      end).2) as Haux.
  { intros sign r1 Hr1. pose proof (span_digits_Forall P r1 Hr1) as Hsp.
    by destruct (span_digits r1) as [[|d ds] r2]. }
  destruct s as [|c' s]; [by apply Haux|].
  destruct ((c' =? 45) || (c' =? 43))%N; apply Haux; [|done].
  by apply Forall_cons in Hs as [_ Hs].
Qed.

Lemma match_number_Forall (P : N -> Prop) (s i f e r : list N) :
  Forall P s -> match_number s = Some (i, f, e, r) -> Forall P r.
Proof.
  unfold match_number. intros Hs H.
  destruct (match_integer s) as [[i' r0]|] eqn:Hi; [|done].
  pose proof (match_integer_Forall P _ _ _ Hs Hi) as H0.
  pose proof (match_frac_Forall P r0 H0) as H1.
  destruct (match_frac r0) as [f' r1].
  pose proof (match_exp_Forall P r1 H1) as H2.
  destruct (match_exp r1) as [e' r2]. by simplify_eq/=.
Qed.

Lemma scalar_not_surrogate (c : N) :
  scalar c ->
  (c < 0x110000)%N /\ is_high_surrogate c = false /\ is_low_surrogate c = false.
Proof.
  unfold scalar, is_high_surrogate, is_low_surrogate. intros Hc.
  split; [lia|]. rewrite !andb_false_iff, !N.leb_gt. lia.
Qed.

Lemma BACKSLASH_ascii (esc char : N) : BACKSLASH esc = Some char -> (char < 128)%N.
Proof.
  unfold BACKSLASH. intros H.
  repeat (case_match; [by simplify_eq|]). done.
Qed.

Lemma hex_value_bound (c d : N) : hex_value c = Some d -> (d < 16)%N.
Proof.
  unfold hex_value, is_digit. intros H.
  repeat case_match; simplify_eq;
    repeat match goal with
           | H : (_ && _) = true |- _ => apply andb_true_iff in H as [? ?]
           | H : (_ <=? _)%N = true |- _ => apply N.leb_le in H
           end; lia.
Qed.

Lemma decode_uXXXX_bound (h1 h2 h3 h4 uni : N) :
  decode_uXXXX h1 h2 h3 h4 = Some uni -> (uni < 0x10000)%N.
Proof.
  unfold decode_uXXXX. intros H.
  destruct (hex_value h1) as [a|] eqn:Ha; [|done].
  destruct (hex_value h2) as [b|] eqn:Hb; [|done].
  destruct (hex_value h3) as [c|] eqn:Hc; [|done].
  destruct (hex_value h4) as [d|] eqn:Hd; [|done].
  apply hex_value_bound in Ha, Hb, Hc, Hd. simplify_eq. lia.
Qed.

Lemma join_surrogates_bound (uni uni2 : N) :
  is_high_surrogate uni = true -> is_low_surrogate uni2 = true ->
  (0x10000 <= join_surrogates uni uni2 < 0x110000)%N.
Proof.
  unfold is_high_surrogate, is_low_surrogate, join_surrogates.
  rewrite !andb_true_iff, !N.leb_le. intros [? ?] [? ?].
  rewrite N.shiftl_mul_pow2.
  rewrite lor_disjoint by (change (2 ^ 10)%N with 1024%N; lia).
  change (2 ^ 10)%N with 1024%N. lia.
Qed.

Lemma not_surrogate_low (c : N) :
  (c < 0xd800 \/ 0xdfff < c)%N ->
  is_high_surrogate c = false /\ is_low_surrogate c = false.
Proof.
  unfold is_high_surrogate, is_low_surrogate. intros Hc.
  rewrite !andb_false_iff, !N.leb_gt. lia.
Qed.

Lemma cons_char_inv (c : N) (o : option (list N * list N)) (str r : list N) :
  cons_char c o = Some (str, r) ->
  exists str', str = c :: str' /\ o = Some (str', r).
Proof. destruct o as [[str' r']|]; [|done]. intros H. simplify_eq/=. eauto. Qed.

(** After a backslash-u escape that is not a low surrogate the string
    does not go on with a low surrogate. *)
Lemma scanstring_u_head (k1 k2 k3 k4 uni2 b : N) (r3 str r : list N) :
  decode_uXXXX k1 k2 k3 k4 = Some uni2 ->
  is_low_surrogate uni2 = false ->
  scanstring (92 :: 117 :: k1 :: k2 :: k3 :: k4 :: r3)%N = Some (b :: str, r) ->
  is_low_surrogate b = false.
Proof.
  intros Hdec Hlow H. cbn [scanstring] in H.
  change (92 =? 34)%N with false in H. change (92 =? 92)%N with true in H.
  change (117 =? 117)%N with true in H. cbv iota in H. rewrite Hdec in H.
  assert (forall t, cons_char uni2 (scanstring t) = Some (b :: str, r) ->
            is_low_surrogate b = false) as Hsame.
  { intros t Ht. apply cons_char_inv in Ht as (str' & [= -> _] & _). done. }
  destruct (is_high_surrogate uni2) eqn:Hhigh; [|by eapply Hsame].
  destruct r3 as [|b' [|u [|j1 [|j2 [|j3 [|j4 r4]]]]]]; try (by eapply Hsame).
  destruct ((b' =? 92) && (u =? 117))%N; [|by eapply Hsame].
  destruct (decode_uXXXX j1 j2 j3 j4) as [uni3|]; [|done].
  destruct (is_low_surrogate uni3) eqn:Hlow3; [|by eapply Hsame].
  apply cons_char_inv in H as (str' & [= -> _] & _).
  pose proof (join_surrogates_bound _ _ Hhigh Hlow3).
  apply not_surrogate_low. lia.
Qed.

(** A string of the text: its code points are valid, no surrogate pair
    is left unmerged, and the rest of the text is scalar. A low surrogate
    at its head was written as a backslash-u escape. *)
Lemma scanstring_faithful (s str r : list N) :
  Forall scalar s ->
  scanstring s = Some (str, r) ->
  valid_str str /\ Forall scalar r /\
  match str with
  | b :: _ => is_low_surrogate b = true -> exists t, s = (92 :: 117 :: t)%N
  | [] => True
  end.
Proof.
  revert s str r.
  assert (forall n s str r, (length s <= n)%nat ->
            Forall scalar s ->
            scanstring s = Some (str, r) ->
            valid_str str /\ Forall scalar r /\
            match str with
            | b :: _ => is_low_surrogate b = true -> exists t, s = (92 :: 117 :: t)%N
            | [] => True
            end) as Haux;
    [|by intros s str r; apply (Haux (length s))].
  induction n as [|n IH]; intros s str r Hle Hs H.
  - destruct s; [done | cbn [length] in Hle; lia].
  - destruct s as [|c s]; [done|]. cbn [scanstring] in H. cbn [length] in Hle.
    apply Forall_cons in Hs as [Hc Hs].
    (* one more character [c'] in front of the string scanned from [t] *)
    assert (forall c' t,
              (length t <= n)%nat -> Forall scalar t ->
              (c' < 0x110000)%N ->
              (is_high_surrogate c' = true ->
               forall b str' r', scanstring t = Some (b :: str', r') ->
                                 is_low_surrogate b = false) ->
              (is_low_surrogate c' = true -> exists t', c :: s = (92 :: 117 :: t')%N) ->
              cons_char c' (scanstring t) = Some (str, r) ->
              valid_str str /\ Forall scalar r /\
              match str with
              | b :: _ => is_low_surrogate b = true ->
                          exists t', c :: s = (92 :: 117 :: t')%N
              | [] => True
              end) as Hrec.
    { intros c' t Ht Hst Hc' Hpair Hhead Hcons.
      apply cons_char_inv in Hcons as (str' & -> & Hscan).
      destruct (IH _ _ _ Ht Hst Hscan) as ([Hv Hnp] & Hr & _).
      split_and!; [split; [by constructor|] | done | done].
      cbn [no_surrogate_pair]. split; [|done].
      destruct str' as [|b str']; [done|].
      destruct (is_high_surrogate c') eqn:Hh; [|done].
      by rewrite (Hpair eq_refl _ _ _ Hscan). }
    destruct (c =? 34)%N eqn:Hq.
    { injection H as <- <-. split_and!; [split; [constructor | done] | done | done]. }
    destruct (c =? 92)%N eqn:Hb.
    + apply N.eqb_eq in Hb as ->.
      destruct s as [|esc r1]; [done|].
      apply Forall_cons in Hs as [Hesc Hr1].
      destruct (esc =? 117)%N eqn:Hu.
      * apply N.eqb_eq in Hu as ->.
        destruct r1 as [|h1 [|h2 [|h3 [|h4 r2]]]]; try done.
        assert (Forall scalar r2) as Hr2.
        { by do 4 apply Forall_cons in Hr1 as [_ Hr1]. }
        destruct (decode_uXXXX h1 h2 h3 h4) as [uni|] eqn:Hdec; [|done].
        pose proof (decode_uXXXX_bound _ _ _ _ _ Hdec) as Huni.
        assert (is_low_surrogate uni = true ->
                exists t', (92 :: 117 :: h1 :: h2 :: h3 :: h4 :: r2)%N
                           = (92 :: 117 :: t')%N) as Hhead by (by eexists).
        cbn [length] in Hle.
        destruct (is_high_surrogate uni) eqn:Hhigh;
          [|apply (Hrec uni r2); [lia | done | lia | by rewrite Hhigh | done | done]].
        (* a high surrogate that stays alone: what follows is not a low one *)
        assert (forall t, (length t <= n)%nat -> Forall scalar t ->
                  (forall b str' r', scanstring t = Some (b :: str', r') ->
                                     is_low_surrogate b = false) ->
                  cons_char uni (scanstring t) = Some (str, r) ->
                  valid_str str /\ Forall scalar r /\
                  match str with
                  | b :: _ =>
                      is_low_surrogate b = true ->
                      exists t', (92 :: 117 :: h1 :: h2 :: h3 :: h4 :: r2)%N
                                 = (92 :: 117 :: t')%N
                  | [] => True
                  end) as Halone.
        { intros t Ht Hst Hnext. apply Hrec; [done | done | lia | | done].
          intros _. apply Hnext. }
        (* when the text does not go on with a backslash-u escape *)
        assert (forall t, (length t <= n)%nat -> Forall scalar t ->
                  (forall t', t <> (92 :: 117 :: t')%N) ->
                  forall b str' r', scanstring t = Some (b :: str', r') ->
                                    is_low_surrogate b = false) as Hplain.
        { intros t Ht Hst Hno b str' r' Hscan.
          destruct (IH _ _ _ Ht Hst Hscan) as (_ & _ & Hb').
          destruct (is_low_surrogate b); [|done].
          destruct (Hb' eq_refl) as [t' ->]. by destruct (Hno t'). }
        assert (forall t, (length t < 6)%nat ->
                  forall b str' r', scanstring t = Some (b :: str', r') ->
                  forall t', t <> (92 :: 117 :: t')%N) as Hshort.
        { intros t Hlen b str' r' Hscan t' ->.
          destruct t' as [|x1 [|x2 [|x3 [|x4 t']]]]; try done.
          cbn [length] in Hlen. lia. }
        assert ((length r2 < 6)%nat ->
                cons_char uni (scanstring r2) = Some (str, r) ->
                valid_str str /\ Forall scalar r /\
                match str with
                | b :: _ =>
                    is_low_surrogate b = true ->
                    exists t', (92 :: 117 :: h1 :: h2 :: h3 :: h4 :: r2)%N
                               = (92 :: 117 :: t')%N
                | [] => True
                end) as Hfew.
        { intros Hlen. apply Halone; [lia | done |].
          intros b0 str' r' Hscan.
          eapply (Hplain r2); [lia | done | | exact Hscan].
          by eapply Hshort. }
        destruct r2 as [|b [|u [|k1 [|k2 [|k3 [|k4 r3]]]]]];
          try (apply Hfew; [cbn [length]; lia | done]).
        cbn [length] in Hle.
        destruct ((b =? 92) && (u =? 117))%N eqn:Hbu.
        -- apply andb_true_iff in Hbu as [->%N.eqb_eq ->%N.eqb_eq].
           destruct (decode_uXXXX k1 k2 k3 k4) as [uni2|] eqn:Hdec2; [|done].
           destruct (is_low_surrogate uni2) eqn:Hlow2.
           ++ pose proof (join_surrogates_bound _ _ Hhigh Hlow2) as Hj.
              destruct (not_surrogate_low (join_surrogates uni uni2)) as [Hjh Hjl];
                [lia|].
              apply (Hrec (join_surrogates uni uni2) r3);
                [lia | by do 6 apply Forall_cons in Hr2 as [_ Hr2] | lia
                | by rewrite Hjh | by rewrite Hjl | done].
           ++ revert H. apply Halone; [cbn [length]; lia | done |].
              intros b0 str' r' Hscan. by eapply scanstring_u_head.
        -- revert H. apply Halone; [cbn [length]; lia | done |].
           apply Hplain; [cbn [length]; lia | done |].
           intros t' [= -> -> _]. done.
      * destruct (BACKSLASH esc) as [char|] eqn:Hchar; [|done].
        pose proof (BACKSLASH_ascii _ _ Hchar) as Hascii.
        destruct (not_surrogate_low char) as [Hch Hcl]; [lia|].
        cbn [length] in Hle.
        apply (Hrec char r1); [lia | done | lia | by rewrite Hch | by rewrite Hcl | done].
    + destruct (c <? 32)%N; [done|].
      destruct (scalar_not_surrogate c Hc) as (Hlt & Hch & Hcl).
      apply (Hrec c s); [lia | done | done | by rewrite Hch | by rewrite Hcl | done].
Qed.

Lemma json_wf_list (vs : list pyval) :
  Forall (fun v => float_free v = true -> json_wf v) vs ->
  float_free (PList vs) = true -> json_wf (PList vs).
Proof.
  cbn [float_free json_wf].
  induction 1 as [|v vs Hv Hvs IH]; [done|].
  cbn [forallb fold_right]. rewrite andb_true_iff. intros [? ?]. split; auto.
Qed.

Lemma json_wf_dict (d : list (list N * pyval)) :
  NoDup (List.map fst d) ->
  Forall (fun kv => valid_str kv.1 /\ (float_free kv.2 = true -> json_wf kv.2)) d ->
  float_free (PDict d) = true -> json_wf (PDict d).
Proof.
  cbn [float_free json_wf]. intros Hnd Hd Hff. split; [done|]. clear Hnd.
  induction Hd as [|[k v] d [Hk Hv] Hd IH]; [done|].
  cbn [forallb fold_right] in *. apply andb_true_iff in Hff as [? ?].
  split_and!; auto.
Qed.

Lemma dict_set_keys (d : list (list N * pyval)) (k : list N) (v : pyval) :
  List.map fst (dict_set d k v)
  = if decide (k ∈ List.map fst d) then List.map fst d else List.map fst d ++ [k].
Proof.
  induction d as [|[k' v'] d IH]; [done|].
  cbn [dict_set]. destruct (decide (k' = k)) as [->|Hne].
  - cbn [List.map fst]. rewrite decide_True; [done | by left].
  - cbn [List.map fst]. rewrite IH.
    destruct (decide (k ∈ List.map fst d)) as [Hin|Hnin].
    + rewrite decide_True; [done | by right].
    + rewrite decide_False; [done|]. intros [?|?]%elem_of_cons; congruence.
Qed.

Lemma dict_set_Forall (Q : list N * pyval -> Prop) (d : list (list N * pyval))
    (k : list N) (v : pyval) :
  Forall Q d -> Q (k, v) -> Forall Q (dict_set d k v).
Proof.
  intros Hd Hkv. induction Hd as [|[k' v'] d Hx Hd IH]; [by repeat constructor|].
  cbn [dict_set]. destruct (decide (k' = k)) as [->|Hne]; by constructor.
Qed.

Lemma dict_of_pairs_keys (pairs : list (list N * pyval)) :
  NoDup (List.map fst (dict_of_pairs pairs)).
Proof.
  unfold dict_of_pairs.
  assert (forall acc, NoDup (List.map fst acc) ->
            NoDup (List.map fst
                     (fold_left (fun d kv => dict_set d kv.1 kv.2) pairs acc))) as H.
  { induction pairs as [|[k v] pairs IH]; intros acc Hacc; [done|].
    cbn [fold_left fst snd]. apply IH. rewrite dict_set_keys.
    destruct (decide (k ∈ List.map fst acc)) as [Hin|Hnin]; [done|].
    apply NoDup_app. split_and!; [done | | apply NoDup_singleton].
    intros x Hx [->|[]%elem_of_nil]%elem_of_cons. done. }
  apply H. constructor.
Qed.

Lemma dict_of_pairs_Forall (Q : list N * pyval -> Prop)
    (pairs : list (list N * pyval)) :
  Forall Q pairs -> Forall Q (dict_of_pairs pairs).
Proof.
  unfold dict_of_pairs.
  assert (forall acc, Forall Q acc -> Forall Q pairs ->
            Forall Q (fold_left (fun d kv => dict_set d kv.1 kv.2) pairs acc)) as H.
  { induction pairs as [|[k v] pairs IH]; intros acc Hacc Hp; [done|].
    apply Forall_cons in Hp as [Hkv Hp].
    cbn [fold_left]. apply IH; [|done]. by apply dict_set_Forall. }
  apply H. constructor.
Qed.

Section Faithful.
Variable float_repr : float -> list N.
Variable float_of_str : list N -> float.

Lemma array_loop_faithful (sc : list N -> parse pyval) (n : nat) (s : list N)
    (vs : list pyval) (r : list N) :
  faithful_scanner sc ->
  array_loop sc n s = Parsed vs r ->
  Forall scalar s ->
  Forall (fun v => float_free v = true -> json_wf v) vs /\ Forall scalar r.
Proof.
  intros Hsc. revert s vs r. induction n as [|n IH]; intros s vs r H Hs; [done|].
  cbn [array_loop] in H.
  destruct (sc s) as [v r0| |] eqn:Hv; [|done..].
  destruct (Hsc _ _ _ Hv Hs) as [Hwf Hr0].
  pose proof (skip_ws_Forall _ _ Hr0) as Hws.
  destruct (skip_ws r0) as [|c r1]; [done|].
  apply Forall_cons in Hws as [_ Hr1].
  destruct (c =? 93)%N.
  { injection H as <- <-. split; [constructor; [done | constructor] | done]. }
  destruct (c =? 44)%N; [|done].
  destruct (array_loop sc n (skip_ws r1)) as [vs' r2| |] eqn:Hloop; [|done..].
  injection H as <- <-.
  destruct (IH _ _ _ Hloop (skip_ws_Forall _ _ Hr1)) as [Hvs Hr2].
  split; [by constructor | done].
Qed.

Lemma JSONArray_faithful (sc : list N -> parse pyval) :
  faithful_scanner sc -> faithful_scanner (JSONArray sc).
Proof.
  intros Hsc s v r H Hs. unfold JSONArray in H. cbv zeta in H.
  pose proof (skip_ws_Forall _ _ Hs) as Hws.
  assert (match array_loop sc (S (length (skip_ws s))) (skip_ws s) with
          | Parsed values rest => Parsed (PList values) rest
          | Invalid => Invalid
          | OutOfFuel => OutOfFuel
          end = Parsed v r ->
          (float_free v = true -> json_wf v) /\ Forall scalar r) as Hitems.
  { destruct (array_loop sc _ (skip_ws s)) as [vs r'| |] eqn:Hloop; [|done..].
    intros [= <- <-].
    destruct (array_loop_faithful _ _ _ _ _ Hsc Hloop Hws) as [Hvs Hr].
    split; [by apply json_wf_list | done]. }
  destruct (skip_ws s) as [|c r0] eqn:Hsk; [by apply Hitems|].
  destruct (c =? 93)%N; [|by apply Hitems].
  injection H as <- <-. split; [done|]. by apply Forall_cons in Hws as [_ ?].
Qed.

Lemma object_loop_faithful (sc : list N -> parse pyval) (n : nat) (s : list N)
    (pairs : list (list N * pyval)) (r : list N) :
  faithful_scanner sc ->
  object_loop sc n s = Parsed pairs r ->
  Forall scalar s ->
  Forall (fun kv => valid_str kv.1 /\ (float_free kv.2 = true -> json_wf kv.2)) pairs
  /\ Forall scalar r.
Proof.
  intros Hsc. revert s pairs r. induction n as [|n IH]; intros s pairs r H Hs; [done|].
  cbn [object_loop] in H.
  destruct (scanstring s) as [[key r0]|] eqn:Hkey; [|done].
  destruct (scanstring_faithful _ _ _ Hs Hkey) as (Hk & Hr0 & _).
  pose proof (skip_ws_Forall _ _ Hr0) as Hws.
  destruct (skip_ws r0) as [|c r1]; [done|].
  apply Forall_cons in Hws as [_ Hr1].
  destruct (c =? 58)%N; [|done].
  destruct (sc (skip_ws r1)) as [v r2| |] eqn:Hv; [|done..].
  destruct (Hsc _ _ _ Hv (skip_ws_Forall _ _ Hr1)) as [Hwf Hr2].
  pose proof (skip_ws_Forall _ _ Hr2) as Hws2.
  destruct (skip_ws r2) as [|c2 r3]; [done|].
  apply Forall_cons in Hws2 as [_ Hr3].
  destruct (c2 =? 125)%N.
  { injection H as <- <-. split; [constructor; [by split | constructor] | done]. }
  destruct (c2 =? 44)%N; [|done].
  pose proof (skip_ws_Forall _ _ Hr3) as Hws3.
  destruct (skip_ws r3) as [|c3 r4]; [done|].
  apply Forall_cons in Hws3 as [_ Hr4].
  destruct (c3 =? 34)%N; [|done].
  destruct (object_loop sc n r4) as [pairs' r5| |] eqn:Hloop; [|done..].
  injection H as <- <-.
  destruct (IH _ _ _ Hloop Hr4) as [Hps Hr5].
  split; [by constructor | done].
Qed.

Lemma JSONObject_faithful (sc : list N -> parse pyval) :
  faithful_scanner sc -> faithful_scanner (JSONObject sc).
Proof.
  intros Hsc s v r H Hs. unfold JSONObject in H.
  pose proof (skip_ws_Forall _ _ Hs) as Hws.
  destruct (skip_ws s) as [|c r0]; [done|].
  apply Forall_cons in Hws as [_ Hr0].
  destruct (c =? 34)%N.
  - destruct (object_loop sc (S (length r0)) r0) as [pairs r'| |] eqn:Hloop; [|done..].
    injection H as <- <-.
    destruct (object_loop_faithful _ _ _ _ _ Hsc Hloop Hr0) as [Hps Hr].
    split; [|done].
    apply json_wf_dict; [apply dict_of_pairs_keys | by apply dict_of_pairs_Forall].
  - destruct (c =? 125)%N; [|done]. injection H as <- <-.
    split; [|done]. intros _. split; [constructor | done].
Qed.

Lemma scan_once_faithful (depth : nat) : faithful_scanner (scan_once float_of_str depth).
Proof.
  induction depth as [|depth IH]; intros s v r H Hs; [done|].
  destruct s as [|c s]; [done|]. cbn [scan_once] in H.
  pose proof Hs as Hcs. apply Forall_cons in Hs as [Hc Hs].
  destruct (c =? 34)%N.
  { destruct (scanstring s) as [[str rest]|] eqn:Hstr; [|done].
    injection H as <- <-.
    destruct (scanstring_faithful _ _ _ Hs Hstr) as (Hv & Hr & _). by split. }
  destruct (c =? 123)%N; [exact (JSONObject_faithful _ IH _ _ _ H Hs)|].
  destruct (c =? 91)%N; [exact (JSONArray_faithful _ IH _ _ _ H Hs)|].
  destruct (startswith (c :: s) (py "null")).
  { injection H as <- <-. split; [done|]. by apply Forall_drop. }
  destruct (startswith (c :: s) (py "true")).
  { injection H as <- <-. split; [done|]. by apply Forall_drop. }
  destruct (startswith (c :: s) (py "false")).
  { injection H as <- <-. split; [done|]. by apply Forall_drop. }
  destruct (match_number (c :: s)) as [[[[i f] e] rest]|] eqn:Hnum.
  - pose proof (match_number_Forall _ _ _ _ _ _ Hcs Hnum) as Hrest.
    destruct f, e; injection H as <- <-; by split.
  - destruct (startswith (c :: s) (py "NaN")).
    { injection H as <- <-. split; [done|]. by apply Forall_drop. }
    destruct (startswith (c :: s) (py "Infinity")).
    { injection H as <- <-. split; [done|]. by apply Forall_drop. }
    destruct (startswith (c :: s) (py "-Infinity")); [|done].
    injection H as <- <-. split; [done|]. by apply Forall_drop.
Qed.

(** Every float-free value the decoder returns for scalar text is one
    that JSON text represents faithfully. *)
Lemma json_loads_faithful (s : list N) (v : pyval) (r : list N) :
  Forall scalar s ->
  json_loads float_of_str s = Parsed v r ->
  float_free v = true ->
  json_wf v.
Proof.
  unfold json_loads. intros Hs H.
  destruct (startswith s [0xfeff%N]); [done|].
  destruct (scan_once float_of_str (S (length s)) (skip_ws s)) as [obj r'| |] eqn:Hscan;
    [|done..].
  destruct (skip_ws r'); [|done]. injection H as <- <-.
  by apply (scan_once_faithful _ _ _ _ Hscan (skip_ws_Forall _ _ Hs)).
Qed.

(** X14. A library loaded from a file can be saved again and loaded
    back unchanged: when the text of the file is within the
    interpreter's limits, holds no surrogate code point and decodes to a
    value without floats, then after loading it, saving to any writable
    file and loading that file, the store is the same value. *)
Theorem loaded_store_persists (src dst s : list N) (v : pyval) (σ : state) :
  files σ !! src = Some (Text s) ->
  within_limits s = true ->
  Forall scalar s ->
  json_loads float_of_str s = Parsed v [] ->
  float_free v = true ->
  dst ∉ unwritable σ ->
  exists σ1 σ2 σ3,
    load_library_from_file float_of_str src σ = Ok tt σ1 /\
    store σ1 = Some v /\
    save_library_to_file float_repr dst σ1 = Ok tt σ2 /\
    load_library_from_file float_of_str dst σ2 = Ok tt σ3 /\
    store σ3 = Some v.
Proof.
  intros Hf _ Hs Hv Hff Hw.
  pose proof (json_loads_faithful s v [] Hs Hv Hff) as Hwf.
  pose proof (load_parsed float_of_str src s v [] σ Hf Hv) as Hload.
  set (σ1 := set_page _ _) in Hload.
  assert (store σ1 = Some v) as Hst1.
  { unfold store. simpl. by rewrite lookup_insert_eq. }
  destruct (save_load_value float_repr float_of_str dst v σ1 Hst1 Hwf Hw)
    as (σ2 & σ3 & Hsave & Hload2 & Hst3 & _).
  by exists σ1, σ2, σ3.
Qed.
End Faithful.

(** * The scenario of the specification, run on the model *)

Example new_session : init_state ∅ ∅ = session [] ∅.
Proof. reflexivity. Qed.

Example scenario_add :
  add_book_form (py "Dune") (py "Frank Herbert") 1965 (py "Science Fiction") false
    (py "2024-01-01 10:00:00") (session [] ∅)
  = Ok tt (set_page [Success] (session [dune] ∅)).
Proof. reflexivity. Qed.

Example scenario_search :
  search_books ascii_lower (py "dune") (py "title") (session [dune; emma] ∅)
  = Ok [to_dict dune] (session [dune; emma] ∅).
Proof. reflexivity. Qed.

Example scenario_statistics :
  calculate_statistics (session [dune; emma] ∅)
  = Ok (PDict [(py "total_books", PInt 2);
               (py "read_books", PInt 1);
               (py "unread_books", PInt 1);
               (py "read_percentage", PFloat 50)])
       (session [dune; emma] ∅).
Proof. reflexivity. Qed.

Example scenario_remove :
  remove_book ascii_lower (py "dune") (session [dune; emma] ∅)
  = Ok tt (set_page [Success] (session [emma] ∅)).
Proof. reflexivity. Qed.

Example scenario_sort_by_year :
  display_order ascii_lower Year false [dune; emma] = [emma; dune] /\
  display_order ascii_lower Year true [dune; emma] = [dune; emma].
Proof. split; reflexivity. Qed.

(** The two halves of a surrogate pair, kept as two code points in a
    string, come back from the file as one character: such strings are
    not among the faithful ones. *)
Example surrogate_pair_merged :
  json_loads sample_float_of_str
    (json_dumps sample_float_repr (PStr [0xd83d%N; 0xde00%N]))
  = Parsed (PStr [0x1f600%N]) [].
Proof. reflexivity. Qed.

(** * Instances of the theorems on the sample data *)

Lemma dune_emma_wf : Forall book_wf [dune; emma].
Proof.
  repeat (apply List.Forall_cons;
          [repeat split; repeat constructor|]).
  constructor.
Defined.

Lemma save_load_round_trip_witness :
  exists σ1 σ2,
    save_library_to_file sample_float_repr (py "library.json") (session [dune; emma] ∅)
    = Ok tt σ1 /\
    load_library_from_file sample_float_of_str (py "library.json") σ1 = Ok tt σ2 /\
    store σ2 = Some (store_of [dune; emma]) /\
    page σ2 = page (session [dune; emma] ∅) ++ [Success; Success].
Proof.
  apply (save_load_round_trip sample_float_repr sample_float_of_str
           (py "library.json") [dune; emma] (session [dune; emma] ∅)).
  - reflexivity.
  - exact dune_emma_wf.
  - apply not_elem_of_empty.
Defined.

Lemma load_all_or_nothing_witness :
  let σ := session [dune] {[ py "library.json" := Text (py "not json") ]} in
  (json_loads sample_float_of_str (py "not json") = Invalid /\
   load_library_from_file sample_float_of_str (py "library.json") σ
   = Ok tt (set_page (page σ ++ [Error]) σ))
  \/ (exists v σ',
        json_loads sample_float_of_str (py "not json") = Parsed v [] /\
        load_library_from_file sample_float_of_str (py "library.json") σ = Ok tt σ' /\
        store σ' = Some v /\
        page σ' = page σ ++ [Success] /\
        files σ' = files σ).
Proof.
  apply (load_all_or_nothing sample_float_of_str (py "library.json") (py "not json")
           (session [dune] {[ py "library.json" := Text (py "not json") ]})).
  - reflexivity.
  - reflexivity.
Defined.

(** C2 as stated fails: the text [42] is well-formed JSON and not an
    array of records, yet the load succeeds and the store becomes 42. *)
Lemma load_replaces_store_counterexample :
  let σ := session [dune] {[ py "library.json" := Text (py "42") ]} in
  exists σ',
    load_library_from_file sample_float_of_str (py "library.json") σ = Ok tt σ' /\
    page σ' = [Success] /\
    store σ' = Some (PInt 42) /\
    store σ' <> store σ.
Proof.
  eexists. split; [vm_compute; reflexivity|].
  split; [reflexivity|]. split; [reflexivity|].
  vm_compute. discriminate.
Qed.

Lemma recently_added_newest_first_witness :
  exists σ' out,
    view_all_books ascii_lower RecentlyAdded false (session [dune; emma] ∅) = Ok tt σ' /\
    page σ' = page (session [dune; emma] ∅) ++ listing out /\
    Permutation out [dune; emma] /\
    (false = false -> descending ascii_lower RecentlyAdded out) /\
    (false = true -> ascending ascii_lower RecentlyAdded out).
Proof.
  apply (recently_added_newest_first ascii_lower false [dune; emma]
           (session [dune; emma] ∅)).
  reflexivity.
Defined.

(** C3 as stated fails: with the reverse toggle off, "Recently Added"
    shows Emma (added on the 2nd) before Dune (added on the 1st), which is
    not ascending by added date. *)
Lemma recently_added_off_counterexample :
  exists σ',
    view_all_books ascii_lower RecentlyAdded false (session [dune; emma] ∅) = Ok tt σ' /\
    page σ' = Total 2 :: cards emma ++ cards dune /\
    ~ ascending ascii_lower RecentlyAdded [emma; dune].
Proof.
  eexists. split; [vm_compute; reflexivity|]. split; [reflexivity|].
  intros H. inversion H as [|? ? _ Hhd]. inversion Hhd as [|? ? Hle]. discriminate Hle.
Qed.

Lemma add_book_form_accepts_iff_witness :
  let σ := session [] ∅ in
  (py "Dune" = [] \/ py "Frank Herbert" = [] \/ 1965%Z = 0%Z ->
   add_book_form (py "Dune") (py "Frank Herbert") 1965 (py "Science Fiction") false
     (py "2024-01-01 10:00:00") σ
   = Ok tt (set_page (page σ ++ [Warning]) σ))
  /\ (py "Dune" <> [] -> py "Frank Herbert" <> [] -> 1965%Z <> 0%Z ->
      add_book_form (py "Dune") (py "Frank Herbert") 1965 (py "Science Fiction") false
        (py "2024-01-01 10:00:00") σ
      = Ok tt (set_page (page σ ++ [Success])
                 (set_heap (<[library σ := PList ([] ++ [to_dict dune])]> (heap σ)) σ))).
Proof.
  apply (add_book_form_accepts_iff (py "Dune") (py "Frank Herbert") 1965
           (py "Science Fiction") false (py "2024-01-01 10:00:00") [] (session [] ∅)).
  reflexivity.
Defined.

(** C4 as stated fails: a submission with a title, an author and the
    year 0 is turned down with a warning, and the store stays empty. *)
Lemma add_book_form_year_zero_counterexample :
  exists σ',
    add_book_form (py "Dune") (py "Frank Herbert") 0 (py "Science Fiction") false
      (py "2024-01-01 10:00:00") (session [] ∅) = Ok tt σ' /\
    page σ' = [Warning] /\
    store σ' = Some (PList []).
Proof. eexists. split; [vm_compute; reflexivity|]. split; reflexivity. Qed.

Lemma remove_book_first_match_witness :
  let σ := session [dune; emma] ∅ in
  (exists l1 b l2,
      [dune; emma] = l1 ++ b :: l2 /\
      Forall (fun x => ascii_lower (title x) <> ascii_lower (py "dune")) l1 /\
      ascii_lower (title b) = ascii_lower (py "dune") /\
      remove_book ascii_lower (py "dune") σ
      = Ok tt (set_page (page σ ++ [Success])
                 (set_heap (<[library σ := store_of (l1 ++ l2)]> (heap σ)) σ)))
  \/ (Forall (fun x => ascii_lower (title x) <> ascii_lower (py "dune")) [dune; emma] /\
      remove_book ascii_lower (py "dune") σ = Ok tt (set_page (page σ ++ [Warning]) σ)).
Proof.
  apply (remove_book_first_match ascii_lower (py "dune") [dune; emma]
           (session [dune; emma] ∅)).
  reflexivity.
Defined.


Lemma calculate_statistics_counts_witness :
  let σ := session [dune; emma] ∅ in
  let total := Z.of_nat (length [dune; emma]) in
  let read := Z.of_nat (length (List.filter read_status [dune; emma])) in
  calculate_statistics σ
  = Ok (PDict
          [(py "total_books", PInt total);
           (py "read_books", PInt read);
           (py "unread_books", PInt (total - read));
           (py "read_percentage",
             if (total >? 0)%Z
             then PFloat (PrimFloat.mul
                            (PrimFloat.div (float_of_int read) (float_of_int total))
                            (float_of_int 100))
             else PInt 0)]) σ
  /\ ([dune; emma] = [] ->
      calculate_statistics σ
      = Ok (PDict
              [(py "total_books", PInt 0);
               (py "read_books", PInt 0);
               (py "unread_books", PInt 0);
               (py "read_percentage", PInt 0)]) σ).
Proof.
  apply (calculate_statistics_counts [dune; emma] (session [dune; emma] ∅)).
  reflexivity.
Defined.

Lemma view_all_books_keeps_store_witness :
  let σ := session [dune; emma] ∅ in
  exists σ',
    view_all_books ascii_lower Year false σ = Ok tt σ' /\
    library σ' = library σ /\
    store σ' = Some (store_of [dune; emma]) /\
    files σ' = files σ /\
    ([dune; emma] <> [] ->
     exists l out,
       heap σ !! l = None /\
       heap σ' = <[l := store_of out]> (heap σ) /\
       page σ' = page σ ++ listing out).
Proof.
  apply (view_all_books_keeps_store ascii_lower Year false [dune; emma]
           (session [dune; emma] ∅)).
  reflexivity.
Defined.

Lemma view_all_books_sorted_stable_witness :
  let σ := session [dune; emma] ∅ in
  exists σ' out,
    view_all_books ascii_lower Year false σ = Ok tt σ' /\
    page σ' = page σ ++ listing out /\
    Permutation out [dune; emma] /\
    (ascending ascii_lower Year out \/ descending ascii_lower Year out) /\
    (Year <> RecentlyAdded -> ascending ascii_lower Year out) /\
    same_order_of_ties ascii_lower Year out [dune; emma].
Proof.
  apply (view_all_books_sorted_stable ascii_lower Year false [dune; emma]
           (session [dune; emma] ∅)).
  reflexivity.
Defined.

Lemma search_books_needs_str_fields_witness :
  let items := [to_dict dune; PDict []] in
  let σ := State {[ 0%nat := PList items ]} 0%nat ∅ ∅ [] in
  ((exists results, search_books ascii_lower (py "dune") (py "title") σ = Ok results σ)
   <-> Forall (has_str_field (py "title")) items)
  /\ (~ Forall (has_str_field (py "title")) items ->
      exists e, search_books ascii_lower (py "dune") (py "title") σ = Raise e σ)
  /\ (forall filename σ0,
        files σ0 !! filename = Some (Text (py "[{}]")) ->
        exists σ',
          load_library_from_file sample_float_of_str filename σ0 = Ok tt σ' /\
          search_books ascii_lower (py "dune") (py "title") σ' = Raise KeyError σ').
Proof.
  apply (search_books_needs_str_fields ascii_lower sample_float_of_str
           (py "dune") (py "title") [to_dict dune; PDict []]
           (State {[ 0%nat := PList [to_dict dune; PDict []] ]} 0%nat ∅ ∅ [])).
  reflexivity.
Defined.

(** * Instances of the further properties *)

(** Where the limits lie: a numeral of 4300 digits and 100 nested arrays
    are within them, 4301 digits and 101 arrays are not; brackets inside
    a string literal do not count. *)
Example limits_boundary :
  within_limits (List.repeat 49%N 4300) = true /\
  within_limits (List.repeat 49%N 4301) = false /\
  within_limits (List.repeat 91%N 100 ++ List.repeat 93%N 100) = true /\
  within_limits (List.repeat 91%N 101 ++ List.repeat 93%N 101) = false /\
  bracket_depth ([91; 34] ++ List.repeat 91 200 ++ [34; 93])%N = 1%nat.
Proof. repeat split; vm_compute; reflexivity. Qed.

Lemma shelf_wf : json_wf shelf.
Proof.
  assert (json_wf (store_of [dune])) as [Hdune _].
  { apply store_of_wf. pose proof dune_emma_wf as Hde.
    apply Forall_cons in Hde as [Hd _].
    apply List.Forall_cons; [exact Hd | apply List.Forall_nil]. }
  split; [by apply (bool_decide_unpack (NoDup [py "shelf"]))|].
  split; [split; [repeat constructor | by vm_compute]|].
  split; [|done]. split; [exact Hdune | done].
Defined.

Lemma save_load_any_value_witness :
  let σ := session_of shelf ∅ in
  exists σ1 σ2,
    save_library_to_file sample_float_repr (py "library.json") σ = Ok tt σ1 /\
    load_library_from_file sample_float_of_str (py "library.json") σ1 = Ok tt σ2 /\
    store σ2 = Some shelf /\
    files σ2
    = <[py "library.json" := Text (json_dumps sample_float_repr shelf)]> (files σ) /\
    page σ2 = page σ ++ [Success; Success].
Proof.
  apply (save_load_any_value sample_float_repr sample_float_of_str
           (py "library.json") shelf (session_of shelf ∅)).
  - reflexivity.
  - exact shelf_wf.
  - apply not_elem_of_empty.
Defined.

Lemma save_replaces_file_witness :
  let σ := session [dune] {[ py "library.json" := Text (py "old text") ]} in
  exists σ',
    save_library_to_file sample_float_repr (py "library.json") σ = Ok tt σ' /\
    heap σ' = heap σ /\ library σ' = library σ /\
    (forall other, other <> py "library.json" ->
                   files σ' !! other = files σ !! other) /\
    ((py "library.json" ∈ unwritable σ /\ page σ' = page σ ++ [Error])
     \/ ((py "library.json" ∉ unwritable σ) /\
         files σ' !! py "library.json"
         = Some (Text (json_dumps sample_float_repr (store_of [dune]))) /\
         page σ' = page σ ++ [Success])).
Proof.
  apply (save_replaces_file sample_float_repr (py "library.json") (store_of [dune])
           (session [dune] {[ py "library.json" := Text (py "old text") ]})).
  reflexivity.
Defined.

Lemma add_book_needs_list_witness :
  let σ := session [dune] {[ py "library.json" := Text (py "{}") ]} in
  exists σ',
    load_library_from_file sample_float_of_str (py "library.json") σ = Ok tt σ' /\
    store σ' = Some (PDict []) /\
    add_book (py "Emma") (py "Jane Austen") 1815 (py "Romance") true
      (py "2024-01-02 10:00:00") σ'
    = Raise AttributeError σ'.
Proof.
  apply (add_book_needs_list sample_float_of_str
           (py "Emma") (py "Jane Austen") 1815 (py "Romance") true
           (py "2024-01-02 10:00:00") (py "library.json") (py "{}") (PDict [])
           (session [dune] {[ py "library.json" := Text (py "{}") ]})).
  - reflexivity.
  - reflexivity.
  - reflexivity.
  - intros items. discriminate.
Defined.

Lemma add_then_remove_witness :
  let σ := session [dune; emma] ∅ in
  let t := py "DUNE" in
  let new := Book t (py "F. Herbert") 1984 (py "Science Fiction") true
               (py "2024-01-03 10:00:00") in
  exists σ1 σ2,
    add_book t (py "F. Herbert") 1984 (py "Science Fiction") true
      (py "2024-01-03 10:00:00") σ = Ok tt σ1 /\
    remove_book ascii_lower t σ1 = Ok tt σ2 /\
    library σ2 = library σ /\
    page σ2 = page σ ++ [Success; Success] /\
    ((Forall (fun x => ascii_lower (title x) <> ascii_lower t) [dune; emma] /\
      store σ2 = Some (store_of [dune; emma]))
     \/ (exists l1 b l2,
           [dune; emma] = l1 ++ b :: l2 /\
           Forall (fun x => ascii_lower (title x) <> ascii_lower t) l1 /\
           ascii_lower (title b) = ascii_lower t /\
           store σ2 = Some (store_of (l1 ++ l2 ++ [new])))).
Proof.
  apply (add_then_remove ascii_lower (py "DUNE") (py "F. Herbert") 1984
           (py "Science Fiction") true (py "2024-01-03 10:00:00") [dune; emma]
           (session [dune; emma] ∅)).
  reflexivity.
Defined.

Lemma add_then_search_witness :
  let σ := session [dune] ∅ in
  let new := emma in
  let hit := fun b => str_contains (ascii_lower (py "e"))
                        (ascii_lower (field_value ByTitle b)) in
  exists σ1,
    add_book (title emma) (author emma) (year emma) (genre emma) (read_status emma)
      (added_date emma) σ = Ok tt σ1 /\
    search_books ascii_lower (py "e") (field_name ByTitle) σ1
    = Ok (List.map to_dict (List.filter hit [dune] ++ if hit new then [new] else [])) σ1 /\
    search_books ascii_lower (field_value ByTitle new) (field_name ByTitle) σ1
    = Ok (List.map to_dict
            (List.filter
               (fun b => str_contains (ascii_lower (field_value ByTitle new))
                           (ascii_lower (field_value ByTitle b)))
               [dune] ++ [new])) σ1.
Proof.
  apply (add_then_search ascii_lower (title emma) (author emma) (year emma)
           (genre emma) (read_status emma) (added_date emma) (py "e") ByTitle
           [dune] (session [dune] ∅)).
  reflexivity.
Defined.

Lemma statistics_after_add_witness :
  let σ := session [dune] ∅ in
  let total := Z.of_nat (length [dune]) in
  let read := Z.of_nat (length (List.filter read_status [dune])) in
  exists σ1 stats stats1,
    calculate_statistics σ = Ok (PDict stats) σ /\
    add_book (title emma) (author emma) (year emma) (genre emma) true
      (added_date emma) σ = Ok tt σ1 /\
    calculate_statistics σ1 = Ok (PDict stats1) σ1 /\
    dict_get stats (py "total_books") = Some (PInt total) /\
    dict_get stats1 (py "total_books") = Some (PInt (total + 1)) /\
    dict_get stats (py "read_books") = Some (PInt read) /\
    dict_get stats1 (py "read_books") = Some (PInt (if true then read + 1 else read)) /\
    dict_get stats (py "unread_books") = Some (PInt (total - read)) /\
    dict_get stats1 (py "unread_books")
    = Some (PInt (if true then total - read else total - read + 1)).
Proof.
  apply (statistics_after_add (title emma) (author emma) (year emma) (genre emma)
           true (added_date emma) [dune] (session [dune] ∅)).
  reflexivity.
Defined.

Lemma queries_read_only_witness :
  let σ := session_of (PList [to_dict dune; PInt 3]) ∅ in
  unchanged σ (search_books ascii_lower (py "dune") (py "title") σ) /\
  unchanged σ (calculate_statistics σ).
Proof.
  apply (queries_read_only ascii_lower (py "dune") (py "title")
           (PList [to_dict dune; PInt 3])
           (session_of (PList [to_dict dune; PInt 3]) ∅)).
  reflexivity.
Defined.

Lemma statistics_needs_read_status_witness :
  let items := [to_dict dune; PDict [(py "read_status", PStr (py "no"))]] in
  let σ := session_of (PList items) ∅ in
  let total := Z.of_nat (length items) in
  let read := Z.of_nat (length (List.filter counts_as_read items)) in
  (Forall (fun x => is_Some (field (py "read_status") x)) items /\
   calculate_statistics σ
   = Ok (PDict
           [(py "total_books", PInt total);
            (py "read_books", PInt read);
            (py "unread_books", PInt (total - read));
            (py "read_percentage",
              if (total >? 0)%Z
              then PFloat (PrimFloat.mul
                             (PrimFloat.div (float_of_int read) (float_of_int total))
                             (float_of_int 100))
              else PInt 0)]) σ)
  \/ (~ Forall (fun x => is_Some (field (py "read_status") x)) items /\
      exists e, (e = KeyError \/ e = TypeError) /\
                calculate_statistics σ = Raise e σ).
Proof.
  apply (statistics_needs_read_status
           [to_dict dune; PDict [(py "read_status", PStr (py "no"))]]
           (session_of
              (PList [to_dict dune; PDict [(py "read_status", PStr (py "no"))]]) ∅)).
  reflexivity.
Defined.

Lemma remove_book_outcome_witness :
  let items := [to_dict dune; PDict []; to_dict emma] in
  let σ := session_of (PList items) ∅ in
  let t := py "emma" in
  (exists l1 x l2,
      items = l1 ++ x :: l2 /\
      Forall (titled_otherwise ascii_lower t) l1 /\ titled ascii_lower t x /\
      remove_book ascii_lower t σ
      = Ok tt (set_page (page σ ++ [Success])
                 (set_heap (<[library σ := PList (l1 ++ l2)]> (heap σ)) σ)))
  \/ (Forall (titled_otherwise ascii_lower t) items /\
      remove_book ascii_lower t σ = Ok tt (set_page (page σ ++ [Warning]) σ))
  \/ (exists l1 x l2,
        items = l1 ++ x :: l2 /\
        Forall (titled_otherwise ascii_lower t) l1 /\
        str_field (py "title") x = None /\
        exists e, remove_book ascii_lower t σ = Raise e σ).
Proof.
  apply (remove_book_outcome ascii_lower (py "emma")
           [to_dict dune; PDict []; to_dict emma]
           (session_of (PList [to_dict dune; PDict []; to_dict emma]) ∅)).
  reflexivity.
Defined.

Lemma view_all_books_leaves_store_witness :
  let σ := session_of (PList [to_dict dune; PDict []]) ∅ in
  same_store σ (view_all_books ascii_lower Title false σ).
Proof.
  apply (view_all_books_leaves_store ascii_lower Title false
           (PList [to_dict dune; PDict []])
           (session_of (PList [to_dict dune; PDict []]) ∅)).
  reflexivity.
Defined.

Lemma remove_book_page_removes_witness :
  let bs := [dune; emma; dune_again] in
  let σ := session bs ∅ in
  (bs = [] ->
   forall clicked,
     remove_book_page ascii_lower 2 clicked σ
     = Ok tt (set_page (page σ ++ [Info]) σ))
  /\ (forall sel, bs !! 2%nat = Some sel ->
      remove_book_page ascii_lower 2 false σ = Ok tt σ /\
      exists l1 b l2,
        bs = l1 ++ b :: l2 /\
        Forall (fun x => ascii_lower (title x) <> ascii_lower (title sel)) l1 /\
        ascii_lower (title b) = ascii_lower (title sel) /\
        (length l1 <= 2)%nat /\
        remove_book_page ascii_lower 2 true σ
        = Ok tt (set_page (page σ ++ [Success])
                   (set_heap (<[library σ := store_of (l1 ++ l2)]> (heap σ)) σ))).
Proof.
  apply (remove_book_page_removes ascii_lower 2 [dune; emma; dune_again]
           (session [dune; emma; dune_again] ∅)).
  reflexivity.
Defined.

Lemma reverse_toggle_mirrors_witness :
  let bs := [dune; emma; dune_again] in
  let σ := session bs ∅ in
  exists σ1 σ2,
    view_all_books ascii_lower Year false σ = Ok tt σ1 /\
    view_all_books ascii_lower Year true σ = Ok tt σ2 /\
    page σ1 = page σ ++ listing (display_order ascii_lower Year false bs) /\
    page σ2 = page σ ++ listing (rev (display_order ascii_lower Year false bs)).
Proof.
  apply (reverse_toggle_mirrors ascii_lower Year [dune; emma; dune_again]
           (session [dune; emma; dune_again] ∅)).
  - reflexivity.
  - apply (bool_decide_unpack
             (NoDup (List.map (sort_key ascii_lower Year) [dune; emma; dune_again]))).
    vm_compute. exact I.
Defined.

Lemma newest_book_shown_first_witness :
  let σ := session [dune; emma] ∅ in
  exists σ1 σ2,
    add_book (title dune_again) (author dune_again) (year dune_again)
      (genre dune_again) (read_status dune_again) (added_date dune_again) σ
    = Ok tt σ1 /\
    view_all_books ascii_lower RecentlyAdded false σ1 = Ok tt σ2 /\
    page σ2
    = page σ1
      ++ listing (dune_again
                  :: display_order ascii_lower RecentlyAdded false [dune; emma]).
Proof.
  apply (newest_book_shown_first ascii_lower (title dune_again) (author dune_again)
           (year dune_again) (genre dune_again) (read_status dune_again)
           (added_date dune_again) [dune; emma] (session [dune; emma] ∅)).
  - reflexivity.
  - apply List.Forall_cons; [reflexivity|].
    apply List.Forall_cons; [reflexivity|]. apply List.Forall_nil.
Defined.

Lemma sample_text_scalar : Forall scalar (py "[1, [true, null], {}]").
Proof.
  repeat (apply List.Forall_cons; [left; reflexivity|]). apply List.Forall_nil.
Defined.

Lemma loaded_store_persists_witness :
  let σ := session [] {[ py "old.json" := Text (py "[1, [true, null], {}]") ]} in
  let v := PList [PInt 1; PList [PBool true; PNone]; PDict []] in
  exists σ1 σ2 σ3,
    load_library_from_file sample_float_of_str (py "old.json") σ = Ok tt σ1 /\
    store σ1 = Some v /\
    save_library_to_file sample_float_repr (py "new.json") σ1 = Ok tt σ2 /\
    load_library_from_file sample_float_of_str (py "new.json") σ2 = Ok tt σ3 /\
    store σ3 = Some v.
Proof.
  apply (loaded_store_persists sample_float_repr sample_float_of_str
           (py "old.json") (py "new.json") (py "[1, [true, null], {}]")
           (PList [PInt 1; PList [PBool true; PNone]; PDict []])
           (session [] {[ py "old.json" := Text (py "[1, [true, null], {}]") ]})).
  - reflexivity.
  - reflexivity.
  - exact sample_text_scalar.
  - reflexivity.
  - reflexivity.
  - apply not_elem_of_empty.
Defined.

Lemma search_page_shows_witness :
  let bs := [dune; emma; dune_again] in
  let σ := session bs ∅ in
  let hits :=
    List.filter
      (fun b => str_contains (ascii_lower (py "dune"))
                  (ascii_lower (field_value ByTitle b))) bs in
  search_page ascii_lower (field_name ByTitle) (py "dune") σ
  = Ok (match py "dune" with [] => [] | _ :: _ => results_shown hits end) σ
  /\ forall search_by σ', search_page ascii_lower search_by [] σ' = Ok [] σ'.
Proof.
  apply (search_page_shows ascii_lower (py "dune") ByTitle [dune; emma; dune_again]
           (session [dune; emma; dune_again] ∅)).
  reflexivity.
Defined.

Lemma load_never_raises_witness :
  let σ := session [dune] {[ py "library.json" := Text (py "[1, 2]") ]} in
  exists σ',
    load_library_from_file sample_float_of_str (py "library.json") σ = Ok tt σ' /\
    files σ' = files σ /\
    unwritable σ' = unwritable σ /\
    ((exists s v,
        files σ !! py "library.json" = Some (Text s) /\
        json_loads sample_float_of_str s = Parsed v [] /\
        store σ' = Some v /\
        page σ' = page σ ++ [Success])
     \/ (files σ !! py "library.json" = None /\
         σ' = set_page (page σ ++ [Warning]) σ)
     \/ ((files σ !! py "library.json" = Some Unreadable \/
          exists s, files σ !! py "library.json" = Some (Text s) /\
                    json_loads sample_float_of_str s = Invalid) /\
         σ' = set_page (page σ ++ [Error]) σ)).
Proof.
  apply (load_never_raises sample_float_of_str (py "library.json")
           (session [dune] {[ py "library.json" := Text (py "[1, 2]") ]})).
  reflexivity.
Defined.
